(** * UQpy: sampling methods and Kriging surrogate

    A shallow embedding of the numerical core of UQpy
    ([src/UQpy/SampleMethods.py] and [src/UQpy/Surrogates.py]):

    - [Strata] : the rectilinear stratification of the unit hypercube
      ([Strata.__init__], [Strata.fullfact]) and the stratum split performed
      by [RSS.run_rss];
    - [MCMC]   : the three Markov chain kernels of [MCMC.run_mcmc] and the
      canonicalisation of the target density in [MCMC.init_mcmc];
    - [IS]     : importance sampling, with the call of the class
      [Distribution] of [src/UQpy/Distributions.py];
    - [Krig]   : the fit and the predictor of the Kriging surrogate.

    Python floats are read as exact numbers: rationals ([Q]) where the code
    only adds, multiplies, divides and compares, real numbers ([R]) where it
    takes logarithms and exponentials, and an arbitrary real field for the
    linear algebra of the surrogate.  Draws from the pseudo-random source are
    inputs of the embedded functions. *)

From Stdlib Require Import String Bool List Arith ZArith QArith Qabs Qround Lia.
From Stdlib Require Lqa Reals Lra Permutation.
From mathcomp Require boot order algebra.
Import ListNotations.

(* ===================================================================== *)
(** * Indexing helpers shared by the array code *)
(* ===================================================================== *)

(** In-place assignment [l[i] = v] on a position that exists. *)
Fixpoint upd {A : Type} (l : list A) (i : nat) (v : A) : list A :=
  match l, i with
  | [], _ => []
  | _ :: t, O => v :: t
  | h :: t, S j => h :: upd t j v
  end.

(** Reading an index that does not exist raises [IndexError]: [None]. *)
Definition bind {A B : Type} (o : option A) (f : A -> option B) : option B :=
  match o with
  | Some a => f a
  | None => None
  end.

Lemma upd_length {A : Type} (l : list A) (i : nat) (v : A) :
  length (upd l i v) = length l.
Proof.
  revert i; induction l as [|h t IH]; intros [|j]; simpl; auto.
Qed.

Lemma nth_error_upd_same {A : Type} (l : list A) (i : nat) (v : A) :
  (i < length l)%nat -> nth_error (upd l i v) i = Some v.
Proof.
  revert i; induction l as [|h t IH]; intros [|j] H; simpl in *;
    try lia; auto.
  apply IH; lia.
Qed.

Lemma nth_error_upd_other {A : Type} (l : list A) (i j : nat) (v : A) :
  i <> j -> nth_error (upd l i v) j = nth_error l j.
Proof.
  revert i j; induction l as [|h t IH]; intros [|i] [|j] H; simpl;
    try congruence; auto.
Qed.

Lemma nth_error_lt {A : Type} (l : list A) (i : nat) :
  (i < length l)%nat -> exists x, nth_error l i = Some x.
Proof.
  intro H. destruct (nth_error l i) eqn:E; eauto.
  apply nth_error_None in E. lia.
Qed.

Lemma Forall2_nth_error {A B : Type} (P : A -> B -> Prop) (l1 : list A)
  (l2 : list B) (i : nat) (x : A) (y : B) :
  Forall2 P l1 l2 -> nth_error l1 i = Some x -> nth_error l2 i = Some y -> P x y.
Proof.
  intros H; revert i.
  induction H as [|a b l1 l2 Hab _ IH]; intros [|i] H1 H2; simpl in *;
    try discriminate.
  - injection H1 as <-. injection H2 as <-. exact Hab.
  - eapply IH; eauto.
Qed.

(* ===================================================================== *)
(** * Exceptions and arrays of floats shared by the samplers *)
(* ===================================================================== *)

Module Py.

Import Reals.
Local Open Scope R_scope.

(** A point: one row of a two-dimensional array of floats. *)
Definition vec := list R.

(** ** Exceptions *)

Inductive exn :=
| IndexError
| ZeroDivisionError
| ValueError
| TypeError
| NotImplementedError
| LinAlgError
| AttributeError.

Inductive result (A : Type) :=
| Ok (a : A)
| Raise (e : exn).
Arguments Ok {A} a.
Arguments Raise {A} e.

Definition rbind {A B : Type} (r : result A) (f : A -> result B) : result B :=
  match r with
  | Ok a => f a
  | Raise e => Raise e
  end.

(** [a[i]] and [a[i] = v] on an array with rows [0 .. len(a) - 1]. *)
Definition get {A : Type} (a : list A) (i : nat) : result A :=
  match nth_error a i with
  | Some x => Ok x
  | None => Raise IndexError
  end.

Definition set {A : Type} (a : list A) (i : nat) (v : A) : result (list A) :=
  if (i <? length a)%nat then Ok (upd a i v) else Raise IndexError.

(** Integer true division [n / m]. *)
Definition py_div (n m : Z) : result R :=
  if (m =? 0)%Z then Raise ZeroDivisionError else Ok (IZR n / IZR m).

End Py.

(* ===================================================================== *)
(** * Strata and the RSS split ([SampleMethods.py], classes Strata, RSS) *)
(* ===================================================================== *)

Module Strata.

Import Lqa.
Local Open Scope Q_scope.

Local Notation "x <- e ;; k" := (bind e (fun x => k))
  (at level 61, e at next level, right associativity).

(** A row of an [ndarray] of floats. *)
Definition row := list Q.

(** [np.prod] and [np.sum] of a one-dimensional array. *)
Definition prodQ (l : row) : Q := fold_right Qmult 1 l.
Definition sumQ (l : row) : Q := fold_right Qplus 0 l.

Definition Q_of_nat (n : nat) : Q := inject_Z (Z.of_nat n).

(** ** [Strata.fullfact] *)

(** The body of [for i in range(n_factors)]: the column [rng] of factor [i],
    with the running [level_repeat] and [range_repeat]. *)
Fixpoint fullfact_columns (levels : list nat) (level_repeat range_repeat : nat)
  : list (list nat) :=
  match levels with
  | [] => []
  | l :: rest =>
      let range_repeat' := (range_repeat / l)%nat in
      let lvl := flat_map (fun j => repeat j level_repeat) (seq 0 l) in
      let rng := concat (repeat lvl range_repeat') in
      rng :: fullfact_columns rest (level_repeat * l)%nat range_repeat'
  end.

Definition n_comb (levels : list nat) : nat := fold_right Nat.mul 1%nat levels.

(** [ff = np.zeros((n_comb, n_factors))] with [ff[:, i] = rng]. *)
Definition fullfact (levels : list nat) : list (list nat) :=
  let cols := fullfact_columns levels 1 (n_comb levels) in
  map (fun r => map (fun col => nth r col 0%nat) cols) (seq 0 (n_comb levels)).

(** ** [Strata.__init__] *)

Record strata := mkStrata {
  origins : list row;
  widths : list row;
  weights : list Q
}.

(** [np.divide(a, n_strata)]: every row divided elementwise by [n_strata]. *)
Definition divide_rows (a : list row) (n_strata : list nat) : list row :=
  map (fun r => map (fun p => fst p / Q_of_nat (snd p)) (combine r n_strata)) a.

(** [np.ones(shape)] *)
Definition ones (rows cols : nat) : list row := repeat (repeat 1 cols) rows.

(** [sys.exit(msg)] ends the construction and an exception leaves it;
    otherwise the object is built. *)
Inductive outcome :=
| Built (s : strata)
| Fatal (msg : string)
| Raised (e : Py.exn).

Definition tol : Q := 1 # 100000.

Definition not_defined_msg : string :=
  "Error: The strata are not fully defined. Must provide [n_strata], input file, or [origins] and [widths].".
Definition not_space_filling_msg : string :=
  "Error: The stratum design is not space-filling.".
Definition over_filling_msg : string :=
  "Error: The stratum design is over-filling.".

(** What [np.loadtxt(input_file)] returns.  The values of the file are
    squeezed: a file of one number gives a zero-dimensional array, a file of
    one row or of one column (and an empty file) a one-dimensional array, and
    only a file of several rows and several columns a two-dimensional one. *)
Inductive loadtxt_array :=
| Array0 (x : Q)
| Array1 (v : row)
| Array2 (a : list row).

(** The two slices of a two-dimensional table:
    [array_tmp[:, 0:shape[1] // 2]] and [array_tmp[:, shape[1] // 2:]]. *)
Definition ncols (array_tmp : list row) : nat :=
  match array_tmp with
  | [] => 0%nat
  | r :: _ => length r
  end.
Definition table_origins (array_tmp : list row) : list row :=
  map (firstn (ncols array_tmp / 2)) array_tmp.
Definition table_widths (array_tmp : list row) : list row :=
  map (skipn (ncols array_tmp / 2)) array_tmp.

(** [space_fill = np.sum(np.prod(self.widths, 1))] *)
Definition space_fill (w : list row) : Q := sumQ (map prodQ w).

(** The constructor.  [input_file] stands for the array that
    [np.loadtxt(input_file)] returns; [array_tmp.shape[1]] raises
    [IndexError] on an array of fewer than two dimensions. *)
Definition init (n_strata : option (list nat)) (input_file : option loadtxt_array)
  (origins0 widths0 : option (list row)) : outcome :=
  match n_strata with
  | None =>
      match input_file with
      | None =>
          match widths0, origins0 with
          | Some w, Some o => Built (mkStrata o w (map prodQ w))
          | _, _ => Fatal not_defined_msg
          end
      | Some (Array2 array_tmp) =>
          let o := table_origins array_tmp in
          let w := table_widths array_tmp in
          if Qlt_le_dec tol (1 - space_fill w) then Fatal not_space_filling_msg
          else if Qlt_le_dec (1 - space_fill w) (- tol) then Fatal over_filling_msg
          else Built (mkStrata o w (map prodQ w))
      | Some _ => Raised Py.IndexError
      end
  | Some ns =>
      let o := divide_rows (map (map Q_of_nat) (fullfact ns)) ns in
      let w := divide_rows (ones (length o) (length ns)) ns in
      Built (mkStrata o w (map prodQ w))
  end.

(** ** The split of [RSS.run_rss] *)

(** The arrays that one iteration of the loop reads and rebinds. *)
Record rss_state := mkRss {
  samplesU01 : list row;
  r_origins : list row;
  r_widths : list row;
  r_weights : list Q
}.

(** "Divide the stratum bin2break in the direction dir2break". *)
Definition split (st : rss_state) (bin2break dir2break : nat) : option rss_state :=
  wrow <- nth_error (r_widths st) bin2break ;;
  w <- nth_error wrow dir2break ;;
  let wrow' := upd wrow dir2break (w / 2) in
  let widths1 := upd (r_widths st) bin2break wrow' ++ [wrow'] in
  orow <- nth_error (r_origins st) bin2break ;;
  let origins1 := r_origins st ++ [orow] in
  srow <- nth_error (samplesU01 st) bin2break ;;
  s <- nth_error srow dir2break ;;
  o <- nth_error orow dir2break ;;
  let origins2 :=
    if Qlt_le_dec s (o + w / 2)
    then upd origins1 (length (r_origins st)) (upd orow dir2break (o + w / 2))
    else upd origins1 bin2break (upd orow dir2break (o + w / 2)) in
  wt <- nth_error (r_weights st) bin2break ;;
  let weights1 := upd (r_weights st) bin2break (wt / 2) ++ [wt / 2] in
  Some (mkRss (samplesU01 st) origins2 widths1 weights1).

(** One iteration: the split, then the new sample [new] drawn by
    [np.random.uniform] is stacked under [samplesU01]. *)
Definition rss_step (st : rss_state) (bin2break dir2break : nat) (new : row)
  : option rss_state :=
  st' <- split st bin2break dir2break ;;
  Some (mkRss (samplesU01 st' ++ [new]) (r_origins st') (r_widths st') (r_weights st')).

(** A finite sequence of iterations, each with its stratum, its direction and
    its draw. *)
Fixpoint rss_run (st : rss_state) (ops : list (nat * nat * row)) : option rss_state :=
  match ops with
  | [] => Some st
  | (b, d, new) :: rest => st' <- rss_step st b d new ;; rss_run st' rest
  end.

(** The state RSS starts from: a stratification and its samples. *)
Definition rss_of_strata (s : strata) (samples : list row) : rss_state :=
  mkRss samples (origins s) (widths s) (weights s).

(** The number of strata and the dimension that every array of the state
    agrees on. *)
Definition shaped (n d : nat) (st : rss_state) : Prop :=
  length (samplesU01 st) = n /\ length (r_origins st) = n /\
  length (r_widths st) = n /\ length (r_weights st) = n /\
  Forall (fun r => length r = d) (samplesU01 st) /\
  Forall (fun r => length r = d) (r_origins st) /\
  Forall (fun r => length r = d) (r_widths st).

(** Indices in range all along a sequence of iterations that starts with [n]
    strata in dimension [d]. *)
Fixpoint valid_ops (n d : nat) (ops : list (nat * nat * row)) : Prop :=
  match ops with
  | [] => True
  | (b, dir, new) :: rest =>
      (b < n)%nat /\ (dir < d)%nat /\ length new = d /\ valid_ops (S n) d rest
  end.

(** The space-filling invariant of a stratification. *)
Definition space_filling (w : list row) (wt : list Q) : Prop :=
  space_fill w == 1 /\ Forall2 Qeq wt (map prodQ w).

(** Equality of rows up to the value of their entries. *)
Definition row_eq : row -> row -> Prop := Forall2 Qeq.

(** The split as the specification words it: the appended stratum is always
    the far half and the split stratum keeps its origin. *)
Definition split_as_specified (st : rss_state) (k axis : nat) (st' : rss_state)
  : Prop :=
  exists orow wrow o w o_new o_k w_new w_k x_new x_k,
    nth_error (r_origins st) k = Some orow /\
    nth_error (r_widths st) k = Some wrow /\
    nth_error orow axis = Some o /\
    nth_error wrow axis = Some w /\
    nth_error (r_origins st') (length (r_origins st)) = Some o_new /\
    nth_error (r_origins st') k = Some o_k /\
    nth_error (r_widths st') (length (r_widths st)) = Some w_new /\
    nth_error (r_widths st') k = Some w_k /\
    row_eq o_new (upd orow axis (o + w / 2)) /\
    row_eq o_k orow /\
    nth_error w_new axis = Some x_new /\ x_new == w / 2 /\
    nth_error w_k axis = Some x_k /\ x_k == w / 2.

(** ** Sums and products *)

Lemma sumQ_app (l1 l2 : row) : sumQ (l1 ++ l2) == sumQ l1 + sumQ l2.
Proof.
  induction l1 as [|a l1 IH]; simpl.
  - lra.
  - rewrite IH. lra.
Qed.

Lemma sumQ_map_upd {A : Type} (f : A -> Q) (l : list A) (i : nat) (x y : A) :
  nth_error l i = Some x ->
  sumQ (map f (upd l i y)) == sumQ (map f l) - f x + f y.
Proof.
  revert i; induction l as [|a l IH]; intros [|i] H; simpl in *;
    try discriminate.
  - injection H as ->. lra.
  - rewrite (IH _ H). lra.
Qed.

Lemma prodQ_upd_half (l : row) (d : nat) (w : Q) :
  nth_error l d = Some w -> prodQ (upd l d (w / 2)) == prodQ l / 2.
Proof.
  revert d; induction l as [|a l IH]; intros [|d] H; simpl in *;
    try discriminate.
  - injection H as ->. field.
  - rewrite (IH _ H). field.
Qed.

Lemma sumQ_map_repeat (r : row) (k : nat) :
  sumQ (map prodQ (repeat r k)) == Q_of_nat k * prodQ r.
Proof.
  induction k as [|k IH].
  - change (0 == 0 * prodQ r). ring.
  - change (prodQ r + sumQ (map prodQ (repeat r k)) == Q_of_nat (S k) * prodQ r).
    rewrite IH. unfold Q_of_nat. rewrite Nat2Z.inj_succ, <- Z.add_1_r.
    rewrite inject_Z_plus. change (inject_Z 1) with 1. ring.
Qed.

Lemma Q_of_nat_mul (a b : nat) : Q_of_nat (a * b) == Q_of_nat a * Q_of_nat b.
Proof.
  unfold Q_of_nat. rewrite Nat2Z.inj_mul, inject_Z_mult. reflexivity.
Qed.

Lemma Q_of_nat_pos (a : nat) : (0 < a)%nat -> 0 < Q_of_nat a.
Proof.
  intro H. unfold Q_of_nat. change 0 with (inject_Z 0).
  rewrite <- Zlt_Qlt. lia.
Qed.

(** The row of widths of the full-factorial design. *)
Definition width_row (ns : list nat) : row :=
  map (fun p => fst p / Q_of_nat (snd p)) (combine (repeat 1 (length ns)) ns).

Lemma n_comb_width_row (ns : list nat) :
  Forall (fun n => (0 < n)%nat) ns ->
  Q_of_nat (n_comb ns) * prodQ (width_row ns) == 1.
Proof.
  unfold width_row.
  induction 1 as [|a ns Ha _ IH]; simpl.
  - change (1 * 1 == 1). ring.
  - fold (n_comb ns). rewrite Q_of_nat_mul.
    apply Q_of_nat_pos in Ha.
    set (p := prodQ _) in *. set (qa := Q_of_nat a) in *.
    set (qn := Q_of_nat (n_comb ns)) in *.
    transitivity (qn * p).
    + field. lra.
    + exact IH.
Qed.

Lemma init_fullfact_widths (ns : list nat) :
  divide_rows
    (ones (length (divide_rows (map (map Q_of_nat) (fullfact ns)) ns)) (length ns))
    ns
  = repeat (width_row ns) (n_comb ns).
Proof.
  unfold divide_rows at 1, ones. rewrite map_repeat. f_equal.
  unfold divide_rows, fullfact. rewrite !length_map, length_seq. reflexivity.
Qed.

(** ** Pointwise relations under assignment *)

Lemma map_upd {A B : Type} (f : A -> B) (l : list A) (i : nat) (v : A) :
  map f (upd l i v) = upd (map f l) i (f v).
Proof.
  revert i; induction l as [|a l IH]; intros [|i]; simpl; auto.
  now rewrite IH.
Qed.

Lemma Forall2_upd {A B : Type} (P : A -> B -> Prop) (l1 : list A) (l2 : list B)
  (i : nat) (x : A) (y : B) :
  Forall2 P l1 l2 -> P x y -> Forall2 P (upd l1 i x) (upd l2 i y).
Proof.
  intros H Hxy; revert i.
  induction H as [|a b l1 l2 Hab Hl IH]; intros [|i]; simpl;
    constructor; auto.
Qed.

Lemma Forall_upd {A : Type} (P : A -> Prop) (l : list A) (i : nat) (x : A) :
  Forall P l -> P x -> Forall P (upd l i x).
Proof.
  intros H Hx; revert i.
  induction H as [|a l Ha Hl IH]; intros [|i]; simpl; constructor; auto.
Qed.

(** Unfolds the reads of an array code path that completed. *)
Ltac inv_bind H :=
  unfold bind in H;
  repeat match type of H with
         | match ?e with _ => _ end = Some _ =>
             let E := fresh "E" in destruct e eqn:E; [|discriminate H]
         end.

(** ** The split keeps the invariant *)

Lemma split_space_filling (st st' : rss_state) (b d : nat) :
  space_filling (r_widths st) (r_weights st) ->
  split st b d = Some st' ->
  space_filling (r_widths st') (r_weights st').
Proof.
  intros [Hs Hw] H. unfold split in H. inv_bind H. injection H as <-. simpl.
  match goal with
  | Hw1 : nth_error (r_widths st) b = Some ?wrow,
    Hw2 : nth_error ?wrow d = Some ?w,
    Ht : nth_error (r_weights st) b = Some ?wt |- _ =>
      pose proof (prodQ_upd_half _ _ _ Hw2) as Hp;
      pose proof (sumQ_map_upd prodQ _ _ _ (upd wrow d (w / 2)) Hw1) as Hsum;
      pose proof (Forall2_nth_error _ _ _ _ _ _ Hw Ht
                    (map_nth_error prodQ _ _ Hw1)) as Hwt
  end.
  split.
  - unfold space_fill in *. rewrite map_app, sumQ_app. simpl.
    rewrite Hsum, Hp, Hs. field.
  - rewrite map_app. apply Forall2_app.
    + rewrite map_upd. apply Forall2_upd; auto.
      rewrite Hp, Hwt. reflexivity.
    + constructor; [|constructor]. rewrite Hp, Hwt. reflexivity.
Qed.

Lemma rss_run_space_filling (ops : list (nat * nat * row)) (st st' : rss_state) :
  space_filling (r_widths st) (r_weights st) ->
  rss_run st ops = Some st' ->
  space_filling (r_widths st') (r_weights st').
Proof.
  revert st; induction ops as [|[[b d] new] ops IH]; intros st Hinv H; simpl in H.
  - injection H as <-. exact Hinv.
  - destruct (rss_step st b d new) as [st1|] eqn:E1; simpl in H;
      [|discriminate].
    unfold rss_step in E1.
    destruct (split st b d) as [st2|] eqn:E2; simpl in E1; [|discriminate].
    injection E1 as <-.
    eapply IH; [|exact H]. simpl.
    eapply split_space_filling; eauto.
Qed.

Lemma init_fullfact_space_filling (ns : list nat) (s : strata) :
  Forall (fun n => (0 < n)%nat) ns ->
  init (Some ns) None None None = Built s ->
  space_filling (widths s) (weights s).
Proof.
  intros Hpos H. simpl in H. injection H as <-. simpl.
  rewrite init_fullfact_widths. split.
  - unfold space_fill. rewrite sumQ_map_repeat. now apply n_comb_width_row.
  - clear. induction (map prodQ (repeat (width_row ns) (n_comb ns)));
      constructor; auto. reflexivity.
Qed.

(** ** The iterations complete on indices in range *)

Lemma nth_error_row (a : list row) (n d i j : nat) :
  length a = n -> Forall (fun r => length r = d) a ->
  (i < n)%nat -> (j < d)%nat ->
  exists r x, nth_error a i = Some r /\ nth_error r j = Some x /\ length r = d.
Proof.
  intros Hn Hd Hi Hj.
  destruct (nth_error_lt a i) as [r Hr]; [lia|].
  assert (Hlen : length r = d).
  { rewrite Forall_forall in Hd. apply Hd. eapply nth_error_In; eauto. }
  destruct (nth_error_lt r j) as [x Hx]; [lia|]. eauto.
Qed.

Lemma rss_step_total (st : rss_state) (n d b dir : nat) (new : row) :
  shaped n d st -> (b < n)%nat -> (dir < d)%nat -> length new = d ->
  exists st', rss_step st b dir new = Some st' /\ shaped (S n) d st'.
Proof.
  intros (Hs & Ho & Hw & Ht & Fs & Fo & Fw) Hb Hdir Hnew.
  destruct (nth_error_row _ _ _ _ _ Hw Fw Hb Hdir) as (wrow & w & Ew & Ew' & Lw).
  destruct (nth_error_row _ _ _ _ _ Ho Fo Hb Hdir) as (orow & o & Eo & Eo' & Lo).
  destruct (nth_error_row _ _ _ _ _ Hs Fs Hb Hdir) as (srow & s & Es & Es' & Ls).
  destruct (nth_error_lt (r_weights st) b) as [wt Et]; [lia|].
  unfold rss_step, split, bind. rewrite Ew, Ew', Eo, Es, Es', Eo', Et.
  eexists; split; [reflexivity|]. unfold shaped; simpl.
  assert (Lw' : length (upd wrow dir (w / 2)) = d) by now rewrite upd_length.
  assert (Lo' : length (upd orow dir (o + w / 2)) = d) by now rewrite upd_length.
  repeat split.
  - rewrite length_app; simpl; lia.
  - destruct (Qlt_le_dec s (o + w / 2));
      rewrite upd_length, length_app; simpl; lia.
  - rewrite length_app, upd_length; simpl; lia.
  - rewrite length_app, upd_length; simpl; lia.
  - apply Forall_app; split; auto.
  - destruct (Qlt_le_dec s (o + w / 2)); apply Forall_upd; auto;
      apply Forall_app; split; auto.
  - apply Forall_app; split; auto. apply Forall_upd; auto.
Qed.

Lemma rss_run_total (ops : list (nat * nat * row)) (st : rss_state) (n d : nat) :
  shaped n d st -> valid_ops n d ops ->
  exists st', rss_run st ops = Some st' /\ shaped (length ops + n) d st'.
Proof.
  revert st n; induction ops as [|[[b dir] new] ops IH]; intros st n Hsh Hv.
  - exists st; split; auto.
  - destruct Hv as (Hb & Hdir & Hnew & Hv).
    destruct (rss_step_total st n d b dir new Hsh Hb Hdir Hnew) as (st1 & E1 & Hsh1).
    destruct (IH st1 (S n) Hsh1 Hv) as (st' & E' & Hsh').
    exists st'; split.
    + simpl. unfold bind. now rewrite E1.
    + simpl length. now rewrite <- Nat.add_succ_comm in Hsh'.
Qed.

(** ** The full-factorial design is well shaped *)

Lemma fullfact_columns_length (levels : list nat) (a b : nat) :
  length (fullfact_columns levels a b) = length levels.
Proof.
  revert a b; induction levels as [|l levels IH]; intros a b; simpl; auto.
Qed.

Lemma concat_repeat_length {A : Type} (l : list A) (k : nat) :
  length (concat (repeat l k)) = (k * length l)%nat.
Proof.
  induction k as [|k IH]; simpl; auto.
  rewrite length_app, IH. lia.
Qed.

(** Every column [rng] has [n_comb] entries, as the assignment
    [ff[:, i] = rng] requires. *)
Lemma fullfact_columns_shape (levels : list nat) (level_repeat : nat) :
  Forall (fun n => (0 < n)%nat) levels ->
  Forall (fun col => length col = (level_repeat * n_comb levels)%nat)
         (fullfact_columns levels level_repeat (n_comb levels)).
Proof.
  intro Hpos. revert level_repeat.
  induction Hpos as [|l levels Hl _ IH]; intro lr; simpl; constructor.
  - fold (n_comb levels).
    rewrite (Nat.mul_comm l), Nat.div_mul by lia.
    rewrite concat_repeat_length.
    rewrite (flat_map_constant_length (c := lr))
      by (intros; apply repeat_length).
    rewrite length_seq. lia.
  - fold (n_comb levels).
    rewrite (Nat.mul_comm l), Nat.div_mul by lia.
    specialize (IH (lr * l)%nat).
    eapply Forall_impl; [|exact IH].
    intros col Hcol. simpl in Hcol. rewrite Hcol. lia.
Qed.

Lemma width_row_length (ns : list nat) : length (width_row ns) = length ns.
Proof.
  unfold width_row. rewrite length_map, length_combine, repeat_length. lia.
Qed.

Lemma init_fullfact_shaped (ns : list nat) (s : strata) (samples : list row) :
  init (Some ns) None None None = Built s ->
  length samples = n_comb ns ->
  Forall (fun r => length r = length ns) samples ->
  shaped (n_comb ns) (length ns) (rss_of_strata s samples).
Proof.
  intros H Hn Hd. simpl in H. injection H as <-.
  unfold shaped, rss_of_strata; simpl.
  rewrite init_fullfact_widths.
  repeat split; auto.
  - unfold divide_rows, fullfact. now rewrite !length_map, length_seq.
  - apply repeat_length.
  - now rewrite length_map, repeat_length.
  - unfold divide_rows, fullfact. rewrite Forall_forall. intros r Hr.
    apply in_map_iff in Hr. destruct Hr as (r0 & <- & Hr0).
    apply in_map_iff in Hr0. destruct Hr0 as (r1 & <- & Hr1).
    apply in_map_iff in Hr1. destruct Hr1 as (k & <- & _).
    rewrite length_map, length_combine, !length_map, fullfact_columns_length.
    lia.
  - rewrite Forall_forall. intros r Hr. apply repeat_spec in Hr. subst r.
    apply width_row_length.
Qed.

(** Every sequence of iterations with indices in range runs to its end on a
    full-factorial design. *)
Lemma rss_run_fullfact_total (ns : list nat) (s : strata) (samples : list row)
  (ops : list (nat * nat * row)) :
  init (Some ns) None None None = Built s ->
  length samples = n_comb ns ->
  Forall (fun r => length r = length ns) samples ->
  valid_ops (n_comb ns) (length ns) ops ->
  exists st, rss_run (rss_of_strata s samples) ops = Some st.
Proof.
  intros H Hn Hd Hv.
  destruct (rss_run_total ops _ _ _ (init_fullfact_shaped ns s samples H Hn Hd) Hv)
    as (st & E & _).
  eauto.
Qed.

(** ** Concrete designs *)

(** The 2 x 2 design of the class documentation. *)
Definition grid22 : strata :=
  Eval vm_compute in
    match init (Some [2; 2]%nat) None None None with
    | Built s => s
    | _ => mkStrata [] [] []
    end.

Example grid22_cells :
  origins grid22 = [[0 # 2; 0 # 2]; [1 # 2; 0 # 2]; [0 # 2; 1 # 2]; [1 # 2; 1 # 2]] /\
  widths grid22 = repeat [1 # 2; 1 # 2] 4 /\
  weights grid22 = repeat (1 # 4) 4.
Proof. repeat split. Qed.

Definition grid22_samples : list row :=
  [[1 # 4; 1 # 4]; [3 # 4; 1 # 4]; [1 # 4; 3 # 4]; [3 # 4; 3 # 4]].

Definition grid22_ops : list (nat * nat * row) :=
  [(0, 0, [3 # 8; 1 # 4]); (4, 1, [3 # 8; 3 # 8])]%nat.

Definition grid22_refined : rss_state :=
  Eval vm_compute in
    match rss_run (rss_of_strata grid22 grid22_samples) grid22_ops with
    | Some st => st
    | None => mkRss [] [] [] []
    end.

(** One stratum on the unit interval whose sample lies in the upper half. *)
Definition upper_state : rss_state := mkRss [[3 # 4]] [[0]] [[1]] [1].
Definition upper_split : rss_state :=
  mkRss [[3 # 4]] [[1 # 2]; [0]] [[1 # 2]; [1 # 2]] [1 # 2; 1 # 2].

(** The same stratum with its sample in the lower half. *)
Definition lower_state : rss_state := mkRss [[1 # 4]] [[0]] [[1]] [1].
Definition lower_split : rss_state :=
  mkRss [[1 # 4]] [[0]; [1 # 2]] [[1 # 2]; [1 # 2]] [1 # 2; 1 # 2].

(** Case analysis on the comparison that places the new stratum. *)
Ltac case_cut :=
  match goal with
  | |- context [Qlt_le_dec ?a ?b] => destruct (Qlt_le_dec a b)
  end.

(** ** The claims on the stratification *)

(** C2: a stratification built by the full-factorial construction from a list
    of positive per-axis stratum counts is space-filling (the products of the
    widths sum to 1 and every weight is the product of the widths of its
    stratum), and so is the design after every finite sequence of splits. *)
Theorem C2_space_filling_invariant (n_strata : list nat) (s : strata)
  (samples : list row) (ops : list (nat * nat * row)) (st : rss_state) :
  Forall (fun n => (0 < n)%nat) n_strata ->
  init (Some n_strata) None None None = Built s ->
  rss_run (rss_of_strata s samples) ops = Some st ->
  (space_fill (widths s) == 1 /\ Forall2 Qeq (weights s) (map prodQ (widths s))) /\
  (space_fill (r_widths st) == 1 /\
   Forall2 Qeq (r_weights st) (map prodQ (r_widths st))).
Proof.
  intros Hpos Hinit Hrun.
  pose proof (init_fullfact_space_filling n_strata s Hpos Hinit) as H0.
  split; [exact H0|].
  exact (rss_run_space_filling ops (rss_of_strata s samples) st H0 Hrun).
Qed.

Lemma C2_space_filling_invariant_witness :
  (space_fill (widths grid22) == 1 /\
   Forall2 Qeq (weights grid22) (map prodQ (widths grid22))) /\
  (space_fill (r_widths grid22_refined) == 1 /\
   Forall2 Qeq (r_weights grid22_refined) (map prodQ (r_widths grid22_refined))).
Proof.
  apply (C2_space_filling_invariant [2; 2]%nat grid22 grid22_samples grid22_ops
           grid22_refined).
  - repeat constructor.
  - reflexivity.
  - reflexivity.
Defined.

(** C3, as stated, fails: when the sample of the stratum lies in the upper
    half, it is the split stratum whose origin moves and the appended stratum
    that keeps the old origin. *)
Lemma C3_counterexample :
  split upper_state 0 0 = Some upper_split /\
  ~ split_as_specified upper_state 0 0 upper_split.
Proof.
  split; [reflexivity|].
  intros (orow & wrow & o & w & o_new & o_k & w_new & w_k & x_new & x_k &
          H1 & H2 & H3 & H4 & H5 & H6 & H7 & H8 & H9 & H10 & _).
  simpl in *.
  injection H1 as <-. injection H6 as <-.
  inversion H10 as [|a b l1 l2 Hab Hl]; subst.
  compute in Hab. discriminate Hab.
Qed.

(** C3, amended: a split halves the width of the stratum along the axis and
    appends a stratum with the same halved widths; of the two strata one has
    the old origin and the other the old origin moved by the new width along
    the axis, so that they tile the old box.  The appended stratum is the far
    half when the sample of the stratum is below the cut, and the near half
    otherwise (the split stratum then moves to the far half). *)
Theorem C3_split_tiles (st st' : rss_state) (k axis : nat) :
  split st k axis = Some st' ->
  exists orow wrow srow o w s,
    nth_error (r_origins st) k = Some orow /\ nth_error orow axis = Some o /\
    nth_error (r_widths st) k = Some wrow /\ nth_error wrow axis = Some w /\
    nth_error (samplesU01 st) k = Some srow /\ nth_error srow axis = Some s /\
    length (r_origins st') = S (length (r_origins st)) /\
    length (r_widths st') = S (length (r_widths st)) /\
    nth_error (r_widths st') k = Some (upd wrow axis (w / 2)) /\
    nth_error (r_widths st') (length (r_widths st)) = Some (upd wrow axis (w / 2)) /\
    nth_error (upd wrow axis (w / 2)) axis = Some (w / 2) /\
    (s < o + w / 2 ->
     nth_error (r_origins st') k = Some orow /\
     nth_error (r_origins st') (length (r_origins st))
       = Some (upd orow axis (o + w / 2))) /\
    (o + w / 2 <= s ->
     nth_error (r_origins st') k = Some (upd orow axis (o + w / 2)) /\
     nth_error (r_origins st') (length (r_origins st)) = Some orow).
Proof.
  intro H. unfold split in H. inv_bind H. injection H as <-.
  cbn [samplesU01 r_origins r_widths r_weights].
  match goal with
  | Hw1 : nth_error (r_widths st) k = Some ?wrow,
    Hw2 : nth_error ?wrow axis = Some ?w,
    Ho1 : nth_error (r_origins st) k = Some ?orow,
    Ho2 : nth_error ?orow axis = Some ?o,
    Hs1 : nth_error (samplesU01 st) k = Some ?srow,
    Hs2 : nth_error ?srow axis = Some ?s |- _ =>
      exists orow, wrow, srow, o, w, s;
      assert (Hkw : (k < length (r_widths st))%nat)
        by (apply nth_error_Some; congruence);
      assert (Hko : (k < length (r_origins st))%nat)
        by (apply nth_error_Some; congruence);
      assert (Hax : (axis < length wrow)%nat)
        by (apply nth_error_Some; congruence);
      repeat (split; [first [assumption | reflexivity]|])
  end.
  split.
  { case_cut; rewrite upd_length, length_app; simpl; lia. }
  split.
  { rewrite length_app, upd_length; simpl; lia. }
  split.
  { rewrite nth_error_app1 by (rewrite upd_length; lia).
    now apply nth_error_upd_same. }
  split.
  { rewrite nth_error_app2 by (rewrite upd_length; lia).
    now rewrite upd_length, Nat.sub_diag. }
  split.
  { now apply nth_error_upd_same. }
  split; intro Hcmp.
  - case_cut; [|exfalso; lra]. split.
    + rewrite nth_error_upd_other by lia. now rewrite nth_error_app1.
    + apply nth_error_upd_same. rewrite length_app; simpl; lia.
  - case_cut; [exfalso; lra|]. split.
    + apply nth_error_upd_same. rewrite length_app; simpl; lia.
    + rewrite nth_error_upd_other by lia.
      rewrite nth_error_app2 by lia. now rewrite Nat.sub_diag.
Qed.

Lemma C3_split_tiles_witness :
  exists orow wrow srow o w s,
    nth_error (r_origins lower_state) 0 = Some orow /\ nth_error orow 0 = Some o /\
    nth_error (r_widths lower_state) 0 = Some wrow /\ nth_error wrow 0 = Some w /\
    nth_error (samplesU01 lower_state) 0 = Some srow /\ nth_error srow 0 = Some s /\
    length (r_origins lower_split) = S (length (r_origins lower_state)) /\
    length (r_widths lower_split) = S (length (r_widths lower_state)) /\
    nth_error (r_widths lower_split) 0 = Some (upd wrow 0 (w / 2)) /\
    nth_error (r_widths lower_split) (length (r_widths lower_state))
      = Some (upd wrow 0 (w / 2)) /\
    nth_error (upd wrow 0 (w / 2)) 0 = Some (w / 2) /\
    (s < o + w / 2 ->
     nth_error (r_origins lower_split) 0 = Some orow /\
     nth_error (r_origins lower_split) (length (r_origins lower_state))
       = Some (upd orow 0 (o + w / 2))) /\
    (o + w / 2 <= s ->
     nth_error (r_origins lower_split) 0 = Some (upd orow 0 (o + w / 2)) /\
     nth_error (r_origins lower_split) (length (r_origins lower_state)) = Some orow).
Proof.
  apply (C3_split_tiles lower_state lower_split 0 0).
  reflexivity.
Defined.

(** A table that [np.loadtxt] returns as a two-dimensional array (two rows
    and two columns at least): the construction is fatal exactly when the sum
    over the rows of the product of the widths differs from 1 by more than
    1e-5, "not space-filling" when the sum is too small and "over-filling"
    when it is too large; within the tolerance the stratification is built
    and the weight of every stratum is the product of its widths. *)
Lemma table_is_checked (array_tmp : list row) (o w : option (list row)) :
  let sf := space_fill (table_widths array_tmp) in
  let built := mkStrata (table_origins array_tmp) (table_widths array_tmp)
                        (map prodQ (table_widths array_tmp)) in
  ((exists msg, init None (Some (Array2 array_tmp)) o w = Fatal msg) <->
   tol < Qabs (sf - 1)) /\
  (tol < 1 - sf ->
   init None (Some (Array2 array_tmp)) o w = Fatal not_space_filling_msg) /\
  (tol < sf - 1 ->
   init None (Some (Array2 array_tmp)) o w = Fatal over_filling_msg) /\
  (Qabs (sf - 1) <= tol ->
   init None (Some (Array2 array_tmp)) o w = Built built) /\
  weights built = map prodQ (widths built).
Proof.
  intros sf built. unfold init. fold sf. fold built.
  assert (Htol : 0 < tol) by reflexivity.
  assert (Habs : Qabs (sf - 1) <= tol <-> - tol <= sf - 1 /\ sf - 1 <= tol)
    by apply Qabs_Qle_condition.
  destruct (Qlt_le_dec tol (1 - sf)) as [Hlo|Hlo];
    [|destruct (Qlt_le_dec (1 - sf) (- tol)) as [Hhi|Hhi]].
  - repeat split.
    + intros _. apply Qnot_le_lt. intro Hc. apply Habs in Hc. lra.
    + intros _. eauto.
    + intros Hc. lra.
    + intros Hc. apply Habs in Hc. lra.
  - repeat split.
    + intros _. apply Qnot_le_lt. intro Hc. apply Habs in Hc. lra.
    + intros _. eauto.
    + intros Hc. lra.
    + intros Hc. apply Habs in Hc. lra.
  - repeat split.
    + intros [msg Hm]. discriminate Hm.
    + intros Hc. exfalso. apply (Qlt_not_le _ _ Hc). apply Habs. split; lra.
    + intros Hc. lra.
    + intros Hc. lra.
Qed.

(** The table of one stratum that fills the unit square: the row
    [0 0 1 1]. *)
Definition one_stratum_row : row := [0; 0; 1; 1].

(** C8: a persisted table of one row is not built although its widths fill
    the space.  [np.loadtxt] returns the row [0 0 1 1] (one stratum, the unit
    square, the product of its widths equal to 1) as a one-dimensional
    array, and [array_tmp.shape[1]] raises [IndexError] before the sum is
    checked; so does every file of one row, of one column or of one number.
    The same stratum is built when it is asked for by its counts,
    [n_strata = [1, 1]]. *)
Theorem C8_one_row_table_raises :
  Qabs (space_fill (table_widths [one_stratum_row]) - 1) <= tol /\
  init None (Some (Array1 one_stratum_row)) None None = Raised Py.IndexError /\
  (forall v o w, init None (Some (Array1 v)) o w = Raised Py.IndexError) /\
  (forall x o w, init None (Some (Array0 x)) o w = Raised Py.IndexError) /\
  (exists s, init (Some [1; 1]%nat) None None None = Built s /\
             length (origins s) = 1%nat /\
             Forall2 (Forall2 Qeq) (origins s) [[0; 0]] /\
             Forall2 (Forall2 Qeq) (widths s) [[1; 1]]).
Proof.
  split; [|split; [|split; [|split]]].
  - vm_compute. discriminate.
  - reflexivity.
  - intros v o w. reflexivity.
  - intros x o w. reflexivity.
  - eexists. split; [reflexivity|]. split; [reflexivity|].
    split; repeat constructor.
Qed.

(* --------------------------------------------------------------------- *)
(** ** The rows of the full-factorial design *)

(** The entries of the list [lvl]: every level [levels[i]] times in a row. *)
Lemma nth_level_block (lr l a t : nat) :
  (t < l * lr)%nat ->
  nth t (flat_map (fun j => repeat j lr) (seq a l)) 0%nat = (a + t / lr)%nat.
Proof.
  revert a t; induction l as [|l IH]; intros a t Ht; [simpl in Ht; lia|].
  assert (Hlr : lr <> 0%nat) by (intro; subst; lia).
  simpl. destruct (Nat.lt_ge_cases t lr) as [Hlt|Hge].
  - rewrite app_nth1 by now rewrite repeat_length.
    rewrite nth_repeat_lt by assumption.
    rewrite Nat.div_small by assumption. lia.
  - rewrite app_nth2 by (rewrite repeat_length; lia).
    rewrite repeat_length, IH by (simpl in Ht; lia).
    replace t with ((t - lr) + 1 * lr)%nat at 2 by lia.
    rewrite Nat.div_add by assumption. lia.
Qed.

(** The entries of [rng = lvl * range_repeat]. *)
Lemma nth_concat_repeat {A : Type} (d : A) (lvl : list A) (k r : nat) :
  (r < k * length lvl)%nat ->
  nth r (concat (repeat lvl k)) d = nth (r mod length lvl) lvl d.
Proof.
  revert r; induction k as [|k IH]; intros r Hr; [simpl in Hr; lia|].
  simpl. destruct (Nat.lt_ge_cases r (length lvl)) as [Hlt|Hge].
  - rewrite app_nth1 by assumption. now rewrite Nat.mod_small.
  - rewrite app_nth2 by lia. rewrite IH by (simpl in Hr; lia).
    f_equal.
    replace r with ((r - length lvl) + 1 * length lvl)%nat at 2 by lia.
    now rewrite Nat.Div0.mod_add.
Qed.

(** Column [i] of the design holds, in row [r], digit [i] of [r] written in
    the mixed radix [levels], least significant digit first. *)
Lemma fullfact_columns_nth (levels : list nat) (lr i r l : nat) :
  Forall (fun n => (0 < n)%nat) levels -> (0 < lr)%nat ->
  nth_error levels i = Some l -> (r < lr * n_comb levels)%nat ->
  nth r (nth i (fullfact_columns levels lr (n_comb levels)) []) 0%nat
  = ((r / (lr * n_comb (firstn i levels))) mod l)%nat.
Proof.
  intro Hpos. revert lr i.
  induction Hpos as [|l0 levels Hl0 _ IH]; intros lr i Hlr Hi Hr;
    [destruct i; discriminate|].
  simpl fullfact_columns. fold (n_comb levels).
  rewrite (Nat.mul_comm l0), Nat.div_mul by lia.
  change (n_comb (l0 :: levels)) with (l0 * n_comb levels)%nat in Hr.
  destruct i as [|i]; simpl in Hi.
  - injection Hi as <-. simpl nth. simpl firstn.
    change (n_comb []) with 1%nat. rewrite Nat.mul_1_r.
    assert (Hlen : length (flat_map (fun j => repeat j lr) (seq 0 l0))
                   = (l0 * lr)%nat).
    { rewrite (flat_map_constant_length (c := lr))
        by (intros; apply repeat_length).
      now rewrite length_seq. }
    rewrite nth_concat_repeat by (rewrite Hlen; lia).
    rewrite Hlen, nth_level_block by (apply Nat.mod_upper_bound; lia).
    rewrite (Nat.mul_comm l0 lr), Nat.Div0.mod_mul_r.
    rewrite (Nat.mul_comm lr (_ mod l0)), Nat.div_add by lia.
    rewrite Nat.div_small by (apply Nat.mod_upper_bound; lia). lia.
  - simpl nth. rewrite IH by (auto; lia).
    simpl firstn. change (n_comb (l0 :: firstn i levels))
      with (l0 * n_comb (firstn i levels))%nat.
    now rewrite Nat.mul_assoc.
Qed.

(** The digit of row [r] at factor [i]. *)
Definition digit (levels : list nat) (r i l : nat) : nat :=
  ((r / n_comb (firstn i levels)) mod l)%nat.

(** Two rows below [n_comb] differ in some digit. *)
Lemma digit_differs (levels : list nat) (r r' : nat) :
  Forall (fun n => (0 < n)%nat) levels ->
  (r < n_comb levels)%nat -> (r' < n_comb levels)%nat -> r <> r' ->
  exists i l, nth_error levels i = Some l /\ digit levels r i l <> digit levels r' i l.
Proof.
  intro Hpos. revert r r'.
  induction Hpos as [|l0 levels Hl0 _ IH]; intros r r' Hr Hr' Hne.
  - change (n_comb []) with 1%nat in *. lia.
  - change (n_comb (l0 :: levels)) with (l0 * n_comb levels)%nat in *.
    destruct (Nat.eq_dec (r mod l0) (r' mod l0)) as [Heq|Hd].
    + destruct (IH (r / l0) (r' / l0))%nat as (i & l & Hi & Hdig).
      * now apply Nat.Div0.div_lt_upper_bound.
      * now apply Nat.Div0.div_lt_upper_bound.
      * intro Hq. apply Hne.
        rewrite (Nat.div_mod_eq r l0), (Nat.div_mod_eq r' l0). congruence.
      * exists (S i), l. split; [exact Hi|].
        unfold digit in *. simpl firstn.
        change (n_comb (l0 :: firstn i levels))
          with (l0 * n_comb (firstn i levels))%nat.
        now rewrite <- !Nat.Div0.div_div.
    + exists 0%nat, l0. split; [reflexivity|].
      unfold digit. simpl firstn. change (n_comb []) with 1%nat.
      now rewrite !Nat.div_1_r.
Qed.

(** Row [r] of the design and its entries. *)
Lemma fullfact_row (levels : list nat) (r : nat) :
  (r < n_comb levels)%nat ->
  nth_error (fullfact levels) r
  = Some (map (fun col => nth r col 0%nat)
              (fullfact_columns levels 1 (n_comb levels))).
Proof.
  intro Hr. unfold fullfact.
  rewrite nth_error_map, nth_error_nth' with (d := 0%nat)
    by now rewrite length_seq.
  now rewrite seq_nth.
Qed.

Lemma fullfact_entry (levels : list nat) (r i l : nat) :
  Forall (fun n => (0 < n)%nat) levels ->
  (r < n_comb levels)%nat -> nth_error levels i = Some l ->
  nth_error (map (fun col => nth r col 0%nat)
                 (fullfact_columns levels 1 (n_comb levels))) i
  = Some (digit levels r i l).
Proof.
  intros Hpos Hr Hi.
  assert (Hil : (i < length levels)%nat) by (apply nth_error_Some; congruence).
  rewrite nth_error_map,
    nth_error_nth' with (d := @nil nat)
    by now rewrite fullfact_columns_length.
  simpl. rewrite (fullfact_columns_nth levels 1 i r l) by (auto; lia).
  unfold digit. now rewrite Nat.mul_1_l.
Qed.

Lemma n_comb_pos (levels : list nat) :
  Forall (fun n => (0 < n)%nat) levels -> (0 < n_comb levels)%nat.
Proof.
  induction 1 as [|l levels Hl _ IH]; simpl; [lia|]. fold (n_comb levels). nia.
Qed.

(** Entry [i] of every row is below [levels[i]]. *)
Lemma fullfact_row_lt (levels : list nat) (r : nat) :
  Forall (fun n => (0 < n)%nat) levels ->
  Forall2 lt (map (fun col => nth r col 0%nat)
                  (fullfact_columns levels 1 (n_comb levels))) levels.
Proof.
  intro Hpos.
  assert (Hcols : forall lr rr,
    Forall2 (fun col l => Forall (fun x => (x < l)%nat) col)
            (fullfact_columns levels lr rr) levels).
  { clear. induction levels as [|l levels IH]; intros lr rr; simpl;
      constructor; auto.
    rewrite Forall_forall. intros x Hx.
    apply in_concat in Hx. destruct Hx as (blk & Hblk & Hx).
    apply repeat_spec in Hblk. subst blk.
    apply in_flat_map in Hx. destruct Hx as (j & Hj & Hx).
    apply repeat_spec in Hx. subst x. apply in_seq in Hj. lia. }
  specialize (Hcols 1%nat (n_comb levels)).
  revert Hpos Hcols.
  generalize (fullfact_columns levels 1 (n_comb levels)).
  intros cols Hpos Hcols.
  induction Hcols as [|col l cols levels' Hcol _ IH]; simpl; constructor.
  - inversion Hpos; subst.
    destruct (nth_in_or_default r col 0%nat) as [Hin | Hdef];
      [|rewrite Hdef; assumption].
    rewrite Forall_forall in Hcol. now apply Hcol.
  - apply IH. now inversion Hpos.
Qed.

(** X1: for a non-empty list of positive level counts, [fullfact] returns
    [prod(levels)] rows, no two of them equal, and entry [i] of every row is a
    level below [levels[i]]: the design lists every combination of levels
    exactly once. *)
Theorem fullfact_enumerates (levels : list nat) :
  levels <> [] -> Forall (fun n => (0 < n)%nat) levels ->
  length (fullfact levels) = n_comb levels /\
  NoDup (fullfact levels) /\
  Forall (fun r => Forall2 lt r levels) (fullfact levels).
Proof.
  intros _ Hpos. split; [|split].
  - unfold fullfact. now rewrite length_map, length_seq.
  - unfold fullfact. apply NoDup_map_NoDup_ForallPairs; [|apply seq_NoDup].
    intros r r' Hr Hr' Heq.
    apply in_seq in Hr, Hr'.
    destruct (Nat.eq_dec r r') as [|Hne]; [assumption|exfalso].
    destruct (digit_differs levels r r' Hpos) as (i & l & Hi & Hd);
      [lia|lia|exact Hne|].
    apply Hd.
    pose proof (fullfact_entry levels r i l Hpos ltac:(lia) Hi) as E1.
    pose proof (fullfact_entry levels r' i l Hpos ltac:(lia) Hi) as E2.
    rewrite Heq in E1. congruence.
  - rewrite Forall_forall. intros row Hrow.
    apply In_nth_error in Hrow. destruct Hrow as [r Hr].
    assert (Hlt : (r < n_comb levels)%nat).
    { assert (H : (r < length (fullfact levels))%nat)
        by (apply nth_error_Some; congruence).
      unfold fullfact in H. now rewrite length_map, length_seq in H. }
    rewrite fullfact_row in Hr by assumption. injection Hr as <-.
    now apply fullfact_row_lt.
Qed.

Lemma fullfact_enumerates_witness :
  length (fullfact [2; 3]%nat) = n_comb [2; 3]%nat /\
  NoDup (fullfact [2; 3]%nat) /\
  Forall (fun r => Forall2 lt r [2; 3]%nat) (fullfact [2; 3]%nat).
Proof.
  apply (fullfact_enumerates [2; 3]%nat).
  - discriminate.
  - repeat constructor.
Defined.

(* --------------------------------------------------------------------- *)
(** ** The strata as boxes *)

(** Stratum [k]: the row of its origin and the row of its widths. *)
Definition box_at (st : rss_state) (k : nat) (o w : row) : Prop :=
  nth_error (r_origins st) k = Some o /\ nth_error (r_widths st) k = Some w.

(** A box of the unit hypercube with positive sides. *)
Definition unit_box (o w : row) : Prop :=
  Forall2 (fun a b => 0 <= a /\ 0 < b /\ a + b <= 1) o w.

(** Along some axis one box ends before the other starts. *)
Definition separated (o1 w1 o2 w2 : row) : Prop :=
  exists l a1 b1 a2 b2,
    nth_error o1 l = Some a1 /\ nth_error w1 l = Some b1 /\
    nth_error o2 l = Some a2 /\ nth_error w2 l = Some b2 /\
    (a1 + b1 <= a2 \/ a2 + b2 <= a1).

(** The strata are boxes of the unit hypercube, no two of which meet. *)
Definition boxes_disjoint (st : rss_state) : Prop :=
  length (r_origins st) = length (r_widths st) /\
  (forall k o w, box_at st k o w -> unit_box o w) /\
  (forall j k oj wj ok wk, j <> k ->
     box_at st j oj wj -> box_at st k ok wk -> separated oj wj ok wk).

(** The first box lies in the second one. *)
Definition sub_box (o' w' o w : row) : Prop :=
  forall l a b, nth_error o l = Some a -> nth_error w l = Some b ->
    exists a' b', nth_error o' l = Some a' /\ nth_error w' l = Some b' /\
                  a <= a' /\ a' + b' <= a + b.

Lemma separated_sym (o1 w1 o2 w2 : row) :
  separated o1 w1 o2 w2 -> separated o2 w2 o1 w1.
Proof.
  intros (l & a1 & b1 & a2 & b2 & H1 & H2 & H3 & H4 & H).
  exists l, a2, b2, a1, b1. intuition.
Qed.

Lemma separated_sub (o' w' o w o2 w2 : row) :
  sub_box o' w' o w -> separated o w o2 w2 -> separated o' w' o2 w2.
Proof.
  intros Hsub (l & a1 & b1 & a2 & b2 & H1 & H2 & H3 & H4 & H).
  destruct (Hsub l a1 b1 H1 H2) as (a' & b' & E1 & E2 & Ha & Hb).
  exists l, a', b', a2, b2. repeat (split; [assumption|]).
  destruct H; [left|right]; lra.
Qed.

Lemma nth_error_upd (l : row) (i j : nat) (v x : Q) :
  nth_error l i = Some x ->
  nth_error (upd l i v) j = if Nat.eq_dec j i then Some v else nth_error l j.
Proof.
  intro H. destruct (Nat.eq_dec j i) as [->|Hne].
  - apply nth_error_upd_same. apply nth_error_Some. congruence.
  - apply nth_error_upd_other. congruence.
Qed.

(** The two halves of a box cut along [dir]. *)
Lemma near_half_sub (orow wrow : row) (dir : nat) (o w : Q) :
  nth_error orow dir = Some o -> nth_error wrow dir = Some w -> 0 <= w ->
  sub_box orow (upd wrow dir (w / 2)) orow wrow.
Proof.
  intros Ho Hw Hpos l a b Ha Hb.
  assert (Hh : w / 2 + w / 2 == w) by field.
  rewrite (nth_error_upd wrow dir l (w / 2) w Hw).
  destruct (Nat.eq_dec l dir) as [->|Hne].
  - exists a, (w / 2). rewrite Hw in Hb. injection Hb as <-.
    repeat split; auto; set (h := w / 2) in *; lra.
  - exists a, b. repeat split; auto; lra.
Qed.

Lemma far_half_sub (orow wrow : row) (dir : nat) (o w : Q) :
  nth_error orow dir = Some o -> nth_error wrow dir = Some w -> 0 <= w ->
  sub_box (upd orow dir (o + w / 2)) (upd wrow dir (w / 2)) orow wrow.
Proof.
  intros Ho Hw Hpos l a b Ha Hb.
  assert (Hh : w / 2 + w / 2 == w) by field.
  rewrite (nth_error_upd wrow dir l (w / 2) w Hw).
  rewrite (nth_error_upd orow dir l (o + w / 2) o Ho).
  destruct (Nat.eq_dec l dir) as [->|Hne].
  - exists (o + w / 2), (w / 2). rewrite Hw in Hb. injection Hb as <-.
    rewrite Ho in Ha. injection Ha as <-.
    repeat split; auto; set (h := w / 2) in *; lra.
  - exists a, b. repeat split; auto; lra.
Qed.

Lemma halves_separated (orow wrow : row) (dir : nat) (o w : Q) :
  nth_error orow dir = Some o -> nth_error wrow dir = Some w ->
  separated orow (upd wrow dir (w / 2))
            (upd orow dir (o + w / 2)) (upd wrow dir (w / 2)).
Proof.
  intros Ho Hw.
  exists dir, o, (w / 2), (o + w / 2), (w / 2).
  rewrite (nth_error_upd wrow dir dir (w / 2) w Hw).
  rewrite (nth_error_upd orow dir dir (o + w / 2) o Ho).
  destruct (Nat.eq_dec dir dir) as [_|Hne]; [|congruence].
  repeat split; auto. left. lra.
Qed.

Lemma unit_box_entry (o w : row) (l : nat) (a b : Q) :
  unit_box o w -> nth_error o l = Some a -> nth_error w l = Some b ->
  0 <= a /\ 0 < b /\ a + b <= 1.
Proof.
  intros H Ha Hb.
  exact (Forall2_nth_error _ _ _ _ _ _ H Ha Hb).
Qed.

Lemma near_half_unit (orow wrow : row) (dir : nat) (o w : Q) :
  nth_error orow dir = Some o -> nth_error wrow dir = Some w ->
  unit_box orow wrow -> unit_box orow (upd wrow dir (w / 2)).
Proof.
  intros Ho Hw Hu.
  destruct (unit_box_entry _ _ _ _ _ Hu Ho Hw) as (H1 & H2 & H3).
  assert (Hh : w / 2 + w / 2 == w) by field.
  replace orow with (upd orow dir o) at 1.
  - apply Forall2_upd; auto. set (h := w / 2) in *. repeat split; lra.
  - clear - Ho. revert dir Ho.
    induction orow as [|x t IH]; intros [|d] H; simpl in *;
      try discriminate; [congruence|].
    f_equal. now apply IH.
Qed.

Lemma far_half_unit (orow wrow : row) (dir : nat) (o w : Q) :
  nth_error orow dir = Some o -> nth_error wrow dir = Some w ->
  unit_box orow wrow ->
  unit_box (upd orow dir (o + w / 2)) (upd wrow dir (w / 2)).
Proof.
  intros Ho Hw Hu.
  destruct (unit_box_entry _ _ _ _ _ Hu Ho Hw) as (H1 & H2 & H3).
  assert (Hh : w / 2 + w / 2 == w) by field.
  apply Forall2_upd; auto. set (h := w / 2) in *. repeat split; lra.
Qed.

(** What a split that completed has done to the arrays: the stratum
    [bin2break] and the appended stratum are the two halves of the old box;
    [far_is_new] tells that the sample lies below the cut, in which case the
    appended stratum is the far half. *)
Lemma split_boxes (st st' : rss_state) (b dir : nat) :
  length (r_origins st) = length (r_widths st) ->
  split st b dir = Some st' ->
  exists orow wrow srow o w s (far_is_new : bool),
    box_at st b orow wrow /\
    nth_error orow dir = Some o /\ nth_error wrow dir = Some w /\
    nth_error (samplesU01 st) b = Some srow /\ nth_error srow dir = Some s /\
    (if far_is_new then s < o + w / 2 else o + w / 2 <= s) /\
    samplesU01 st' = samplesU01 st /\
    length (r_origins st') = S (length (r_origins st)) /\
    length (r_widths st') = S (length (r_origins st)) /\
    (forall k, k <> b -> k <> length (r_origins st) ->
       nth_error (r_origins st') k = nth_error (r_origins st) k /\
       nth_error (r_widths st') k = nth_error (r_widths st) k) /\
    box_at st' b (if far_is_new then orow else upd orow dir (o + w / 2))
           (upd wrow dir (w / 2)) /\
    box_at st' (length (r_origins st))
           (if far_is_new then upd orow dir (o + w / 2) else orow)
           (upd wrow dir (w / 2)).
Proof.
  intros Hlen H. unfold split in H. inv_bind H. injection H as <-.
  cbn [samplesU01 r_origins r_widths r_weights].
  match goal with
  | Hw1 : nth_error (r_widths st) b = Some ?wrow,
    Hw2 : nth_error ?wrow dir = Some ?w,
    Ho1 : nth_error (r_origins st) b = Some ?orow,
    Ho2 : nth_error ?orow dir = Some ?o,
    Hs1 : nth_error (samplesU01 st) b = Some ?srow,
    Hs2 : nth_error ?srow dir = Some ?s |- _ =>
      assert (Hkw : (b < length (r_widths st))%nat)
        by (apply nth_error_Some; congruence);
      assert (Hko : (b < length (r_origins st))%nat)
        by (apply nth_error_Some; congruence);
      exists orow, wrow, srow, o, w, s;
      exists (if Qlt_le_dec s (o + w / 2) then true else false)
  end.
  unfold box_at. cbn [samplesU01 r_origins r_widths r_weights].
  case_cut; repeat split; auto.
  all: try (rewrite ?upd_length, ?length_app, ?upd_length; simpl; lia).
  all: try (rewrite nth_error_upd_other by lia;
            destruct (Nat.lt_ge_cases k (length (r_origins st)));
            [ now rewrite nth_error_app1 by lia
            | rewrite nth_error_app2 by lia;
              destruct (k - length (r_origins st))%nat as [|[|?]] eqn:Ek;
                [lia| |]; simpl; symmetry; apply nth_error_None; lia ]).
  all: try (destruct (Nat.lt_ge_cases k (length (r_origins st)));
            [ rewrite nth_error_app1 by (rewrite upd_length; lia);
              now apply nth_error_upd_other
            | rewrite nth_error_app2 by (rewrite upd_length; lia);
              rewrite upd_length;
              destruct (k - length (r_widths st))%nat as [|[|?]] eqn:Ek;
                [lia| |]; simpl; symmetry; apply nth_error_None; lia ]).
  all: try (rewrite nth_error_app1 by (rewrite upd_length; lia);
            now apply nth_error_upd_same).
  all: try (rewrite Hlen, nth_error_app2 by (rewrite upd_length; lia);
            now rewrite upd_length, Nat.sub_diag).
  all: try (rewrite nth_error_upd_other by lia; now rewrite nth_error_app1).
  all: try (apply nth_error_upd_same; rewrite length_app; simpl; lia).
  all: try (rewrite nth_error_upd_other by lia;
            rewrite nth_error_app2 by lia; now rewrite Nat.sub_diag).
Qed.

(** A split keeps the strata disjoint boxes of the unit hypercube. *)
Lemma split_boxes_disjoint (st st' : rss_state) (b dir : nat) :
  boxes_disjoint st -> split st b dir = Some st' -> boxes_disjoint st'.
Proof.
  intros (Hlen & Hunit & Hsep) H.
  destruct (split_boxes st st' b dir Hlen H)
    as (orow & wrow & srow & o & w & s & f & [Eo Ew] & Ho & Hw & _ & _ & _ & _ &
        Lo & Lw & Hother & [Bo Bw] & [No Nw]).
  assert (Hu : unit_box orow wrow) by (apply (Hunit b); split; assumption).
  destruct (unit_box_entry _ _ _ _ _ Hu Ho Hw) as (_ & Hwpos & _).
  assert (Hw0 : 0 <= w) by lra.
  set (n := length (r_origins st)) in *.
  set (wh := upd wrow dir (w / 2)) in *.
  set (far := upd orow dir (o + w / 2)) in *.
  assert (Hb : (b < n)%nat) by (apply nth_error_Some; congruence).
  (* the box of [st'] at an index: a half of the old box, or an old box *)
  assert (Hcase : forall k ok wk, box_at st' k ok wk ->
            (k <> b /\ k <> n /\ box_at st k ok wk) \/
            ((k = b \/ k = n) /\ wk = wh /\ (ok = orow \/ ok = far))).
  { intros k ok wk [Hk1 Hk2].
    destruct (Nat.eq_dec k b) as [->|Hkb].
    - right. split; [now left|].
      rewrite Bo in Hk1. rewrite Bw in Hk2.
      injection Hk1 as <-. injection Hk2 as <-.
      split; [reflexivity|]. destruct f; auto.
    - destruct (Nat.eq_dec k n) as [->|Hkn].
      + right. split; [now right|].
        rewrite No in Hk1. rewrite Nw in Hk2.
        injection Hk1 as <-. injection Hk2 as <-.
        split; [reflexivity|]. destruct f; auto.
      + left. destruct (Hother k Hkb Hkn) as [E1 E2].
        repeat split; auto; congruence. }
  assert (Hsubs : forall ok, ok = orow \/ ok = far -> sub_box ok wh orow wrow).
  { intros ok [->| ->].
    - eapply near_half_sub; eauto.
    - eapply far_half_sub; eauto. }
  split; [|split].
  - congruence.
  - intros k ok wk Hk.
    destruct (Hcase k ok wk Hk) as [(_ & _ & Hold)|(_ & -> & [->| ->])].
    + apply (Hunit k); assumption.
    + eapply near_half_unit; eauto.
    + eapply far_half_unit; eauto.
  - intros j k oj wj ok wk Hjk Hj Hk.
    destruct (Hcase j oj wj Hj) as [(Hjb & Hjn & Hjold)|(Hjin & -> & Hjhalf)];
      destruct (Hcase k ok wk Hk) as [(Hkb & Hkn & Hkold)|(Hkin & -> & Hkhalf)].
    + apply (Hsep j k); assumption.
    + apply separated_sym. eapply separated_sub; [apply Hsubs; exact Hkhalf|].
      apply (Hsep b j); auto. split; assumption.
    + eapply separated_sub; [apply Hsubs; exact Hjhalf|].
      apply (Hsep b k); auto. split; assumption.
    + (* the two halves *)
      destruct Hj as [Hj1 _]. destruct Hk as [Hk1 _].
      assert (Hhalves : (oj = orow /\ ok = far) \/ (oj = far /\ ok = orow)).
      { destruct Hjin as [->| ->]; destruct Hkin as [->| ->];
          try congruence.
        - rewrite Bo in Hj1. rewrite No in Hk1.
          destruct f; injection Hj1 as <-; injection Hk1 as <-; auto.
        - rewrite No in Hj1. rewrite Bo in Hk1.
          destruct f; injection Hj1 as <-; injection Hk1 as <-; auto. }
      destruct Hhalves as [[-> ->]|[-> ->]].
      * eapply halves_separated; eauto.
      * apply separated_sym. eapply halves_separated; eauto.
Qed.

Lemma rss_run_boxes_disjoint (ops : list (nat * nat * row)) (st st' : rss_state) :
  boxes_disjoint st -> rss_run st ops = Some st' -> boxes_disjoint st'.
Proof.
  revert st; induction ops as [|[[b d] new] ops IH]; intros st Hinv H; simpl in H.
  - injection H as <-. exact Hinv.
  - destruct (rss_step st b d new) as [st1|] eqn:E1; simpl in H;
      [|discriminate].
    unfold rss_step in E1.
    destruct (split st b d) as [st2|] eqn:E2; simpl in E1; [|discriminate].
    injection E1 as <-.
    eapply IH; [|exact H].
    pose proof (split_boxes_disjoint _ _ _ _ Hinv E2) as [H1 [H2 H3]].
    split; [|split]; cbn [r_origins r_widths]; auto.
Qed.

(** *** The cells of the full-factorial design *)

Lemma Q_of_nat_le (a b : nat) : (a <= b)%nat -> Q_of_nat a <= Q_of_nat b.
Proof.
  intro H. unfold Q_of_nat. rewrite <- Zle_Qle. lia.
Qed.

Lemma Q_of_nat_S (a : nat) : Q_of_nat (S a) == Q_of_nat a + 1.
Proof.
  unfold Q_of_nat. rewrite Nat2Z.inj_succ, <- Z.add_1_r, inject_Z_plus.
  reflexivity.
Qed.

(** Cell [x] of an axis cut in [n] equal parts ends where cell [y > x]
    starts, at the latest. *)
Lemma cells_apart (x y n : nat) :
  (x < y)%nat -> (0 < n)%nat ->
  Q_of_nat x / Q_of_nat n + 1 / Q_of_nat n <= Q_of_nat y / Q_of_nat n.
Proof.
  intros Hxy Hn. pose proof (Q_of_nat_pos n Hn) as Hq.
  pose proof (Q_of_nat_le (S x) y Hxy) as Hle. rewrite Q_of_nat_S in Hle.
  setoid_replace (Q_of_nat x / Q_of_nat n + 1 / Q_of_nat n)
    with ((Q_of_nat x + 1) / Q_of_nat n) by (field; lra).
  unfold Qdiv. apply Qmult_le_compat_r; [exact Hle|].
  apply Qinv_le_0_compat. lra.
Qed.

Lemma cell_in_unit (x n : nat) :
  (x < n)%nat ->
  0 <= Q_of_nat x / Q_of_nat n /\ 0 < 1 / Q_of_nat n /\
  Q_of_nat x / Q_of_nat n + 1 / Q_of_nat n <= 1.
Proof.
  intro Hx. assert (Hn : (0 < n)%nat) by lia.
  pose proof (Q_of_nat_pos n Hn) as Hq.
  pose proof (Qinv_lt_0_compat _ Hq) as Hi.
  pose proof (Q_of_nat_le 0 x ltac:(lia)) as H0. change (Q_of_nat 0) with 0 in H0.
  repeat split.
  - unfold Qdiv. apply Qmult_le_0_compat; lra.
  - unfold Qdiv. lra.
  - pose proof (cells_apart x n n Hx Hn) as H.
    setoid_replace (Q_of_nat n / Q_of_nat n) with 1 in H by (field; lra).
    exact H.
Qed.

Lemma nth_error_combine {A B : Type} (l1 : list A) (l2 : list B) (i : nat)
  (a : A) (b : B) :
  nth_error l1 i = Some a -> nth_error l2 i = Some b ->
  nth_error (combine l1 l2) i = Some (a, b).
Proof.
  revert l2 i; induction l1 as [|x l1 IH]; intros [|y l2] [|i] H1 H2;
    simpl in *; try discriminate; [congruence|]. now apply IH.
Qed.

(** The origin of stratum [r] of the full-factorial design. *)
Definition cell_origin (ns : list nat) (r : nat) : row :=
  map (fun p => fst p / Q_of_nat (snd p))
      (combine (map Q_of_nat (map (fun col => nth r col 0%nat)
                                  (fullfact_columns ns 1 (n_comb ns)))) ns).

Lemma init_fullfact_box (ns : list nat) (s : strata) (samples : list row)
  (k : nat) (o w : row) :
  init (Some ns) None None None = Built s ->
  box_at (rss_of_strata s samples) k o w ->
  (k < n_comb ns)%nat /\ o = cell_origin ns k /\ w = width_row ns.
Proof.
  intros H [Ho Hw]. simpl in H. injection H as <-.
  unfold rss_of_strata in *. cbn [r_origins r_widths origins widths] in *.
  rewrite init_fullfact_widths in Hw.
  assert (Hk : (k < n_comb ns)%nat).
  { assert (Hk : (k < length (repeat (width_row ns) (n_comb ns)))%nat)
      by (apply nth_error_Some; congruence).
    now rewrite repeat_length in Hk. }
  split; [exact Hk|]. split.
  - unfold divide_rows in Ho. rewrite !nth_error_map in Ho.
    rewrite fullfact_row in Ho by assumption. simpl in Ho.
    injection Ho as <-. reflexivity.
  - apply nth_error_In, repeat_spec in Hw. exact Hw.
Qed.

Lemma cell_unit_box (ns : list nat) (r : nat) :
  Forall (fun n => (0 < n)%nat) ns ->
  unit_box (cell_origin ns r) (width_row ns).
Proof.
  intro Hpos. pose proof (fullfact_row_lt ns r Hpos) as Hlt.
  unfold cell_origin, width_row, unit_box.
  revert Hlt. clear Hpos.
  generalize (map (fun col => nth r col 0%nat) (fullfact_columns ns 1 (n_comb ns))).
  intros digits Hlt.
  induction Hlt as [|x n row ns' Hx _ IH]; simpl; constructor.
  - apply cell_in_unit. exact Hx.
  - apply IH.
Qed.

Lemma cell_entries (ns : list nat) (r i l : nat) :
  Forall (fun n => (0 < n)%nat) ns -> (r < n_comb ns)%nat ->
  nth_error ns i = Some l ->
  nth_error (cell_origin ns r) i = Some (Q_of_nat (digit ns r i l) / Q_of_nat l) /\
  nth_error (width_row ns) i = Some (1 / Q_of_nat l).
Proof.
  intros Hpos Hr Hi. split.
  - unfold cell_origin.
    rewrite (map_nth_error _ i _ (d := (Q_of_nat (digit ns r i l), l)));
      [reflexivity|].
    apply nth_error_combine; [|exact Hi].
    apply map_nth_error. now apply fullfact_entry.
  - unfold width_row.
    rewrite (map_nth_error _ i _ (d := (1, l))); [reflexivity|].
    apply nth_error_combine; [|exact Hi].
    apply nth_error_repeat. apply nth_error_Some. congruence.
Qed.

Lemma init_fullfact_boxes_disjoint (ns : list nat) (s : strata)
  (samples : list row) :
  Forall (fun n => (0 < n)%nat) ns ->
  init (Some ns) None None None = Built s ->
  boxes_disjoint (rss_of_strata s samples).
Proof.
  intros Hpos H. split; [|split].
  - pose proof H as H'. simpl in H'. injection H' as <-.
    unfold rss_of_strata. cbn [r_origins r_widths origins widths].
    rewrite init_fullfact_widths, repeat_length.
    unfold divide_rows, fullfact. now rewrite !length_map, length_seq.
  - intros k o w Hk.
    destruct (init_fullfact_box ns s samples k o w H Hk) as (_ & -> & ->).
    now apply cell_unit_box.
  - intros j k oj wj ok wk Hjk Hj Hk.
    destruct (init_fullfact_box ns s samples j oj wj H Hj) as (Hjn & -> & ->).
    destruct (init_fullfact_box ns s samples k ok wk H Hk) as (Hkn & -> & ->).
    destruct (digit_differs ns j k Hpos Hjn Hkn Hjk) as (i & l & Hi & Hd).
    destruct (cell_entries ns j i l Hpos Hjn Hi) as [Ej Ew].
    destruct (cell_entries ns k i l Hpos Hkn Hi) as [Ek _].
    assert (Hl : (0 < l)%nat).
    { rewrite Forall_forall in Hpos. apply Hpos. eapply nth_error_In; eauto. }
    exists i, (Q_of_nat (digit ns j i l) / Q_of_nat l), (1 / Q_of_nat l),
           (Q_of_nat (digit ns k i l) / Q_of_nat l), (1 / Q_of_nat l).
    repeat (split; [assumption|]).
    destruct (Nat.lt_ge_cases (digit ns j i l) (digit ns k i l)).
    + left. now apply cells_apart.
    + right. apply cells_apart; [lia|assumption].
Qed.

(** X2: the strata of a full-factorial design with positive counts are boxes
    of the unit hypercube with positive sides, no two of which overlap (along
    some axis one ends before the other starts), and every sequence of splits
    of [RSS.run_rss] keeps them so. *)
Theorem strata_never_overlap (n_strata : list nat) (s : strata)
  (samples : list row) (ops : list (nat * nat * row)) (st : rss_state) :
  n_strata <> [] -> Forall (fun n => (0 < n)%nat) n_strata ->
  init (Some n_strata) None None None = Built s ->
  rss_run (rss_of_strata s samples) ops = Some st ->
  (forall k o w, box_at st k o w -> unit_box o w) /\
  (forall j k oj wj ok wk, j <> k ->
     box_at st j oj wj -> box_at st k ok wk -> separated oj wj ok wk).
Proof.
  intros _ Hpos Hinit Hrun.
  pose proof (init_fullfact_boxes_disjoint n_strata s samples Hpos Hinit) as H0.
  destruct (rss_run_boxes_disjoint ops _ _ H0 Hrun) as (_ & H1 & H2).
  split; assumption.
Qed.

Lemma strata_never_overlap_witness :
  (forall k o w, box_at grid22_refined k o w -> unit_box o w) /\
  (forall j k oj wj ok wk, j <> k ->
     box_at grid22_refined j oj wj -> box_at grid22_refined k ok wk ->
     separated oj wj ok wk).
Proof.
  apply (strata_never_overlap [2; 2]%nat grid22 grid22_samples grid22_ops
           grid22_refined).
  - discriminate.
  - repeat constructor.
  - reflexivity.
  - reflexivity.
Defined.

(* --------------------------------------------------------------------- *)
(** ** The Refined iteration of [RSS.run_rss] *)

(** [np.random.uniform(low, high)] from a draw [u] of [[0, 1)]. *)
Definition uniform (low high u : Q) : Q := low + (high - low) * u.

(** [np.amax] of a one-dimensional array; it raises on an empty one. *)
Definition amax (a : row) : option Q :=
  match a with
  | [] => None
  | x :: t => Some (fold_left (fun m y => if Qlt_le_dec m y then y else m) t x)
  end.

(** [np.argwhere(a == v)]: the indices of the entries equal to [v], in
    ascending order. *)
Definition argwhere_eq (a : row) (v : Q) : list nat :=
  filter (fun k => Qeq_bool (nth k a 0) v) (seq 0 (length a)).

(** [np.random.randint(high)], which raises when [high] is zero; [draw] is
    the integer that the generator returns for this bound. *)
Definition randint (draw : nat -> nat) (high : nat) : option nat :=
  if (high =? 0)%nat then None else Some (draw high).

(** The draws of one iteration: the two calls of [randint] and, for every
    coordinate, the uniform of [[0, 1)] behind [np.random.uniform]. *)
Record refined_draws := mkDraws {
  randint_bin : nat -> nat;
  randint_dir : nat -> nat;
  unit_draws : nat -> Q
}.

(** The body of [for i in range(initial_s, self.nSamples)] for
    [option == 'Refined'] (which sets [cut_type = 0]) on the unit hypercube:
    the choice of the stratum and of the direction, the split, and the new
    sample appended to [samplesU01].  The rest of the body, which maps the
    new sample to the scale of the distributions, is [transform] below. *)
Definition refined_iteration (st : rss_state) (i : nat) (dr : refined_draws)
  : option rss_state :=
  m <- amax (r_weights st) ;;
  let w := argwhere_eq (r_weights st) m in
  kb <- randint (randint_bin dr) (length w) ;;
  bin2break <- nth_error w kb ;;
  cut_dir_temp <- nth_error (r_widths st) bin2break ;;
  mw <- amax cut_dir_temp ;;
  let t := argwhere_eq cut_dir_temp mw in
  kd <- randint (randint_dir dr) (length t) ;;
  dir2break <- nth_error t kd ;;
  st1 <- split st bin2break dir2break ;;
  o <- nth_error (r_origins st1) i ;;
  wd <- nth_error (r_widths st1) i ;;
  if negb (length o =? length wd)%nat then None
  else
    let new := map (fun l => uniform (nth l o 0) (nth l o 0 + nth l wd 0)
                                     (unit_draws dr l))
                   (seq 0 (length o)) in
    Some (mkRss (samplesU01 st1 ++ [new]) (r_origins st1) (r_widths st1)
                (r_weights st1)).

Fixpoint for_each {S : Type} (body : S -> nat -> option S) (st : S)
  (idx : list nat) : option S :=
  match idx with
  | [] => Some st
  | i :: rest => st' <- body st i ;; for_each body st' rest
  end.


(** What the generator guarantees: [randint(high)] is below [high] and the
    uniforms lie in [[0, 1)]. *)
Definition draws_ok (dr : refined_draws) : Prop :=
  (forall high, (0 < high)%nat -> (randint_bin dr high < high)%nat) /\
  (forall high, (0 < high)%nat -> (randint_dir dr high < high)%nat) /\
  (forall l, 0 <= unit_draws dr l /\ unit_draws dr l < 1).

(** *** The largest entry *)

Lemma fold_max_spec (t : row) (x : Q) :
  let m := fold_left (fun m y => if Qlt_le_dec m y then y else m) t x in
  (m = x \/ In m t) /\ x <= m /\ Forall (fun y => y <= m) t.
Proof.
  revert x; induction t as [|y t IH]; intro x; cbv zeta; simpl.
  - repeat split; auto. lra.
  - destruct (Qlt_le_dec x y) as [Hlt|Hle].
    + specialize (IH y). cbv zeta in IH. destruct IH as (H1 & H2 & H3).
      split; [|split].
      * destruct H1 as [H1|H1]; [right; left; now rewrite H1|right; now right].
      * lra.
      * constructor; assumption.
    + specialize (IH x). cbv zeta in IH. destruct IH as (H1 & H2 & H3).
      split; [|split].
      * destruct H1 as [H1|H1]; [now left|right; now right].
      * assumption.
      * constructor; [lra|assumption].
Qed.

Lemma amax_spec (a : row) (m : Q) :
  amax a = Some m -> In m a /\ Forall (fun y => y <= m) a.
Proof.
  destruct a as [|x t]; [discriminate|]. simpl. intro H. injection H as <-.
  pose proof (fold_max_spec t x) as Hm. cbv zeta in Hm.
  destruct Hm as (H1 & H2 & H3). split.
  - destruct H1 as [H1|H1]; [left; now rewrite H1|now right].
  - constructor; assumption.
Qed.

Lemma amax_some (a : row) : a <> [] -> exists m, amax a = Some m.
Proof.
  destruct a; [congruence|]. intros _. simpl. eauto.
Qed.

Lemma argwhere_eq_In (a : row) (v : Q) (k : nat) :
  In k (argwhere_eq a v) <-> (k < length a)%nat /\ nth k a 0 == v.
Proof.
  unfold argwhere_eq. rewrite filter_In, in_seq, Qeq_bool_iff.
  intuition lia.
Qed.

Lemma argwhere_amax_nonempty (a : row) (m : Q) :
  amax a = Some m -> (0 < length (argwhere_eq a m))%nat.
Proof.
  intro H. destruct (amax_spec a m H) as [Hin _].
  destruct (In_nth a m 0 Hin) as (k & Hk & Hnth).
  assert (Hk' : In k (argwhere_eq a m)).
  { apply argwhere_eq_In. split; auto. rewrite Hnth. reflexivity. }
  destruct (argwhere_eq a m); [contradiction|simpl; lia].
Qed.

(** A pick among the positions of the largest entry: in range, and no entry
    is larger. *)
Lemma pick_largest (a : row) (draw : nat -> nat) :
  a <> [] -> (forall high, (0 < high)%nat -> (draw high < high)%nat) ->
  exists m kb b,
    amax a = Some m /\ randint draw (length (argwhere_eq a m)) = Some kb /\
    nth_error (argwhere_eq a m) kb = Some b /\ (b < length a)%nat.
Proof.
  intros Ha Hdraw. destruct (amax_some a Ha) as [m Hm].
  pose proof (argwhere_amax_nonempty a m Hm) as Hne.
  exists m, (draw (length (argwhere_eq a m))).
  destruct (nth_error_lt (argwhere_eq a m) (draw (length (argwhere_eq a m))))
    as [b Hb]; [now apply Hdraw|].
  exists b. repeat split; auto.
  - unfold randint. destruct (Nat.eqb_spec (length (argwhere_eq a m)) 0); [lia|].
    reflexivity.
  - apply nth_error_In, argwhere_eq_In in Hb. tauto.
Qed.


(** *** One iteration is a split of a largest stratum *)

Lemma randint_some (draw : nat -> nat) (high k : nat) :
  randint draw high = Some k -> k = draw high /\ (0 < high)%nat.
Proof.
  unfold randint. destruct (Nat.eqb_spec high 0); [discriminate|].
  intro H. injection H as <-. split; [reflexivity|lia].
Qed.


(** *** The new sample on the scale of the distributions *)

Section Transform.

(** The type of an entry of [dist_params]. *)
Context {P : Type}.

(** The attributes that the loop reads besides its arrays, as
    [RSS.__init__] copies them from the [__dict__] of the object it is
    given: [dimension], the method [icdf] of every entry of [distribution],
    and [dist_params], which is [None] when the object has no such
    attribute. *)
Record attributes := mkAttributes {
  dimension : nat;
  distribution : list (Q -> P -> Py.result Q);
  dist_params : option (list P)
}.

(** [STS.__init__] ends with [del self.dist_name, self.dist_params]: the
    attributes of an object built by STS. *)
Definition sts_attributes (dimension : nat)
  (distribution : list (Q -> P -> Py.result Q)) : attributes :=
  mkAttributes dimension distribution None.

(** The body of [for j in range(0, self.dimension)]:
    [icdf = self.distribution[j].icdf] and
    [new[j] = icdf(new[j], self.dist_params[j])]. *)
Definition transform_entry (x : attributes) (new : row) (j : nat)
  : Py.result row :=
  Py.rbind (Py.get (distribution x) j) (fun icdf =>
  Py.rbind (Py.get new j) (fun v =>
  Py.rbind (match dist_params x with
            | Some params => Py.Ok params
            | None => Py.Raise Py.AttributeError
            end) (fun params =>
  Py.rbind (Py.get params j) (fun pj =>
  Py.rbind (icdf v pj) (fun y =>
  Py.Ok (upd new j y)))))).

Fixpoint transform (x : attributes) (new : row) (js : list nat)
  : Py.result row :=
  match js with
  | [] => Py.Ok new
  | j :: rest =>
      Py.rbind (transform_entry x new j) (fun new' => transform x new' rest)
  end.

Definition returned {A : Type} (r : Py.result A) : option A :=
  match r with
  | Py.Ok a => Some a
  | Py.Raise _ => None
  end.

(** The whole body of the loop, on [samples] and on the arrays of the unit
    hypercube: [new] is the row that [refined_iteration] has appended to
    [samplesU01], and [np.vstack([samples, new])] needs rows of one
    length. *)
Definition refined_body (x : attributes) (st : list row * rss_state) (i : nat)
  (dr : refined_draws) : option (list row * rss_state) :=
  st1 <- refined_iteration (snd st) i dr ;;
  new <- nth_error (samplesU01 st1) (length (samplesU01 (snd st))) ;;
  new_x <- returned (transform x new (seq 0 (dimension x))) ;;
  if forallb (fun r => (length r =? length new_x)%nat) (fst st)
  then Some (fst st ++ [new_x], st1)
  else None.

(** The loop, with the draws of iteration [i] in [tape i]. *)
Definition run_rss_refined (x : attributes) (samples : list row)
  (st : rss_state) (nSamples : nat) (tape : nat -> refined_draws)
  : option (list row * rss_state) :=
  let initial_s := length (samplesU01 st) in
  for_each (fun s i => refined_body x s i (tape i)) (samples, st)
           (seq initial_s (nSamples - initial_s)).

End Transform.

(** The unit-hypercube part of an iteration completes on [n > 0] strata of
    dimension [d > 0]. *)
Lemma refined_iteration_total (st : rss_state) (n d : nat) (dr : refined_draws) :
  (0 < n)%nat -> (0 < d)%nat -> draws_ok dr -> shaped n d st ->
  exists st' new,
    refined_iteration st n dr = Some st' /\
    nth_error (samplesU01 st') n = Some new /\ length new = d.
Proof.
  intros Hn Hd (Hbin & Hdir & Hunit) Hsh.
  pose proof Hsh as (Ls & Lo & Lw & Lt & Fs & Fo & Fw).
  destruct (pick_largest (r_weights st) (randint_bin dr))
    as (m & kb & b & Em & Ekb & Eb & Hb); [|exact Hbin|].
  { intro E. rewrite E in Lt. simpl in Lt. lia. }
  rewrite Lt in Hb.
  destruct (nth_error_lt (r_widths st) b) as [wrow Ewrow]; [lia|].
  assert (Lwrow : length wrow = d).
  { rewrite Forall_forall in Fw. apply Fw. eapply nth_error_In; eauto. }
  destruct (pick_largest wrow (randint_dir dr))
    as (mw & kd & dir & Emw & Ekd & Edir & Hdirlt); [|exact Hdir|].
  { intro E. rewrite E in Lwrow. simpl in Lwrow. lia. }
  rewrite Lwrow in Hdirlt.
  destruct (rss_step_total st n d b dir (repeat 0 d) Hsh Hb Hdirlt
              (repeat_length _ _)) as (st0 & Estep & Hsh0).
  unfold rss_step in Estep.
  destruct (split st b dir) as [st1|] eqn:Esplit; simpl in Estep;
    [|discriminate].
  injection Estep as <-.
  destruct Hsh0 as (Ls1 & Lo1 & Lw1 & Lt1 & Fs1 & Fo1 & Fw1).
  cbn [samplesU01 r_origins r_widths r_weights] in *.
  destruct (nth_error_lt (r_origins st1) n) as [o Eo]; [lia|].
  destruct (nth_error_lt (r_widths st1) n) as [wd Ewd]; [lia|].
  assert (Lo' : length o = d).
  { rewrite Forall_forall in Fo1. apply Fo1. eapply nth_error_In; eauto. }
  assert (Lwd' : length wd = d).
  { rewrite Forall_forall in Fw1. apply Fw1. eapply nth_error_In; eauto. }
  assert (Ln : length (samplesU01 st1) = n)
    by (rewrite length_app in Ls1; simpl in Ls1; lia).
  eexists. eexists. split; [|split].
  - unfold refined_iteration, bind.
    rewrite Em, Ekb, Eb, Ewrow, Emw, Ekd, Edir, Esplit, Eo, Ewd.
    assert (Hlen : (length o =? length wd)%nat = true)
      by (rewrite Lo', Lwd'; apply Nat.eqb_refl).
    rewrite Hlen. reflexivity.
  - cbn [samplesU01]. rewrite nth_error_app2 by lia.
    rewrite Ln, Nat.sub_diag. reflexivity.
  - now rewrite length_map, length_seq.
Qed.

(** X4: RSS with [option == 'Refined'] cannot add a sample to a design built
    by STS.  On [n > 0] strata of dimension [d > 0], with the attributes of
    an object that has no [dist_params] (as [STS.__init__] leaves it), one
    distribution per axis and [nSamples > n], the first iteration chooses
    and splits a stratum and draws the new sample, and then raises
    [AttributeError] where it reads [self.dist_params]: the run returns
    nothing. *)
Theorem refined_run_on_sts_design_raises {P : Type} (x : @attributes P)
  (samples : list row) (st : rss_state) (n d nSamples : nat)
  (tape : nat -> refined_draws) :
  (0 < n)%nat -> (0 < d)%nat -> shaped n d st ->
  (forall i, draws_ok (tape i)) ->
  dist_params x = None ->
  (0 < dimension x)%nat -> length (distribution x) = dimension x ->
  (n < nSamples)%nat ->
  exists st1 new,
    refined_iteration st n (tape n) = Some st1 /\
    nth_error (samplesU01 st1) n = Some new /\
    transform x new (seq 0 (dimension x)) = Py.Raise Py.AttributeError /\
    run_rss_refined x samples st nSamples tape = None.
Proof.
  intros Hn Hd Hsh Htape Hparams Hdim Hdist HN.
  destruct (refined_iteration_total st n d (tape n) Hn Hd (Htape n) Hsh)
    as (st1 & new & E1 & Enew & Lnew).
  assert (Et : transform x new (seq 0 (dimension x)) = Py.Raise Py.AttributeError).
  { destruct (dimension x) as [|k] eqn:Ek; [lia|].
    change (seq 0 (S k)) with (0%nat :: seq 1 k). cbn [transform].
    unfold transform_entry.
    destruct (nth_error_lt (distribution x) 0) as [icdf Ei]; [lia|].
    destruct (nth_error_lt new 0) as [v Ev]; [lia|].
    unfold Py.get. rewrite Ei, Ev, Hparams. reflexivity. }
  exists st1, new. repeat split; auto.
  unfold run_rss_refined. destruct Hsh as (Ls & _). rewrite Ls.
  replace (nSamples - n)%nat with (S (nSamples - n - 1)) by lia.
  change (seq n (S (nSamples - n - 1)))
    with (n :: seq (S n) (nSamples - n - 1)).
  cbn [for_each]. unfold bind at 1. unfold refined_body.
  cbn [fst snd]. unfold bind. rewrite E1, Ls, Enew, Et. reflexivity.
Qed.

Definition refined_start : rss_state := rss_of_strata grid22 grid22_samples.

Definition steady_draws : refined_draws :=
  mkDraws (fun _ => 0%nat) (fun _ => 0%nat) (fun _ => 1 # 2).



(** The attributes of an STS object on two axes, each [icdf] the
    identity. *)
Definition sts_two_axes : @attributes unit :=
  sts_attributes 2 [fun v _ => Py.Ok v; fun v _ => Py.Ok v].

Lemma refined_run_on_sts_design_raises_witness :
  exists st1 new,
    refined_iteration refined_start 4 steady_draws = Some st1 /\
    nth_error (samplesU01 st1) 4 = Some new /\
    transform sts_two_axes new (seq 0 (dimension sts_two_axes))
    = Py.Raise Py.AttributeError /\
    run_rss_refined sts_two_axes grid22_samples refined_start 6
                    (fun _ => steady_draws) = None.
Proof.
  apply (refined_run_on_sts_design_raises sts_two_axes grid22_samples
           refined_start 4 2 6 (fun _ => steady_draws)).
  - lia.
  - lia.
  - unfold shaped. simpl. repeat split; repeat constructor.
  - intros _. repeat split; simpl; try lia; discriminate || reflexivity.
  - reflexivity.
  - simpl. lia.
  - reflexivity.
  - lia.
Defined.

(* --------------------------------------------------------------------- *)
(** ** Stratified sampling ([STS.run_sts]) *)

(** [sts_criterion], one of the two values that [init_sts] accepts. *)
Inductive criterion := Random | Centered.

(** [a[i, j]] and [a[i, j] = v] on a two-dimensional array. *)
Definition get2 (a : list row) (i j : nat) : option Q :=
  r <- nth_error a i ;; nth_error r j.

Definition set2 (a : list row) (i j : nat) (v : Q) : option (list row) :=
  r <- nth_error a i ;; _ <- nth_error r j ;; Some (upd a i (upd r j v)).

(** An array of [n] rows of [d] entries. *)
Definition rect (n d : nat) (a : list row) : Prop :=
  length a = n /\ Forall (fun r => length r = d) a.

Lemma for_each_app {S : Type} (body : S -> nat -> option S) (st : S)
  (l1 l2 : list nat) :
  for_each body st (l1 ++ l2)
  = bind (for_each body st l1) (fun st' => for_each body st' l2).
Proof.
  revert st; induction l1 as [|i l1 IH]; intro st; simpl; [reflexivity|].
  destruct (body st i); simpl; auto.
Qed.

Lemma get2_some (a : list row) (n d i j : nat) :
  rect n d a -> (i < n)%nat -> (j < d)%nat -> exists x, get2 a i j = Some x.
Proof.
  intros [Hn Hd] Hi Hj.
  destruct (nth_error_row a n d i j Hn Hd Hi Hj) as (r & x & Er & Ex & _).
  exists x. unfold get2, bind. now rewrite Er.
Qed.

Lemma set2_spec (a : list row) (n d i j : nat) (v : Q) :
  rect n d a -> (i < n)%nat -> (j < d)%nat ->
  exists a', set2 a i j v = Some a' /\ rect n d a' /\
    get2 a' i j = Some v /\
    (forall i' j', (i' <> i \/ j' <> j) -> get2 a' i' j' = get2 a i' j').
Proof.
  intros [Hn Hd] Hi Hj.
  destruct (nth_error_row a n d i j Hn Hd Hi Hj) as (r & x & Er & Ex & Lr).
  exists (upd a i (upd r j v)). unfold set2, bind. rewrite Er, Ex.
  split; [reflexivity|]. split; [|split].
  - split; [now rewrite upd_length|].
    apply Forall_upd; auto. now rewrite upd_length.
  - unfold get2, bind. rewrite nth_error_upd_same by lia.
    apply nth_error_upd_same. lia.
  - intros i' j' Hne. unfold get2, bind.
    destruct (Nat.eq_dec i' i) as [->|Hi'].
    + rewrite nth_error_upd_same by lia. rewrite Er.
      apply nth_error_upd_other. destruct Hne; congruence.
    + rewrite nth_error_upd_other by congruence. reflexivity.
Qed.

(** The loop on [i] fills column [j] and leaves the other columns. *)
Lemma fill_column (f : nat -> option Q) (g : nat -> Q) (n d j : nat) (a : list row) :
  rect n d a -> (j < d)%nat -> (forall i, (i < n)%nat -> f i = Some (g i)) ->
  forall k, (k <= n)%nat ->
  exists a', for_each (fun a i => v <- f i ;; set2 a i j v) a (seq 0 k) = Some a' /\
    rect n d a' /\
    (forall i, (i < k)%nat -> get2 a' i j = Some (g i)) /\
    (forall i' j', j' <> j -> get2 a' i' j' = get2 a i' j').
Proof.
  intros Ha Hj Hf. induction k as [|k IH]; intro Hk.
  - exists a. repeat split; try apply Ha; auto. intros; lia.
  - destruct (IH ltac:(lia)) as (a1 & E1 & R1 & G1 & O1).
    destruct (set2_spec a1 n d k j (g k) R1 ltac:(lia) Hj)
      as (a2 & E2 & R2 & G2 & O2).
    exists a2. rewrite seq_S, for_each_app, E1. simpl.
    rewrite (Hf k) by lia. unfold bind at 2. simpl. rewrite E2.
    split; [reflexivity|]. split; [exact R2|]. split.
    + intros i Hi. destruct (Nat.eq_dec i k) as [->|Hne]; [exact G2|].
      rewrite O2 by (left; exact Hne). apply G1. lia.
    + intros i' j' Hj'. rewrite O2 by (right; exact Hj'). now apply O1.
Qed.

Section Stratified.

(** The type of an entry of [dist_params]. *)
Context {P : Type}.

(** The cast of a float to [np.float32], which every assignment into the
    two arrays of [run_sts] performs. *)
Variable f32 : Q -> Q.

(** The value stored in [samples[i, j]]; [u i j] is the uniform of [[0, 1)]
    behind [np.random.uniform]. *)
Definition sts_entry (crit : criterion) (s : strata) (u : nat -> nat -> Q)
  (i j : nat) : option Q :=
  o <- get2 (origins s) i j ;;
  w <- get2 (widths s) i j ;;
  Some (f32 (match crit with
             | Random => uniform o (o + w) (u i j)
             | Centered => o + w / 2
             end)).

(** [np.empty([n, d], dtype=np.float32)]: an array of arbitrary content. *)
Definition empty (n d : nat) (content : nat -> nat -> Q) : list row :=
  map (fun i => map (content i) (seq 0 d)) (seq 0 n).

(** [a[:, j]] *)
Fixpoint column (a : list row) (j : nat) : option (list Q) :=
  match a with
  | [] => Some []
  | r :: rest => x <- nth_error r j ;; c <- column rest j ;; Some (x :: c)
  end.

(** [a[:, j] = y] for a one-dimensional [y]: one entry per row, or one
    entry that is copied to every row. *)
Definition assign_column (a : list row) (j : nat) (y : list Q)
  : option (list row) :=
  if (length y =? length a)%nat
  then Some (map (fun p => upd (fst p) j (snd p)) (combine a y))
  else
    match y with
    | [v] => Some (map (fun r => upd r j v) a)
    | _ => None
    end.

(** [run_sts]: the samples on the unit hypercube and on the scale of the
    distributions.  [distribution] holds the method [icdf] of every entry of
    [self.distribution]; [content] and [content_x] are what [np.empty]
    leaves in the two arrays. *)
Definition run_sts (crit : criterion) (s : strata) (u : nat -> nat -> Q)
  (distribution : list (list Q -> P -> Py.result (list Q)))
  (dist_params : list P) (content content_x : nat -> nat -> Q)
  : option (list row * list row) :=
  let n := length (origins s) in
  let d := ncols (origins s) in
  for_each
    (fun arrays j =>
       i_cdf <- nth_error distribution j ;;
       samples <- for_each (fun samples i =>
                              v <- sts_entry crit s u i j ;; set2 samples i j v)
                           (fst arrays) (seq 0 n) ;;
       c <- column samples j ;;
       params <- nth_error dist_params j ;;
       y <- returned (i_cdf c params) ;;
       samples_u_to_x <- assign_column (snd arrays) j (map f32 y) ;;
       Some (samples, samples_u_to_x))
    (empty n d content, empty n d content_x) (seq 0 d).

End Stratified.

(** *** Shapes kept by the column operations *)

Lemma empty_rect (n d : nat) (content : nat -> nat -> Q) :
  rect n d (empty n d content).
Proof.
  unfold empty. split; [now rewrite length_map, length_seq|].
  apply Forall_forall. intros r Hr. apply in_map_iff in Hr.
  destruct Hr as (i & <- & _). now rewrite length_map, length_seq.
Qed.

Lemma column_some (a : list row) (n d j : nat) :
  rect n d a -> (j < d)%nat -> exists c, column a j = Some c /\ length c = n.
Proof.
  revert n; induction a as [|r a IH]; intros n [Hn Hd] Hj; simpl in *.
  - exists []. split; [reflexivity|exact Hn].
  - inversion Hd as [|? ? Hr Ha]; subst.
    destruct (nth_error_lt r j) as [x Hx]; [lia|].
    destruct (IH (length a) (conj eq_refl Ha) Hj) as (c & Ec & Lc).
    exists (x :: c). unfold bind. rewrite Hx, Ec. simpl. split; [reflexivity|lia].
Qed.

Lemma assign_column_rect (a : list row) (n d j : nat) (y : list Q) :
  rect n d a -> length y = n ->
  exists a', assign_column a j y = Some a' /\ rect n d a'.
Proof.
  intros [Hn Hd] Hy. unfold assign_column. rewrite Hy, Hn, Nat.eqb_refl.
  eexists. split; [reflexivity|]. split.
  - rewrite length_map, length_combine. lia.
  - apply Forall_forall. intros r Hr. apply in_map_iff in Hr.
    destruct Hr as ([r0 v] & <- & Hin). apply in_combine_l in Hin.
    rewrite upd_length. rewrite Forall_forall in Hd. now apply Hd.
Qed.

Section Columns.

Context {P : Type}.
Variable f32 : Q -> Q.
Variables (crit : criterion) (s : strata) (u : nat -> nat -> Q).
Variable distribution : list (list Q -> P -> Py.result (list Q)).
Variable dist_params : list P.
Variables (n d : nat).

Hypothesis Hdist : length distribution = d.
Hypothesis Hparams : length dist_params = d.
Hypothesis Hicdf :
  forall j icdf c p, nth_error distribution j = Some icdf -> length c = n ->
    exists y, icdf c p = Py.Ok y /\ length y = n.

(** The loop on [j] fills the columns of [samples] one after the other. *)
Lemma sts_columns (g : nat -> nat -> Q) :
  (forall i j, (i < n)%nat -> (j < d)%nat ->
     sts_entry f32 crit s u i j = Some (g i j)) ->
  forall k, (k <= d)%nat ->
  forall a ax, rect n d a -> rect n d ax ->
  exists a' ax',
    for_each
      (fun arrays j =>
         i_cdf <- nth_error distribution j ;;
         samples <- for_each (fun samples i =>
                                v <- sts_entry f32 crit s u i j ;;
                                set2 samples i j v)
                             (fst arrays) (seq 0 n) ;;
         c <- column samples j ;;
         params <- nth_error dist_params j ;;
         y <- returned (i_cdf c params) ;;
         samples_u_to_x <- assign_column (snd arrays) j (map f32 y) ;;
         Some (samples, samples_u_to_x))
      (a, ax) (seq 0 k) = Some (a', ax') /\
    rect n d a' /\ rect n d ax' /\
    (forall i j, (i < n)%nat -> (j < k)%nat -> get2 a' i j = Some (g i j)).
Proof.
  intros Hentry. induction k as [|k IH]; intros Hk a ax Ra Rax.
  - exists a, ax. repeat split; try apply Ra; try apply Rax. intros; lia.
  - destruct (IH ltac:(lia) a ax Ra Rax) as (a1 & ax1 & E1 & R1 & Rx1 & G1).
    destruct (fill_column (fun i => sts_entry f32 crit s u i k)
                (fun i => g i k) n d k a1 R1
                ltac:(lia) (fun i Hi => Hentry i k Hi ltac:(lia)) n (le_n n))
      as (a2 & E2 & R2 & G2 & O2).
    destruct (nth_error_lt distribution k) as [icdf Ei]; [lia|].
    destruct (nth_error_lt dist_params k) as [p Ep]; [lia|].
    destruct (column_some a2 n d k R2 ltac:(lia)) as (c & Ec & Lc).
    destruct (Hicdf k icdf c p Ei Lc) as (y & Ey & Ly).
    destruct (assign_column_rect ax1 n d k (map f32 y) Rx1
                ltac:(now rewrite length_map)) as (ax2 & Ex2 & Rx2).
    exists a2, ax2. rewrite seq_S, for_each_app, E1. simpl.
    unfold bind in E2 |- *. cbv beta in E2.
    rewrite Ei. cbv beta iota. cbn [fst snd].
    rewrite E2. cbv beta iota. rewrite Ec. cbv beta iota.
    rewrite Ep. cbv beta iota. rewrite Ey. cbn [returned]. cbv beta iota.
    rewrite Ex2. cbv beta iota.
    split; [reflexivity|]. split; [exact R2|]. split; [exact Rx2|].
    intros i j Hi Hj. destruct (Nat.eq_dec j k) as [->|Hne].
    + now apply G2.
    + rewrite O2 by exact Hne. apply G1; lia.
Qed.

End Columns.

(** X5: on [n > 0] strata in dimension [d] with positive widths, with one
    distribution and one entry of [dist_params] per axis and every call of
    [icdf] returning one value per sample, [run_sts] completes for both
    criteria and returns two arrays of [n] rows and [d] columns; the sample
    [i] on the unit hypercube lies in stratum [i] along every axis up to
    the rounding of the bounds to [np.float32]:
    [f32(origins[i, j]) <= samples[i, j] <= f32(origins[i, j] + widths[i, j])],
    where the cast [f32] is monotone. *)
Theorem sts_samples_lie_in_their_strata {P : Type} (f32 : Q -> Q)
  (crit : criterion) (s : strata) (u : nat -> nat -> Q)
  (distribution : list (list Q -> P -> Py.result (list Q)))
  (dist_params : list P) (content content_x : nat -> nat -> Q) (n d : nat) :
  (0 < n)%nat -> rect n d (origins s) -> rect n d (widths s) ->
  Forall (Forall (fun b => 0 < b)) (widths s) ->
  (forall i j, 0 <= u i j /\ u i j < 1) ->
  (forall a b, a <= b -> f32 a <= f32 b) ->
  length distribution = d -> length dist_params = d ->
  (forall j icdf c p, nth_error distribution j = Some icdf -> length c = n ->
     exists y, icdf c p = Py.Ok y /\ length y = n) ->
  exists samples samples_u_to_x,
    run_sts f32 crit s u distribution dist_params content content_x
    = Some (samples, samples_u_to_x) /\
    rect n d samples /\ rect n d samples_u_to_x /\
    forall i j, (i < n)%nat -> (j < d)%nat ->
      exists o w x,
        get2 (origins s) i j = Some o /\ get2 (widths s) i j = Some w /\
        get2 samples i j = Some x /\ f32 o <= x /\ x <= f32 (o + w).
Proof.
  intros Hn Ho Hw Hpos Hu Hmono Hdist Hparams Hicdf.
  set (oo := fun i j => nth j (nth i (origins s) []) 0).
  set (ww := fun i j => nth j (nth i (widths s) []) 0).
  set (g := fun i j => f32 (match crit with
                            | Random => uniform (oo i j) (oo i j + ww i j) (u i j)
                            | Centered => oo i j + ww i j / 2
                            end)).
  assert (Hcell : forall i j, (i < n)%nat -> (j < d)%nat ->
            get2 (origins s) i j = Some (oo i j) /\
            get2 (widths s) i j = Some (ww i j) /\ 0 < ww i j).
  { intros i j Hi Hj.
    destruct Ho as [Lo Fo]. destruct Hw as [Lw Fw].
    destruct (nth_error_row _ n d i j Lo Fo Hi Hj) as (ro & o & Ero & Eo & _).
    destruct (nth_error_row _ n d i j Lw Fw Hi Hj) as (rw & w & Erw & Ew & _).
    unfold get2, bind, oo, ww. rewrite Ero, Eo, Erw, Ew.
    rewrite (nth_error_nth (A := row) _ i [] Ero),
      (nth_error_nth (A := row) _ i [] Erw).
    rewrite (nth_error_nth _ j 0 Eo), (nth_error_nth _ j 0 Ew).
    repeat split.
    rewrite Forall_forall in Hpos.
    specialize (Hpos rw ltac:(eapply nth_error_In; eauto)).
    rewrite Forall_forall in Hpos. apply Hpos. eapply nth_error_In; eauto. }
  assert (Hentry : forall i j, (i < n)%nat -> (j < d)%nat ->
            sts_entry f32 crit s u i j = Some (g i j)).
  { intros i j Hi Hj. destruct (Hcell i j Hi Hj) as (Eo & Ew & _).
    unfold sts_entry, bind. rewrite Eo, Ew. reflexivity. }
  assert (Hcols : ncols (origins s) = d).
  { destruct Ho as [Lo Fo]. unfold ncols.
    destruct (origins s) as [|r0 t]; [simpl in Lo; lia|].
    now inversion Fo. }
  destruct (sts_columns f32 crit s u distribution dist_params n d Hdist Hparams
              Hicdf g Hentry d (le_n d) _ _ (empty_rect n d content)
              (empty_rect n d content_x))
    as (samples & xs & E & R & Rx & G).
  exists samples, xs. split; [|split; [exact R|split; [exact Rx|]]].
  - unfold run_sts. destruct Ho as [Lo _]. rewrite Lo, Hcols. exact E.
  - intros i j Hi Hj. destruct (Hcell i j Hi Hj) as (Eo & Ew & Hw0).
    exists (oo i j), (ww i j), (g i j).
    split; [exact Eo|]. split; [exact Ew|]. split; [now apply G|].
    unfold g. set (a := oo i j) in *. set (b := ww i j) in *.
    destruct crit.
    + destruct (Hu i j) as [H0 H1]. unfold uniform.
      assert (Hp : 0 <= b * u i j) by (apply Qmult_le_0_compat; lra).
      assert (Hq : 0 < b * (1 - u i j)) by (apply Qmult_lt_0_compat; lra).
      assert (Hv : a + (a + b - a) * u i j == a + b * u i j) by ring.
      assert (Hq' : b * (1 - u i j) == b - b * u i j) by ring.
      split; apply Hmono; lra.
    + assert (Hh : b / 2 + b / 2 == b) by field.
      set (h := b / 2) in *. split; apply Hmono; lra.
Qed.

(** A monotone rounding: to the nearest multiple of [2 ** -24], the
    spacing of [np.float32] below 1. *)
Definition round24 (x : Q) : Q :=
  inject_Z (Qfloor (x * inject_Z (2 ^ 24) + (1 # 2))) / inject_Z (2 ^ 24).

Lemma round24_monotone (a b : Q) : a <= b -> round24 a <= round24 b.
Proof.
  intro H. unfold round24.
  assert (H24 : 0 < inject_Z (2 ^ 24)) by reflexivity.
  apply Qmult_le_compat_r; [|apply Qlt_le_weak, Qinv_lt_0_compat; exact H24].
  rewrite <- Zle_Qle. apply Qfloor_resp_le.
  apply Qplus_le_l. apply Qmult_le_compat_r; [exact H|now apply Qlt_le_weak].
Qed.

Lemma sts_samples_lie_in_their_strata_witness :
  exists samples samples_u_to_x,
    run_sts round24 Random grid22 (fun _ _ => 1 # 3)
            [fun c (_ : unit) => Py.Ok c; fun c _ => Py.Ok c] [tt; tt]
            (fun _ _ => 7) (fun _ _ => 7)
    = Some (samples, samples_u_to_x) /\
    rect 4 2 samples /\ rect 4 2 samples_u_to_x /\
    forall i j, (i < 4)%nat -> (j < 2)%nat ->
      exists o w x,
        get2 (origins grid22) i j = Some o /\ get2 (widths grid22) i j = Some w /\
        get2 samples i j = Some x /\ round24 o <= x /\ x <= round24 (o + w).
Proof.
  apply (sts_samples_lie_in_their_strata round24 Random grid22
           (fun _ _ => 1 # 3) [fun c (_ : unit) => Py.Ok c; fun c _ => Py.Ok c]
           [tt; tt] (fun _ _ => 7) (fun _ _ => 7) 4 2).
  - lia.
  - split; [reflexivity|repeat constructor].
  - split; [reflexivity|repeat constructor].
  - simpl. repeat (constructor; try reflexivity).
  - intros _ _. split; [discriminate|reflexivity].
  - exact round24_monotone.
  - reflexivity.
  - reflexivity.
  - intros j icdf c p Hj Hc.
    destruct j as [|[|j]]; simpl in Hj.
    + injection Hj as <-. eauto.
    + injection Hj as <-. eauto.
    + destruct j; discriminate.
Defined.

End Strata.

(* ===================================================================== *)
(** * Latin hypercube sampling ([SampleMethods.py], class LHS) *)
(* ===================================================================== *)

Module LHS.

Import Lqa Strata.
Local Open Scope Q_scope.

Local Notation "x <- e ;; k" := (bind e (fun x => k))
  (at level 61, e at next level, right associativity).

(** [np.linspace(0, 1, nsamples + 1)] *)
Definition cut (nsamples : nat) : list Q :=
  map (fun k => Q_of_nat k / Q_of_nat nsamples) (seq 0 (S nsamples)).

(** [a = cut[:nsamples]] and [b = cut[1:nsamples + 1]] *)
Definition lower (nsamples : nat) : list Q := firstn nsamples (cut nsamples).
Definition upper (nsamples : nat) : list Q :=
  firstn (S nsamples - 1) (skipn 1 (cut nsamples)).

(** [np.random.rand(nsamples, dimension)] from its draws of [[0, 1)]. *)
Definition rand (n d : nat) (u : nat -> nat -> Q) : list row :=
  map (fun i => map (fun j => u i j) (seq 0 d)) (seq 0 n).

Definition zeros_like (a : list row) : list row := map (map (fun _ => 0)) a.

Fixpoint mapM {A B : Type} (f : A -> option B) (l : list A) : option (list B) :=
  match l with
  | [] => Some []
  | a :: rest => b <- f a ;; bs <- mapM f rest ;; Some (b :: bs)
  end.

(** [a[:, j]] *)
Definition column_read (a : list row) (j : nat) : option (list Q) :=
  mapM (fun r => nth_error r j) a.

(** [a[:, j] = c] for a one-dimensional [c] with one entry per row. *)
Definition column_write (a : list row) (j : nat) (c : list Q)
  : option (list row) :=
  if negb (length c =? length a)%nat then None
  else mapM (fun p => _ <- nth_error (fst p) j ;; Some (upd (fst p) j (snd p)))
            (combine a c).

(** [a[order, j]]: the entries of column [j] at the rows listed in [order]. *)
Definition gather (a : list row) (order : list nat) (j : nat)
  : option (list Q) :=
  mapM (fun k => get2 a k j) order.

(** [x * (b - a) + a] on one-dimensional arrays of the same length. *)
Definition scale_into (x a b : list Q) : list Q :=
  map (fun p => fst (fst p) * (snd p - snd (fst p)) + snd (fst p))
      (combine (combine x a) b).

(** [LHS._random]; [perm j] is what the call [np.random.permutation(nsamples)]
    of column [j] returns. *)
Definition random (n d : nat) (u : nat -> nat -> Q) (perm : nat -> list nat)
  : option (list row) :=
  let a := lower n in
  let b := upper n in
  let uu := rand n d u in
  samples <-
    for_each (fun samples i =>
                ucol <- column_read uu i ;;
                column_write samples i (scale_into ucol a b))
             (zeros_like uu) (seq 0 d) ;;
  for_each (fun samples j =>
              c <- gather samples (perm j) j ;;
              column_write samples j c)
           samples (seq 0 d).

(** [(a + b) / 2] *)
Definition centers (n : nat) : list Q :=
  map (fun p => (fst p + snd p) / 2) (combine (lower n) (upper n)).

(** [LHS._centered]; [np.random.permutation(centers)] returns the entries of
    [centers] in the order [perm i]. *)
Definition centered (n d : nat) (perm : nat -> list nat) : option (list row) :=
  for_each (fun samples i =>
              c <- mapM (nth_error (centers n)) (perm i) ;;
              column_write samples i c)
           (repeat (repeat 0 d) n) (seq 0 d).

(** Bin [k] of the [n] equal bins of the unit interval. *)
Definition in_bin (n k : nat) (x : Q) : Prop :=
  Q_of_nat k / Q_of_nat n <= x /\ x < Q_of_nat (S k) / Q_of_nat n.

(** Column [j] has one sample in each bin: the sample of row [r] lies in the
    bin [order[r]], where [order] lists every bin once. *)
Definition latin_column (n : nat) (samples : list row) (j : nat) : Prop :=
  exists order, Permutation.Permutation (seq 0 n) order /\
    forall r, (r < n)%nat ->
      exists x k, get2 samples r j = Some x /\ nth_error order r = Some k /\
                  in_bin n k x.

(** *** Reading and writing columns *)

Lemma mapM_some {A B : Type} (f : A -> option B) (g : A -> B) (l : list A) :
  (forall a, In a l -> f a = Some (g a)) -> mapM f l = Some (map g l).
Proof.
  induction l as [|a l IH]; intro H; simpl; [reflexivity|].
  rewrite (H a) by now left. simpl.
  rewrite IH by (intros; apply H; now right). reflexivity.
Qed.

Lemma nth_error_cut (n k : nat) :
  (k <= n)%nat -> nth_error (cut n) k = Some (Q_of_nat k / Q_of_nat n).
Proof.
  intro H. unfold cut.
  rewrite nth_error_map, (nth_error_nth' _ 0%nat) by (rewrite length_seq; lia).
  now rewrite seq_nth by lia.
Qed.

Lemma nth_error_lower (n k : nat) :
  (k < n)%nat -> nth_error (lower n) k = Some (Q_of_nat k / Q_of_nat n).
Proof.
  intro H. unfold lower. rewrite nth_error_firstn.
  destruct (Nat.ltb_spec k n); [|lia]. apply nth_error_cut. lia.
Qed.

Lemma nth_error_upper (n k : nat) :
  (k < n)%nat -> nth_error (upper n) k = Some (Q_of_nat (S k) / Q_of_nat n).
Proof.
  intro H. unfold upper. rewrite nth_error_firstn.
  destruct (Nat.ltb_spec k (S n - 1)); [|lia].
  rewrite nth_error_skipn. apply nth_error_cut. lia.
Qed.

Lemma length_lower (n : nat) : length (lower n) = n.
Proof.
  unfold lower, cut. rewrite length_firstn, length_map, length_seq. lia.
Qed.

Lemma length_upper (n : nat) : length (upper n) = n.
Proof.
  unfold upper, cut.
  rewrite length_firstn, length_skipn, length_map, length_seq. lia.
Qed.

Lemma mapM_map {A B C : Type} (f : B -> option C) (h : A -> B) (l : list A) :
  mapM f (map h l) = mapM (fun a => f (h a)) l.
Proof.
  induction l as [|a l IH]; simpl; [reflexivity|]. now rewrite IH.
Qed.

Lemma column_write_spec (a : list row) (n d j : nat) (c : list Q) :
  rect n d a -> (j < d)%nat -> length c = n ->
  exists a', column_write a j c = Some a' /\ rect n d a' /\
    (forall i, (i < n)%nat -> get2 a' i j = nth_error c i) /\
    (forall i j', j' <> j -> get2 a' i j' = get2 a i j').
Proof.
  intros [Hn Hd] Hj Hc.
  exists (map (fun p => upd (fst p) j (snd p)) (combine a c)).
  assert (Hrow : forall p : list Q * Q, In p (combine a c) -> length (fst p) = d).
  { intros [r v] Hp. apply in_combine_l in Hp.
    rewrite Forall_forall in Hd. now apply Hd. }
  split; [|split; [|split]].
  - unfold column_write. rewrite Hc, Hn, Nat.eqb_refl. simpl.
    apply mapM_some. intros p Hp.
    destruct (nth_error_lt (fst p) j) as [x Ex];
      [pose proof (Hrow p Hp); lia|].
    unfold bind. now rewrite Ex.
  - split.
    + rewrite length_map, length_combine. lia.
    + rewrite Forall_forall. intros r Hr. apply in_map_iff in Hr.
      destruct Hr as (p & <- & Hp). rewrite upd_length. now apply Hrow.
  - intros i Hi.
    destruct (nth_error_lt a i) as [r Er]; [lia|].
    destruct (nth_error_lt c i) as [v Ev]; [lia|].
    unfold get2, bind. unfold row in *.
    rewrite (map_nth_error _ _ _ (nth_error_combine _ _ _ _ _ Er Ev)).
    simpl. rewrite Ev. apply nth_error_upd_same.
    assert (Hin : In (r, v) (combine a c))
      by (eapply nth_error_In; apply nth_error_combine; eauto).
    pose proof (Hrow (r, v) Hin) as Hl. simpl in Hl. lia.
  - intros i j' Hj'. unfold get2, bind. unfold row in *. rewrite nth_error_map.
    destruct (nth_error a i) as [r|] eqn:Er.
    + assert (Hi : (i < n)%nat) by (rewrite <- Hn; apply nth_error_Some; congruence).
      destruct (nth_error_lt c i) as [v Ev]; [lia|].
      rewrite (nth_error_combine _ _ _ _ _ Er Ev). simpl.
      now apply nth_error_upd_other.
    + assert (Hnone : nth_error (combine a c) i = None).
      { apply nth_error_None. rewrite length_combine.
        apply nth_error_None in Er. lia. }
      now rewrite Hnone.
Qed.

(** A loop that assigns the columns one after the other, column [j] with a
    value [G j] that the loop body computes from what column [j] held at the
    start. *)
Lemma columns_loop (body : list row -> nat -> option (list row))
  (G : nat -> list Q) (n d : nat) (a0 : list row) :
  rect n d a0 ->
  (forall samples j, (j < d)%nat -> rect n d samples ->
     (forall i, get2 samples i j = get2 a0 i j) ->
     body samples j = column_write samples j (G j)) ->
  (forall j, (j < d)%nat -> length (G j) = n) ->
  forall k, (k <= d)%nat ->
  exists a', for_each body a0 (seq 0 k) = Some a' /\ rect n d a' /\
    (forall i j, (i < n)%nat -> (j < k)%nat -> get2 a' i j = nth_error (G j) i) /\
    (forall i j, (k <= j)%nat -> get2 a' i j = get2 a0 i j).
Proof.
  intros Ha Hbody HG. induction k as [|k IH]; intro Hk.
  - exists a0. repeat split; try apply Ha; auto. intros; lia.
  - destruct (IH ltac:(lia)) as (a1 & E1 & R1 & G1 & O1).
    destruct (column_write_spec a1 n d k (G k) R1 ltac:(lia) (HG k ltac:(lia)))
      as (a2 & E2 & R2 & G2 & O2).
    exists a2. rewrite seq_S, for_each_app, E1. simpl.
    rewrite (Hbody a1 k) by (auto; intros; apply O1; lia).
    rewrite E2. split; [reflexivity|]. split; [exact R2|]. split.
    + intros i j Hi Hj. destruct (Nat.eq_dec j k) as [->|Hne].
      * now apply G2.
      * rewrite O2 by exact Hne. apply G1; lia.
    + intros i j Hj. rewrite O2 by lia. apply O1. lia.
Qed.

(** *** The bins *)

Lemma bin_width (n k : nat) :
  (0 < n)%nat -> Q_of_nat k / Q_of_nat n < Q_of_nat (S k) / Q_of_nat n.
Proof.
  intro Hn. pose proof (cells_apart k (S k) n ltac:(lia) Hn) as H.
  pose proof (Qinv_lt_0_compat _ (Q_of_nat_pos n Hn)) as Hi.
  unfold Qdiv in *. lra.
Qed.

Lemma scaled_in_bin (n k : nat) (u : Q) :
  (0 < n)%nat -> 0 <= u -> u < 1 ->
  in_bin n k (u * (Q_of_nat (S k) / Q_of_nat n - Q_of_nat k / Q_of_nat n)
              + Q_of_nat k / Q_of_nat n).
Proof.
  intros Hn H0 H1. pose proof (bin_width n k Hn) as Hw.
  set (lo := Q_of_nat k / Q_of_nat n) in *.
  set (hi := Q_of_nat (S k) / Q_of_nat n) in *.
  assert (Hp : 0 <= u * (hi - lo)) by (apply Qmult_le_0_compat; lra).
  assert (Hq : 0 < (1 - u) * (hi - lo)) by (apply Qmult_lt_0_compat; lra).
  setoid_replace ((1 - u) * (hi - lo)) with (hi - lo - u * (hi - lo)) in Hq
    by ring.
  unfold in_bin. fold lo hi. split; lra.
Qed.

Lemma center_in_bin (n k : nat) :
  (0 < n)%nat ->
  in_bin n k ((Q_of_nat k / Q_of_nat n + Q_of_nat (S k) / Q_of_nat n) / 2).
Proof.
  intro Hn. pose proof (bin_width n k Hn) as Hw.
  set (lo := Q_of_nat k / Q_of_nat n) in *.
  set (hi := Q_of_nat (S k) / Q_of_nat n) in *.
  assert (Hh : (lo + hi) / 2 + (lo + hi) / 2 == lo + hi) by field.
  unfold in_bin. fold lo hi. set (c := (lo + hi) / 2) in *. split; lra.
Qed.

Lemma perm_in_range (n : nat) (order : list nat) (r k : nat) :
  Permutation.Permutation (seq 0 n) order ->
  nth_error order r = Some k -> (k < n)%nat.
Proof.
  intros Hp Hk. apply nth_error_In in Hk.
  apply (Permutation.Permutation_in _ (Permutation.Permutation_sym Hp)) in Hk.
  apply in_seq in Hk. lia.
Qed.

(** The value that [_random] gives column [j] before the rows are
    permuted. *)
Definition strat (n : nat) (u : nat -> nat -> Q) (j r : nat) : Q :=
  u r j * (Q_of_nat (S r) / Q_of_nat n - Q_of_nat r / Q_of_nat n)
  + Q_of_nat r / Q_of_nat n.

Lemma scale_into_column (n : nat) (u : nat -> nat -> Q) (j : nat) :
  scale_into (map (fun r => u r j) (seq 0 n)) (lower n) (upper n)
  = map (strat n u j) (seq 0 n).
Proof.
  apply nth_error_ext. intro r. unfold scale_into.
  rewrite !nth_error_map.
  destruct (Nat.lt_ge_cases r n) as [Hr|Hr].
  - assert (E1 : nth_error (map (fun r => u r j) (seq 0 n)) r = Some (u r j)).
    { rewrite nth_error_map, (nth_error_nth' _ 0%nat) by now rewrite length_seq.
      now rewrite seq_nth. }
    rewrite (nth_error_combine _ _ _ _ _
               (nth_error_combine _ _ _ _ _ E1 (nth_error_lower n r Hr))
               (nth_error_upper n r Hr)).
    rewrite (nth_error_nth' _ 0%nat) by now rewrite length_seq.
    rewrite seq_nth by assumption. reflexivity.
  - assert (H1 : nth_error (seq 0 n) r = None)
      by (apply nth_error_None; now rewrite length_seq).
    rewrite H1. simpl.
    assert (H2 : forall A (l : list A), (length l <= r)%nat -> nth_error l r = None)
      by (intros; now apply nth_error_None).
    rewrite H2; [reflexivity|].
    rewrite !length_combine, length_map, length_seq, length_lower, length_upper.
    lia.
Qed.

(** X6: [LHS._random] returns a Latin hypercube design.  With [nsamples > 0],
    draws of [rand] in [[0, 1)] and every call of [permutation(nsamples)]
    returning a permutation of [range(nsamples)], the method completes with
    an [nsamples x dimension] array in which every column has exactly one
    sample in each of the [nsamples] equal bins of [[0, 1)]: the sample of
    row [r] lies in the bin that the permutation of the column lists at
    [r]. *)
Theorem random_is_latin (n d : nat) (u : nat -> nat -> Q)
  (perm : nat -> list nat) :
  (0 < n)%nat ->
  (forall i j, 0 <= u i j /\ u i j < 1) ->
  (forall j, Permutation.Permutation (seq 0 n) (perm j)) ->
  exists samples, random n d u perm = Some samples /\ rect n d samples /\
    forall j, (j < d)%nat -> latin_column n samples j.
Proof.
  intros Hn Hu Hperm.
  assert (Hz : rect n d (zeros_like (rand n d u))).
  { unfold zeros_like, rand. split.
    - now rewrite !length_map, length_seq.
    - rewrite Forall_forall. intros r Hr.
      apply in_map_iff in Hr. destruct Hr as (r0 & <- & Hr0).
      apply in_map_iff in Hr0. destruct Hr0 as (i & <- & _).
      now rewrite !length_map, length_seq. }
  (* the stratified columns *)
  destruct (columns_loop
              (fun samples i =>
                 ucol <- column_read (rand n d u) i ;;
                 column_write samples i (scale_into ucol (lower n) (upper n)))
              (fun j => map (strat n u j) (seq 0 n)) n d _ Hz)
    with (k := d) as (s1 & E1 & R1 & G1 & _); auto.
  { intros samples j Hj _ _.
    assert (Hcol : column_read (rand n d u) j
                   = Some (map (fun r => u r j) (seq 0 n))).
    { unfold column_read, rand. rewrite mapM_map. apply mapM_some.
      intros r _. rewrite nth_error_map, (nth_error_nth' _ 0%nat)
        by now rewrite length_seq.
      now rewrite seq_nth. }
    rewrite Hcol. simpl. now rewrite scale_into_column. }
  { intros j _. now rewrite length_map, length_seq. }
  (* the permuted columns *)
  destruct (columns_loop
              (fun samples j =>
                 c <- gather samples (perm j) j ;; column_write samples j c)
              (fun j => map (strat n u j) (perm j)) n d s1 R1)
    with (k := d) as (s2 & E2 & R2 & G2 & _); auto.
  { intros samples j Hj _ Hsame.
    assert (Hg : gather samples (perm j) j = Some (map (strat n u j) (perm j))).
    { unfold gather. apply mapM_some. intros k Hk.
      apply (Permutation.Permutation_in _
               (Permutation.Permutation_sym (Hperm j))) in Hk.
      apply in_seq in Hk.
      rewrite Hsame, G1 by lia.
      rewrite nth_error_map, (nth_error_nth' _ 0%nat)
        by (rewrite length_seq; lia).
      now rewrite seq_nth by lia. }
    now rewrite Hg. }
  { intros j _. rewrite length_map.
    rewrite <- (Permutation.Permutation_length (Hperm j)). apply length_seq. }
  exists s2. split; [|split; [exact R2|]].
  - unfold random. cbv zeta. rewrite E1. exact E2.
  - intros j Hj. exists (perm j). split; [apply Hperm|].
    intros r Hr.
    destruct (nth_error_lt (perm j) r) as [k Ek].
    { rewrite <- (Permutation.Permutation_length (Hperm j)), length_seq. exact Hr. }
    exists (strat n u j k), k. split; [|split; [exact Ek|]].
    + rewrite G2 by assumption. now apply map_nth_error.
    + destruct (Hu k j). now apply scaled_in_bin.
Qed.

Lemma random_is_latin_witness :
  exists samples,
    random 2 2 (fun _ _ => 1 # 2) (fun _ => [1; 0]%nat) = Some samples /\
    rect 2 2 samples /\
    forall j, (j < 2)%nat -> latin_column 2 samples j.
Proof.
  apply (random_is_latin 2 2 (fun _ _ => 1 # 2) (fun _ => [1; 0]%nat)).
  - lia.
  - intros _ _. split; [discriminate|reflexivity].
  - intros _. apply Permutation.perm_swap.
Defined.

Lemma nth_error_centers (n k : nat) :
  (k < n)%nat ->
  nth_error (centers n) k
  = Some ((Q_of_nat k / Q_of_nat n + Q_of_nat (S k) / Q_of_nat n) / 2).
Proof.
  intro H. unfold centers.
  now rewrite (map_nth_error _ _ _
                 (nth_error_combine _ _ _ _ _ (nth_error_lower n k H)
                                    (nth_error_upper n k H))).
Qed.

(** X7: [LHS._centered] returns a Latin hypercube design whose samples are
    the midpoints of the bins: with [nsamples > 0] and every call of
    [permutation] returning the centres in the order of a permutation of
    [range(nsamples)], every column of the result has exactly one sample in
    each bin, the sample of bin [k] being [(2 k + 1) / (2 nsamples)]. *)
Theorem centered_is_latin (n d : nat) (perm : nat -> list nat) :
  (0 < n)%nat ->
  (forall j, Permutation.Permutation (seq 0 n) (perm j)) ->
  exists samples, centered n d perm = Some samples /\ rect n d samples /\
    (forall j, (j < d)%nat -> latin_column n samples j) /\
    (forall r j k, (j < d)%nat -> nth_error (perm j) r = Some k ->
       exists x, get2 samples r j = Some x /\
                 x == Q_of_nat (2 * k + 1) / Q_of_nat (2 * n)).
Proof.
  intros Hn Hperm.
  set (mid := fun k => (Q_of_nat k / Q_of_nat n + Q_of_nat (S k) / Q_of_nat n) / 2).
  assert (Hz : rect n d (repeat (repeat 0 d) n)).
  { split; [apply repeat_length|].
    rewrite Forall_forall. intros r Hr. apply repeat_spec in Hr. subst r.
    apply repeat_length. }
  destruct (columns_loop
              (fun samples i =>
                 c <- mapM (nth_error (centers n)) (perm i) ;;
                 column_write samples i c)
              (fun j => map mid (perm j)) n d _ Hz)
    with (k := d) as (s & E & R & G & _); auto.
  { intros samples j Hj _ _.
    assert (Hg : mapM (nth_error (centers n)) (perm j) = Some (map mid (perm j))).
    { apply mapM_some. intros k Hk.
      apply (Permutation.Permutation_in _
               (Permutation.Permutation_sym (Hperm j))) in Hk.
      apply in_seq in Hk. apply nth_error_centers. lia. }
    now rewrite Hg. }
  { intros j _. rewrite length_map.
    rewrite <- (Permutation.Permutation_length (Hperm j)). apply length_seq. }
  assert (Hlen : forall j, length (perm j) = n).
  { intro j. rewrite <- (Permutation.Permutation_length (Hperm j)).
    apply length_seq. }
  exists s. split; [exact E|]. split; [exact R|]. split.
  - intros j Hj. exists (perm j). split; [apply Hperm|].
    intros r Hr.
    destruct (nth_error_lt (perm j) r) as [k Ek]; [rewrite Hlen; exact Hr|].
    exists (mid k), k. split; [|split; [exact Ek|]].
    + rewrite G by assumption. now apply map_nth_error.
    + now apply center_in_bin.
  - intros r j k Hj Ek.
    assert (Hr : (r < n)%nat)
      by (rewrite <- (Hlen j); apply nth_error_Some; congruence).
    exists (mid k). split.
    + rewrite G by assumption. now apply map_nth_error.
    + unfold mid. pose proof (Q_of_nat_pos n Hn) as Hq.
      replace (2 * k + 1)%nat with (k + S k)%nat by lia.
      unfold Q_of_nat. rewrite !Nat2Z.inj_add, !Nat2Z.inj_mul, !inject_Z_plus,
        inject_Z_mult.
      fold (Q_of_nat n). fold (Q_of_nat k). fold (Q_of_nat (S k)).
      change (inject_Z (Z.of_nat 2)) with 2.
      field. lra.
Qed.

Lemma centered_is_latin_witness :
  exists samples, centered 2 2 (fun _ => [1; 0]%nat) = Some samples /\
    rect 2 2 samples /\
    (forall j, (j < 2)%nat -> latin_column 2 samples j) /\
    (forall r j k, (j < 2)%nat -> nth_error [1; 0]%nat r = Some k ->
       exists x, get2 samples r j = Some x /\
                 x == Q_of_nat (2 * k + 1) / Q_of_nat (2 * 2)).
Proof.
  apply (centered_is_latin 2 2 (fun _ => [1; 0]%nat)).
  - lia.
  - intros _. apply Permutation.perm_swap.
Defined.

End LHS.

(* ===================================================================== *)
(** * Markov chain Monte Carlo ([SampleMethods.py], class MCMC) *)
(* ===================================================================== *)

Module MCMC.

Import Reals Lra Py.
Local Open Scope R_scope.

Local Notation "x <- e ;; k" := (rbind e (fun x => k))
  (at level 61, e at next level, right associativity).

(** ** Arithmetic on rows *)

Definition vadd (x y : vec) : vec := map (fun p => fst p + snd p) (combine x y).
Definition vsub (x y : vec) : vec := map (fun p => fst p - snd p) (combine x y).
Definition vmul (x y : vec) : vec := map (fun p => fst p * snd p) (combine x y).
Definition vscale (c : R) (x : vec) : vec := map (fun a => c * a) x.

Definition zeros (rows cols : nat) : list vec := repeat (repeat 0 cols) rows.

(** ** The acceptance test

    [np.log(np.random.random()) < log_p_accept] for a draw [u] of [[0, 1)];
    the logarithm of a draw equal to zero is minus infinity, which is below
    every log-ratio. *)
Definition log_uniform_lt (u log_p_accept : R) : bool :=
  if Rle_dec u 0 then true
  else if Rlt_dec (ln u) log_p_accept then true else false.

(** ** Inputs of a run *)

Inductive algorithm := MH | MMH | Stretch.
Inductive proposal := Normal | Uniform.

(** The seed: one point for MH and MMH, an ensemble for Stretch. *)
Inductive seed_t :=
| Point (x : vec)
| Ensemble (xs : list vec).

Section Run.

(** The type of [pdf_target_params]. *)
Context {Params : Type}.

(** A target: one joint function, or a list of per-axis functions. *)
Inductive target :=
| Joint (f : vec -> Params -> R)
| PerAxis (fs : list (R -> Params -> R)).

(** The attributes of the object once [init_mcmc] has returned: it has
    checked that the seed of MH and MMH, the proposal types and the proposal
    scales have the length of the dimension, so that the rows added and
    assigned below have matching shapes. *)
Record mcmc := mkMcmc {
  dimension : nat;
  pdf_proposal_type : list proposal;
  pdf_proposal_scale : list R;
  pdf_target : option target;
  log_pdf_target : target;
  pdf_target_params : Params;
  pdf_target_type_marginal : bool;
  algorithm_ : algorithm;
  jump : nat;
  nsamples : nat;
  seed : seed_t;
  nburn : nat
}.

(** [self.ensemble_size = len(self.seed)] *)
Definition ensemble_size (m : mcmc) : nat :=
  match seed m with
  | Point x => length x
  | Ensemble xs => length xs
  end.

(** The draws of the pseudo-random source, by loop index: for MH the
    standard variates of the proposal and the uniform of the test at
    iteration [i]; for MMH the same for coordinate [j] of iteration [i]; for
    Stretch the index returned by [random.choice], the draw of
    [random.random()] and the uniform of the test. *)
Record tape := mkTape {
  mh_draw : nat -> vec * R;
  mmh_draw : nat -> nat -> R * R;
  stretch_draw : nat -> nat * R * R
}.

(** [np.random.normal(loc, scale)] and [np.random.uniform(low, high)] from a
    standard variate. *)
Definition normal (loc scale z : R) : R := loc + scale * z.
Definition uniform (low high u : R) : R := low + (high - low) * u.

Definition call_joint (t : target) (x : vec) (p : Params) : result R :=
  match t with
  | Joint f => Ok (f x p)
  | PerAxis _ => Raise TypeError
  end.

Definition call_axis (t : target) (j : nat) (x : R) (p : Params) : result R :=
  match t with
  | Joint _ => Raise TypeError
  | PerAxis fs => f <- get fs j ;; Ok (f x p)
  end.

(** Number of iterations of the MH and MMH loops,
    [range(nsamples * jump - 1 + nburn)]. *)
Definition n_iter (m : mcmc) : nat := (nsamples m * jump m + nburn m - 1)%nat.

(** The denominator [nsamples * jump - 1 + nburn]. *)
Definition mh_denominator (m : mcmc) : Z :=
  (Z.of_nat (nsamples m) * Z.of_nat (jump m) - 1 + Z.of_nat (nburn m))%Z.

(** *** Metropolis-Hastings *)

Definition mh_candidate (m : mcmc) (x : vec) (z : vec) : result vec :=
  match pdf_proposal_type m with
  | [] => Raise IndexError
  | Normal :: _ => Ok (vadd x (vmul (pdf_proposal_scale m) z))
  | Uniform :: _ =>
      let low := map (fun s => - s / 2) (pdf_proposal_scale m) in
      let high := map (fun s => s / 2) (pdf_proposal_scale m) in
      Ok (vadd x (map (fun p => uniform (fst (fst p)) (snd (fst p)) (snd p))
                      (combine (combine low high) z)))
  end.

(** The loop state: the array, [log_p_current] and [n_accepts]. *)
Definition mh_step (m : mcmc) (t : tape) (st : list vec * R * nat) (i : nat)
  : result (list vec * R * nat) :=
  let '(samples, log_p_current, n_accepts) := st in
  let '(z, u) := mh_draw t i in
  x <- get samples i ;;
  candidate <- mh_candidate m x z ;;
  log_p_candidate <- call_joint (log_pdf_target m) candidate (pdf_target_params m) ;;
  let log_p_accept := log_p_candidate - log_p_current in
  if log_uniform_lt u log_p_accept
  then samples' <- set samples (S i) candidate ;;
       Ok (samples', log_p_candidate, S n_accepts)
  else samples' <- set samples (S i) x ;;
       Ok (samples', log_p_current, n_accepts).

(** A [for] loop over the indices [idx] threading a state. *)
Fixpoint for_loop {S : Type} (body : S -> nat -> result S) (st : S) (idx : list nat)
  : result S :=
  match idx with
  | [] => Ok st
  | i :: rest => st' <- body st i ;; for_loop body st' rest
  end.

Definition run_mh (m : mcmc) (t : tape) : result (list vec * R) :=
  let samples0 := zeros (nsamples m * jump m + nburn m) (dimension m) in
  match seed m with
  | Ensemble _ => Raise ValueError
  | Point x0 =>
      samples1 <- set samples0 0 x0 ;;
      log_p_current <- call_joint (log_pdf_target m) x0 (pdf_target_params m) ;;
      st <- for_loop (mh_step m t) (samples1, log_p_current, O) (seq 0 (n_iter m)) ;;
      let '(samples, _, n_accepts) := st in
      accept_ratio <- py_div (Z.of_nat n_accepts) (mh_denominator m) ;;
      Ok (samples, accept_ratio)
  end.

(** *** Modified Metropolis-Hastings *)

Definition get2 (a : list vec) (i j : nat) : result R :=
  r <- get a i ;; get r j.

Definition set2 (a : list vec) (i j : nat) (v : R) : result (list vec) :=
  r <- get a i ;; r' <- set r j v ;; set a i r'.

Fixpoint mapM {A B : Type} (f : A -> result B) (l : list A) : result (list B) :=
  match l with
  | [] => Ok []
  | a :: rest => b <- f a ;; bs <- mapM f rest ;; Ok (b :: bs)
  end.

(** The proposal of one coordinate around [x] with the kernel of axis [j]. *)
Definition mmh_candidate (m : mcmc) (j : nat) (x z : R) : result R :=
  ty <- get (pdf_proposal_type m) j ;;
  sc <- get (pdf_proposal_scale m) j ;;
  match ty with
  | Normal => Ok (normal x sc z)
  | Uniform => Ok (uniform (x - sc / 2) (x + sc / 2) z)
  end.

(** The branch [pdf_target_type == 'marginal_pdf']: body of the loop on [j]
    with the array, [list_log_p_current] and [n_accepts]. *)
Definition mmh_marginal_step (m : mcmc) (t : tape) (i : nat)
  (st : list vec * list R * nat) (j : nat) : result (list vec * list R * nat) :=
  let '(samples, list_log_p_current, n_accepts) := st in
  let '(z, u) := mmh_draw t i j in
  x <- get2 samples i j ;;
  candidate <- mmh_candidate m j x z ;;
  log_p_candidate <- call_axis (log_pdf_target m) j candidate (pdf_target_params m) ;;
  log_p_current <- get list_log_p_current j ;;
  let log_p_accept := log_p_candidate - log_p_current in
  if log_uniform_lt u log_p_accept
  then samples' <- set2 samples (S i) j candidate ;;
       list' <- set list_log_p_current j log_p_candidate ;;
       Ok (samples', list', S n_accepts)
  else samples' <- set2 samples (S i) j x ;;
       Ok (samples', list_log_p_current, n_accepts).

(** The other branch: body of the loop on [j] with [candidate], [current],
    [log_p_current] and [n_accepts]; [x] is [samples[i, :]]. *)
Definition mmh_joint_step (m : mcmc) (t : tape) (i : nat) (x : vec)
  (st : vec * vec * R * nat) (j : nat) : result (vec * vec * R * nat) :=
  let '(candidate, current, log_p_current, n_accepts) := st in
  let '(z, u) := mmh_draw t i j in
  xj <- get x j ;;
  cj <- mmh_candidate m j xj z ;;
  candidate1 <- set candidate j cj ;;
  log_p_candidate <- call_joint (log_pdf_target m) candidate1 (pdf_target_params m) ;;
  let log_p_accept := log_p_candidate - log_p_current in
  if log_uniform_lt u log_p_accept
  then current1 <- set current j cj ;;
       Ok (candidate1, current1, log_p_candidate, S n_accepts)
  else back <- get current j ;;
       candidate2 <- set candidate1 j back ;;
       Ok (candidate2, current, log_p_current, n_accepts).

Definition mmh_joint_iter (m : mcmc) (t : tape) (st : list vec * nat) (i : nat)
  : result (list vec * nat) :=
  let '(samples, n_accepts) := st in
  x <- get samples i ;;
  log_p_current <- call_joint (log_pdf_target m) x (pdf_target_params m) ;;
  inner <- for_loop (mmh_joint_step m t i x) (x, x, log_p_current, n_accepts)
                    (seq 0 (dimension m)) ;;
  let '(_, current, _, n_accepts') := inner in
  samples' <- set samples (S i) current ;;
  Ok (samples', n_accepts').

Definition run_mmh (m : mcmc) (t : tape) : result (list vec * R) :=
  let samples0 := zeros (nsamples m * jump m + nburn m) (dimension m) in
  match seed m with
  | Ensemble _ => Raise ValueError
  | Point x0 =>
      samples1 <- set samples0 0 x0 ;;
      if pdf_target_type_marginal m then
        match pdf_target m with
        | Some (PerAxis fs) =>
            list_log_p_current <-
              mapM (fun j => f <- get fs j ;; x <- get x0 j ;;
                             Ok (f x (pdf_target_params m)))
                   (seq 0 (dimension m)) ;;
            st <- for_loop
                    (fun st i => for_loop (mmh_marginal_step m t i) st
                                          (seq 0 (dimension m)))
                    (samples1, list_log_p_current, O) (seq 0 (n_iter m)) ;;
            let '(samples, _, n_accepts) := st in
            accept_ratio <- py_div (Z.of_nat n_accepts) (mh_denominator m) ;;
            Ok (samples, accept_ratio)
        | _ => Raise TypeError
        end
      else
        st <- for_loop (mmh_joint_iter m t) (samples1, O) (seq 0 (n_iter m)) ;;
        let '(samples, n_accepts) := st in
        accept_ratio <- py_div (Z.of_nat n_accepts) (mh_denominator m) ;;
        Ok (samples, accept_ratio)
  end.

(** *** Affine invariant ensemble sampler with stretch moves *)

(** [range(start, stop, step)] for a positive [step]. *)
Definition range3 (start stop step : nat) : list nat :=
  map (fun k => start + k * step)%nat (seq 0 ((stop - start + step - 1) / step)).

(** [a[start:stop]] *)
Definition slice {A : Type} (a : list A) (start stop : nat) : list A :=
  firstn (stop - start) (skipn start a).

(** [out[j:j+n, :] = src]: the shapes agree, or [src] has one row that is
    broadcast, or the assignment raises. *)
Definition assign_rows (out : list vec) (j n : nat) (src : list vec)
  : result (list vec) :=
  let a := length (slice out j (j + n)) in
  if (length src =? a)%nat
  then Ok (firstn j out ++ src ++ skipn (j + a) out)
  else if (length src =? 1)%nat
  then Ok (firstn j out ++ repeat (hd [] src) a ++ skipn (j + a) out)
  else Raise ValueError.

(** The stretch factor [(1 + (a - 1) * random.random()) ** 2 / a]. *)
Definition stretch_factor (a U : R) : R := (1 + (a - 1) * U) ^ 2 / a.

(** [s0 + s * (walker - s0)] *)
Definition stretch_candidate (s0 walker : vec) (s : R) : vec :=
  vadd s0 (vscale s (vsub walker s0)).

(** [np.log(s ** (dimension - 1)) + log_p_candidate - log_p_current] *)
Definition stretch_log_p_accept (d : nat) (s log_p_candidate log_p_current : R) : R :=
  ln (powerRZ s (Z.of_nat d - 1)) + log_p_candidate - log_p_current.

(** [samples[i - ensemble_size + 2 : i + 1, :]] *)
Definition complementary_ensemble (samples : list vec) (M i : nat) : list vec :=
  slice samples (i + 2 - M) (i + 1).

Definition stretch_step (m : mcmc) (t : tape) (st : list vec * list R * nat)
  (i : nat) : result (list vec * list R * nat) :=
  let '(samples, list_log_p_current, n_accepts) := st in
  let M := ensemble_size m in
  let '(c, U, u) := stretch_draw t i in
  s0 <- get (complementary_ensemble samples M i) c ;;
  a <- get (pdf_proposal_scale m) 0 ;;
  let s := stretch_factor a U in
  walker <- get samples (i + 1 - M) ;;
  let candidate := stretch_candidate s0 walker s in
  log_p_candidate <- call_joint (log_pdf_target m) candidate (pdf_target_params m) ;;
  log_p_current <- get list_log_p_current (i + 1 - M) ;;
  let log_p_accept :=
    stretch_log_p_accept (dimension m) s log_p_candidate log_p_current in
  if log_uniform_lt u log_p_accept
  then samples' <- set samples (S i) candidate ;;
       Ok (samples', list_log_p_current ++ [log_p_candidate], S n_accepts)
  else samples' <- set samples (S i) walker ;;
       Ok (samples', list_log_p_current ++ [log_p_current], n_accepts).

(** The state before the loop: the seed in the first rows and its
    log-densities. *)
Definition stretch_init (m : mcmc) : result (list vec * list R * nat) :=
  let samples0 := zeros (nsamples m * jump m + nburn m) (dimension m) in
  match seed m with
  | Point _ => Raise ValueError
  | Ensemble xs =>
      samples1 <- assign_rows samples0 0 (ensemble_size m) xs ;;
      list_log_p_current <-
        mapM (fun i => x <- get samples1 i ;;
                       call_joint (log_pdf_target m) x (pdf_target_params m))
             (seq 0 (ensemble_size m)) ;;
      Ok (samples1, list_log_p_current, O)
  end.

(** [range(ensemble_size - 1, nsamples * jump - 1)] *)
Definition stretch_range (m : mcmc) : list nat :=
  seq (ensemble_size m - 1) (nsamples m * jump m - 1 - (ensemble_size m - 1)).

Definition run_stretch (m : mcmc) (t : tape) : result (list vec * R) :=
  st0 <- stretch_init m ;;
  st <- for_loop (stretch_step m t) st0 (stretch_range m) ;;
  let '(samples, _, n_accepts) := st in
  accept_ratio <- py_div (Z.of_nat n_accepts)
                    (Z.of_nat (nsamples m) * Z.of_nat (jump m)
                     - Z.of_nat (ensemble_size m))%Z ;;
  Ok (samples, accept_ratio).

(** *** Returning the samples *)

(** [a[start:stop:step]] *)
Definition strided {A : Type} (a : list A) (start stop step : nat) : list A :=
  flat_map (fun i => match nth_error a i with Some x => [x] | None => [] end)
           (range3 start (Nat.min stop (length a)) step).

(** The loop that copies one block of [ensemble_size] rows per retained
    sweep into [output]. *)
Fixpoint stretch_output (samples output : list vec) (M : nat) (starts : list nat)
  (j : nat) : result (list vec) :=
  match starts with
  | [] => Ok output
  | i :: rest =>
      output' <- assign_rows output j M (slice samples i (i + M)) ;;
      stretch_output samples output' M rest (j + M)
  end.

Definition run_mcmc (m : mcmc) (t : tape) : result (list vec * R) :=
  match algorithm_ m with
  | MH =>
      r <- run_mh m t ;;
      if (jump m =? 0)%nat then Raise ValueError
      else Ok (strided (fst r) (nburn m) (nsamples m * jump m + nburn m) (jump m),
               snd r)
  | MMH =>
      r <- run_mmh m t ;;
      if (jump m =? 0)%nat then Raise ValueError
      else Ok (strided (fst r) (nburn m) (nsamples m * jump m + nburn m) (jump m),
               snd r)
  | Stretch =>
      r <- run_stretch m t ;;
      let M := ensemble_size m in
      if (jump m * M =? 0)%nat then Raise ValueError
      else
        output <- stretch_output (fst r) (zeros (nsamples m) (dimension m)) M
                    (range3 (jump m * M - M) (length (fst r)) (jump m * M)) 0 ;;
        Ok (output, snd r)
  end.

(** [MCMC.__init__] after [init_mcmc]: for MMH the attribute
    [pdf_target_type] is set to [None] before the chain is run. *)
Definition reset_target_type (m : mcmc) : mcmc :=
  match algorithm_ m with
  | MMH =>
      mkMcmc (dimension m) (pdf_proposal_type m) (pdf_proposal_scale m)
             (pdf_target m) (log_pdf_target m) (pdf_target_params m) false
             (algorithm_ m) (jump m) (nsamples m) (seed m) (nburn m)
  | _ => m
  end.

Definition mcmc_new (m : mcmc) (t : tape) : result (list vec * R) :=
  run_mcmc (reset_target_type m) t.

(** *** The target given as a density ([MCMC.init_mcmc]) *)

(** [10 ** (-320)] *)
Definition pdf_floor : R := / 10 ^ 320.

(** The helper [compute_log_pdf(x, params, pdf_func)]. *)
Definition compute_log_pdf {X : Type} (x : X) (params : Params)
  (pdf_func : X -> Params -> R) : R :=
  let pdf_value := Rmax (pdf_func x params) pdf_floor in
  ln pdf_value.

(** [partial(compute_log_pdf, pdf_func=f)] *)
Definition partial_compute_log_pdf {X : Type} (pdf_func : X -> Params -> R)
  : X -> Params -> R :=
  fun x params => compute_log_pdf x params pdf_func.

(** What [pdf_target] may be: a name, a list of names, a callable, a list
    of callables. *)
Inductive pdf_input :=
| PdfName (name : string)
| PdfNames (names : list string)
| PdfCallable (f : vec -> Params -> R)
| PdfCallables (fs : list (R -> Params -> R)).

(** [isinstance(pdf_target, list)] and its length. *)
Definition pdf_list_length (p : pdf_input) : option nat :=
  match p with
  | PdfNames l => Some (length l)
  | PdfCallables l => Some (length l)
  | _ => None
  end.

(** The log-densities of the named distributions,
    [Distribution(name).log_pdf], belong to the distribution library. *)
Variable distribution_log_pdf : list string -> vec -> Params -> R.
Variable distribution_log_pdf_axis : string -> R -> Params -> R.

(** "Check log_pdf_target and pdf_target": the log-density the chain will
    use and whether it is kept as a list of marginals. *)
Definition init_target (alg : algorithm) (d : nat)
  (log_pdf_target0 : option target) (pdf_target0 : option pdf_input)
  : result (target * bool) :=
  match log_pdf_target0, pdf_target0 with
  | None, None => Raise ValueError
  | _, _ =>
      let bad_log :=
        match log_pdf_target0 with
        | Some (PerAxis fs) => negb (length fs =? d)%nat
        | _ => false
        end in
      let bad_pdf :=
        match option_map pdf_list_length pdf_target0 with
        | Some (Some k) => negb (k =? d)%nat
        | _ => false
        end in
      if bad_log || bad_pdf then Raise ValueError
      else
        match alg with
        | MMH =>
            match log_pdf_target0 with
            | Some (PerAxis fs) => Ok (PerAxis fs, true)
            | Some (Joint f) => Ok (Joint f, false)
            | None =>
                match pdf_target0 with
                | Some (PdfNames names) =>
                    Ok (PerAxis (map distribution_log_pdf_axis names), true)
                | Some (PdfCallables fs) =>
                    Ok (PerAxis (map partial_compute_log_pdf fs), true)
                | Some (PdfName name) =>
                    Ok (Joint (distribution_log_pdf [name]), false)
                | Some (PdfCallable f) =>
                    Ok (Joint (partial_compute_log_pdf f), false)
                | None => Raise ValueError
                end
            end
        | _ =>
            match log_pdf_target0 with
            | Some (PerAxis _) => Raise ValueError
            | Some (Joint f) => Ok (Joint f, false)
            | None =>
                match pdf_target0 with
                | Some (PdfName name) => Ok (Joint (distribution_log_pdf [name]), false)
                | Some (PdfNames names) => Ok (Joint (distribution_log_pdf names), false)
                | Some (PdfCallable f) => Ok (Joint (partial_compute_log_pdf f), false)
                | _ => Raise ValueError
                end
            end
        end
  end.

End Run.

Arguments log_uniform_lt : simpl never.

(** ** The acceptance test as a comparison of the draw *)

Lemma log_uniform_lt_spec (u a : R) :
  0 <= u -> (log_uniform_lt u a = true <-> u < exp a).
Proof.
  intro Hu. unfold log_uniform_lt.
  pose proof (exp_pos a) as Hexp.
  destruct (Rle_dec u 0) as [H0|H0].
  - split; [intros _; lra | reflexivity].
  - assert (Hpos : 0 < u) by lra.
    destruct (Rlt_dec (ln u) a) as [Hl|Hl]; split; intro H;
      try reflexivity; try discriminate.
    + rewrite <- (exp_ln u Hpos). now apply exp_increasing.
    + exfalso. apply Hl. rewrite <- (ln_exp a). now apply ln_increasing.
Qed.

Lemma log_uniform_lt_true (u a : R) :
  0 <= u -> u < exp a -> log_uniform_lt u a = true.
Proof. intros Hu H. now apply log_uniform_lt_spec. Qed.

Lemma log_uniform_lt_false (u a : R) :
  0 <= u -> exp a <= u -> log_uniform_lt u a = false.
Proof.
  intros Hu H. destruct (log_uniform_lt u a) eqn:E; auto.
  apply log_uniform_lt_spec in E; auto. lra.
Qed.

(** A draw of [[0, 1)] passes the test with probability [min(1, exp a)]:
    the draws that pass are those below that bound. *)
Lemma log_uniform_lt_min (u a : R) :
  0 <= u < 1 -> (log_uniform_lt u a = true <-> u < Rmin 1 (exp a)).
Proof.
  intros [Hu H1]. rewrite log_uniform_lt_spec by assumption.
  unfold Rmin. destruct (Rle_dec 1 (exp a)); split; intro H; lra.
Qed.

(** ** Loops *)

Lemma for_loop_app {S : Type} (body : S -> nat -> result S) (st : S)
  (l1 l2 : list nat) :
  for_loop body st (l1 ++ l2)
  = rbind (for_loop body st l1) (fun st' => for_loop body st' l2).
Proof.
  revert st; induction l1 as [|i l1 IH]; intro st; simpl; auto.
  destruct (body st i); simpl; auto.
Qed.

(** A counter that grows by at most [k] in every iteration grows by at most
    [k] times the number of iterations. *)
Lemma for_loop_counter {S : Type} (body : S -> nat -> result S) (cnt : S -> nat)
  (k : nat) (idx : list nat) (st st' : S) :
  (forall s i s', body s i = Ok s' -> (cnt s' <= cnt s + k)%nat) ->
  for_loop body st idx = Ok st' ->
  (cnt st' <= cnt st + k * length idx)%nat.
Proof.
  intro Hbody. revert st; induction idx as [|i idx IH]; intros st H; simpl in H.
  - injection H as <-. lia.
  - destruct (body st i) as [s1|e] eqn:E; simpl in H; [|discriminate].
    apply Hbody in E. apply IH in H. simpl length. lia.
Qed.

(** A property kept by every iteration is kept by the loop. *)
Lemma for_loop_invariant {S : Type} (body : S -> nat -> result S) (P : S -> Prop)
  (idx : list nat) (st st' : S) :
  (forall s i s', body s i = Ok s' -> P s -> P s') ->
  for_loop body st idx = Ok st' -> P st -> P st'.
Proof.
  intro Hbody. revert st; induction idx as [|i idx IH]; intros st H HP; simpl in H.
  - now injection H as <-.
  - destruct (body st i) as [s1|e] eqn:E; simpl in H; [|discriminate].
    eapply IH; eauto.
Qed.

(** Unfolds the calls of a code path that returned. *)
Ltac inv_ok H :=
  repeat first
    [ match type of H with
      | rbind ?e _ = Ok _ =>
          let E := fresh "E" in
          destruct e eqn:E; simpl rbind in H; [|discriminate H]
      | (let '(_, _) := ?p in _) = Ok _ => destruct p
      | (if ?b then _ else _) = Ok _ =>
          let E := fresh "E" in destruct b eqn:E
      | Raise _ = Ok _ => discriminate H
      end ].

Lemma set_length {A : Type} (a a' : list A) (i : nat) (v : A) :
  set a i v = Ok a' -> length a' = length a /\ (i < length a)%nat /\ a' = upd a i v.
Proof.
  unfold set. destruct (i <? length a)%nat eqn:E; [|discriminate].
  intro H. injection H as <-. apply Nat.ltb_lt in E.
  now rewrite upd_length.
Qed.

Lemma get_some {A : Type} (a : list A) (i : nat) (x : A) :
  get a i = Ok x <-> nth_error a i = Some x.
Proof.
  unfold get. destruct (nth_error a i); split; intro H;
    try discriminate; congruence.
Qed.

(** ** Slices *)

Lemma range3_count (start n step : nat) :
  (0 < step)%nat ->
  range3 start (n * step + start) step = map (fun k => start + k * step)%nat (seq 0 n).
Proof.
  intro H. unfold range3. f_equal. f_equal.
  replace (n * step + start - start + step - 1)%nat with (n * step + (step - 1))%nat
    by lia.
  rewrite Nat.div_add_l by lia. rewrite Nat.div_small by lia. lia.
Qed.

Lemma pick_length {A : Type} (a : list A) (g : nat -> nat) (ks : list nat) :
  (forall k, In k ks -> (g k < length a)%nat) ->
  length (flat_map (fun i => match nth_error a i with Some x => [x] | None => [] end)
                   (map g ks)) = length ks.
Proof.
  induction ks as [|k ks IH]; intro Hall; simpl; auto.
  destruct (nth_error a (g k)) eqn:E.
  - simpl. f_equal. apply IH. intros k' Hk'. apply Hall. now right.
  - apply nth_error_None in E. specialize (Hall k (or_introl eq_refl)). lia.
Qed.

Lemma strided_length {A : Type} (a : list A) (start n step : nat) :
  (0 < step)%nat -> length a = (n * step + start)%nat ->
  length (strided a start (n * step + start) step) = n.
Proof.
  intros Hstep Hlen. unfold strided.
  rewrite Hlen, Nat.min_id, range3_count by assumption.
  rewrite pick_length; [apply length_seq|].
  intros k Hk. apply in_seq in Hk. rewrite Hlen. nia.
Qed.

(** ** Bounds on the acceptance ratio *)

Lemma ratio_bounds (n den : Z) (k : nat) (r : R) :
  (0 <= n <= Z.of_nat k * den)%Z -> (0 <= den)%Z ->
  py_div n den = Ok r -> 0 <= r <= INR k.
Proof.
  intros [H0 Hn] Hden. unfold py_div.
  destruct (den =? 0)%Z eqn:E; [discriminate|].
  apply Z.eqb_neq in E. intro H. injection H as <-.
  assert (Hd : 0 < IZR den) by (apply IZR_lt; lia).
  assert (Hn0 : 0 <= IZR n) by (apply IZR_le; lia).
  assert (Hnk : IZR n <= INR k * IZR den).
  { rewrite INR_IZR_INZ, <- mult_IZR. now apply IZR_le. }
  pose proof (Rinv_0_lt_compat _ Hd) as Hinv.
  unfold Rdiv. split.
  - apply Rmult_le_pos; lra.
  - replace (INR k) with (INR k * IZR den * / IZR den) by (field; lra).
    apply Rmult_le_compat_r; lra.
Qed.

Section Bounds.

Context {Params : Type}.
Variable m : @mcmc Params.
Variable t : tape.

Lemma mh_step_inv (st st' : list vec * R * nat) (i : nat) :
  mh_step m t st i = Ok st' ->
  (snd st' <= snd st + 1)%nat /\
  length (fst (fst st')) = length (fst (fst st)).
Proof.
  destruct st as [[samples lpc] n]. unfold mh_step.
  destruct (mh_draw t i) as [z u]. intro H. inv_ok H;
    injection H as <-;
    match goal with
    | Hs : set _ _ _ = Ok _ |- _ => apply set_length in Hs; destruct Hs as (Hl & _ & _)
    end; simpl; split; auto; lia.
Qed.

Lemma run_mh_bounds (samples : list vec) (r : R) :
  run_mh m t = Ok (samples, r) ->
  0 <= r <= 1 /\ length samples = (nsamples m * jump m + nburn m)%nat.
Proof.
  unfold run_mh. destruct (seed m) as [x0|xs]; [|discriminate].
  intro H. inv_ok H. injection H as <- <-.
  match goal with
  | Hs : set _ 0%nat _ = Ok _ |- _ =>
      apply set_length in Hs; destruct Hs as (Hl & Hrows & _)
  end.
  unfold zeros in Hl, Hrows. rewrite repeat_length in Hl, Hrows.
  match goal with
  | Hf : for_loop _ ?st0 _ = Ok ?st1 |- _ =>
      pose proof (for_loop_counter _ (fun s => snd s) 1 _ _ _
                    (fun s i s' Hs => proj1 (mh_step_inv s s' i Hs)) Hf) as Hcnt;
      pose proof (for_loop_invariant _
                    (fun s => length (fst (fst s)) = length (fst (fst st0))) _ _ _
                    (fun s i s' Hs HP =>
                       eq_trans (proj2 (mh_step_inv s s' i Hs)) HP) Hf eq_refl) as Hlen
  end.
  simpl in Hcnt, Hlen. rewrite length_seq in Hcnt.
  split; [|congruence].
  match goal with
  | Hd : py_div _ _ = Ok _ |- _ =>
      apply (ratio_bounds _ _ 1) in Hd; [simpl in Hd; lra| |]
  end; unfold mh_denominator, n_iter in *; lia.
Qed.

Lemma set2_length (a a' : list vec) (i j : nat) (v : R) :
  set2 a i j v = Ok a' -> length a' = length a.
Proof.
  unfold set2. intro H. inv_ok H.
  apply set_length in H. tauto.
Qed.

Lemma mmh_joint_step_inv (i : nat) (x : vec) (st st' : vec * vec * R * nat)
  (j : nat) :
  mmh_joint_step m t i x st j = Ok st' -> (snd st' <= snd st + 1)%nat.
Proof.
  destruct st as [[[candidate current] lpc] n]. unfold mmh_joint_step.
  destruct (mmh_draw t i j) as [z u]. intro H. inv_ok H;
    injection H as <-; simpl; lia.
Qed.

Lemma mmh_joint_iter_inv (st st' : list vec * nat) (i : nat) :
  mmh_joint_iter m t st i = Ok st' ->
  (snd st' <= snd st + dimension m)%nat /\ length (fst st') = length (fst st).
Proof.
  destruct st as [samples n]. unfold mmh_joint_iter. intro H. inv_ok H.
  match goal with
  | Hf : for_loop _ _ _ = Ok ?inner |- _ =>
      pose proof (for_loop_counter _ (fun s => snd s) 1 _ _ _
                    (fun s j s' Hs => mmh_joint_step_inv i _ s s' j Hs) Hf) as Hcnt
  end.
  injection H as <-.
  match goal with
  | Hs : set _ _ _ = Ok _ |- _ => apply set_length in Hs; destruct Hs as (Hl & _ & _)
  end.
  simpl in *. rewrite length_seq in Hcnt. split; [lia|assumption].
Qed.

Lemma mmh_marginal_step_inv (i : nat) (st st' : list vec * list R * nat) (j : nat) :
  mmh_marginal_step m t i st j = Ok st' ->
  (snd st' <= snd st + 1)%nat /\
  length (fst (fst st')) = length (fst (fst st)).
Proof.
  destruct st as [[samples lst] n]. unfold mmh_marginal_step.
  destruct (mmh_draw t i j) as [z u]. intro H. inv_ok H;
    injection H as <-;
    match goal with
    | Hs : set2 _ _ _ _ = Ok _ |- _ => apply set2_length in Hs
    end; simpl; split; auto; lia.
Qed.

Lemma mmh_marginal_iter_inv (st st' : list vec * list R * nat) (i : nat) :
  for_loop (mmh_marginal_step m t i) st (seq 0 (dimension m)) = Ok st' ->
  (snd st' <= snd st + dimension m)%nat /\
  length (fst (fst st')) = length (fst (fst st)).
Proof.
  intro H. split.
  - pose proof (for_loop_counter _ (fun s => snd s) 1 _ _ _
                  (fun s j s' Hs => proj1 (mmh_marginal_step_inv i s s' j Hs)) H)
      as Hcnt.
    rewrite length_seq in Hcnt. simpl in Hcnt. lia.
  - exact (for_loop_invariant _
             (fun s => length (fst (fst s)) = length (fst (fst st))) _ _ _
             (fun s j s' Hs HP =>
                eq_trans (proj2 (mmh_marginal_step_inv i s s' j Hs)) HP) H eq_refl).
Qed.

(** In MMH every iteration tests one proposal per coordinate, and the
    counter is divided by the number of iterations: the reported ratio is
    bounded by the dimension. *)
Lemma run_mmh_bounds (samples : list vec) (r : R) :
  run_mmh m t = Ok (samples, r) ->
  0 <= r <= INR (dimension m) /\
  length samples = (nsamples m * jump m + nburn m)%nat.
Proof.
  unfold run_mmh. destruct (seed m) as [x0|xs]; [|discriminate].
  intro H.
  destruct (set (zeros (nsamples m * jump m + nburn m) (dimension m)) 0 x0)
    as [samples1|e] eqn:E1; simpl rbind in H; [|discriminate].
  apply set_length in E1. destruct E1 as (Hl & Hrows & _).
  unfold zeros in Hl, Hrows. rewrite repeat_length in Hl, Hrows.
  destruct (pdf_target_type_marginal m).
  - destruct (pdf_target m) as [[f|fs]|]; try discriminate.
    inv_ok H. injection H as <- <-.
    match goal with
    | Hf : for_loop _ ?st0 _ = Ok ?st1 |- _ =>
        pose proof (for_loop_counter _ (fun s => snd s) (dimension m) _ _ _
                      (fun s i s' Hs => proj1 (mmh_marginal_iter_inv s s' i Hs)) Hf)
          as Hcnt;
        pose proof (for_loop_invariant _
                      (fun s => length (fst (fst s)) = length (fst (fst st0))) _ _ _
                      (fun s i s' Hs HP =>
                         eq_trans (proj2 (mmh_marginal_iter_inv s s' i Hs)) HP)
                      Hf eq_refl) as Hlen
    end.
    simpl in Hcnt, Hlen. rewrite length_seq in Hcnt.
    split; [|congruence].
    match goal with
    | Hd : py_div _ _ = Ok _ |- _ =>
        apply (ratio_bounds _ _ (dimension m)) in Hd; [exact Hd| |]
    end; unfold mh_denominator, n_iter in *; nia.
  - inv_ok H. injection H as <- <-.
    match goal with
    | Hf : for_loop _ ?st0 _ = Ok ?st1 |- _ =>
        pose proof (for_loop_counter _ (fun s => snd s) (dimension m) _ _ _
                      (fun s i s' Hs => proj1 (mmh_joint_iter_inv s s' i Hs)) Hf)
          as Hcnt;
        pose proof (for_loop_invariant _
                      (fun s => length (fst s) = length (fst st0)) _ _ _
                      (fun s i s' Hs HP =>
                         eq_trans (proj2 (mmh_joint_iter_inv s s' i Hs)) HP)
                      Hf eq_refl) as Hlen
    end.
    simpl in Hcnt, Hlen. rewrite length_seq in Hcnt.
    split; [|congruence].
    match goal with
    | Hd : py_div _ _ = Ok _ |- _ =>
        apply (ratio_bounds _ _ (dimension m)) in Hd; [exact Hd| |]
    end; unfold mh_denominator, n_iter in *; nia.
Qed.

(** *** The ensemble sampler *)

(** [list_log_p_current] holds the log-density of the rows filled so far. *)
Definition cache_ok (f : vec -> Params -> R) (samples : list vec) (lst : list R)
  : Prop :=
  forall k lp, nth_error lst k = Some lp ->
    exists x, nth_error samples k = Some x /\ lp = f x (pdf_target_params m).

(** The state of the loop after [k] iterations. *)
Definition stretch_inv (f : vec -> Params -> R) (k : nat)
  (st : list vec * list R * nat) : Prop :=
  length (fst (fst st)) = (nsamples m * jump m + nburn m)%nat /\
  length (snd (fst st)) = (ensemble_size m + k)%nat /\
  cache_ok f (fst (fst st)) (snd (fst st)) /\
  (snd st <= k)%nat.

Lemma mapM_Forall2 {A B : Type} (g : A -> result B) (l : list A) (bs : list B) :
  mapM g l = Ok bs -> Forall2 (fun a b => g a = Ok b) l bs.
Proof.
  revert bs; induction l as [|a l IH]; intros bs H; simpl in H.
  - injection H as <-. constructor.
  - inv_ok H. injection H as <-. constructor; auto.
Qed.

Lemma assign_rows_length (out out' : list vec) (j n : nat) (src : list vec) :
  assign_rows out j n src = Ok out' -> length out' = length out.
Proof.
  unfold assign_rows, slice. intro H.
  set (a := length (firstn (j + n - j) (skipn j out))) in *.
  assert (Ha : (a <= length out - j)%nat).
  { subst a. rewrite length_firstn, length_skipn. lia. }
  inv_ok H; injection H as <-.
  - apply Nat.eqb_eq in E.
    rewrite !length_app, length_firstn, length_skipn. lia.
  - rewrite !length_app, length_firstn, length_skipn, repeat_length. lia.
Qed.

Lemma stretch_init_inv (f : vec -> Params -> R) (st0 : list vec * list R * nat) :
  log_pdf_target m = Joint f ->
  (3 <= ensemble_size m)%nat ->
  stretch_init m = Ok st0 ->
  stretch_inv f 0 st0.
Proof.
  intros Hf HM. unfold stretch_init.
  assert (HMs : forall xs, seed m = Ensemble xs -> ensemble_size m = length xs).
  { intros xs Hs. unfold ensemble_size. now rewrite Hs. }
  destruct (seed m) as [x|xs]; [discriminate|].
  specialize (HMs xs eq_refl). rewrite HMs in *.
  intro H.
  destruct (assign_rows _ 0 (length xs) xs) as [samples1|e] eqn:E1;
    simpl rbind in H; [|discriminate].
  destruct (mapM _ (seq 0 (length xs))) as [lst|e] eqn:E2;
    simpl rbind in H; [|discriminate].
  injection H as <-.
  pose proof (assign_rows_length _ _ _ _ _ E1) as Hlen.
  unfold zeros in Hlen. rewrite repeat_length in Hlen.
  apply mapM_Forall2 in E2.
  unfold stretch_inv; simpl. rewrite HMs. repeat split; auto.
  - apply Forall2_length in E2. rewrite length_seq in E2. lia.
  - intros k lp Hk.
    assert (Hlt : (k < length xs)%nat).
    { apply Forall2_length in E2. rewrite length_seq in E2.
      rewrite E2. apply nth_error_Some. congruence. }
    assert (Hseq : nth_error (seq 0 (length xs)) k = Some k).
    { rewrite nth_error_seq. apply Nat.ltb_lt in Hlt. now rewrite Hlt. }
    pose proof (Forall2_nth_error _ _ _ _ _ _ E2 Hseq Hk) as Hg.
    simpl in Hg. inv_ok Hg. rewrite Hf in Hg. simpl in Hg.
    injection Hg as <-. apply get_some in E. eauto.
Qed.

Lemma stretch_step_inv (f : vec -> Params -> R) (k : nat)
  (st st' : list vec * list R * nat) :
  log_pdf_target m = Joint f ->
  (1 <= ensemble_size m)%nat ->
  stretch_inv f k st ->
  stretch_step m t st (ensemble_size m - 1 + k) = Ok st' ->
  stretch_inv f (S k) st'.
Proof.
  intros Hf HM (Hlen & Hlst & Hcache & Hn).
  destruct st as [[samples lst] n]. simpl in *.
  unfold stretch_step.
  destruct (stretch_draw t (ensemble_size m - 1 + k)) as [[c U] u].
  replace (ensemble_size m - 1 + k + 1 - ensemble_size m)%nat with k by lia.
  rewrite Hf. intro H. inv_ok H; injection H as <-;
    match goal with
    | Hs : set _ _ _ = Ok _ |- _ =>
        apply set_length in Hs; destruct Hs as (Hl & Hi & ->)
    end;
    unfold stretch_inv; simpl;
    (split; [congruence|]);
    (split; [rewrite length_app; simpl; lia|]);
    (split; [|lia]);
    intros j lp Hj;
    (destruct (Nat.lt_ge_cases j (length lst)) as [Hlt|Hge];
     [ rewrite nth_error_app1 in Hj by assumption;
       destruct (Hcache j lp Hj) as (x & Hx & Hlp);
       exists x; split; [|assumption];
       rewrite nth_error_upd_other by lia; assumption
     | assert (Hjeq : j = length lst);
       [ match type of Hj with
         | nth_error ?l j = Some _ =>
             assert (Hjl : (j < length l)%nat)
               by (apply nth_error_Some; rewrite Hj; discriminate)
         end; rewrite length_app in Hjl; simpl in Hjl; lia
       | subst j; rewrite nth_error_app2, Nat.sub_diag in Hj by lia;
         simpl in Hj; injection Hj as <-;
         replace (length lst) with (S (ensemble_size m - 1 + k)) by lia;
         eexists; split; [apply nth_error_upd_same; assumption|] ] ]).
  - reflexivity.
  - match goal with
    | Hg : get lst k = Ok ?lp, Hw : get samples k = Ok ?w |- _ =>
        apply get_some in Hg, Hw; destruct (Hcache k lp Hg) as (x & Hx & Hlp);
        congruence
    end.
Qed.

Lemma stretch_loop_inv (f : vec -> Params -> R) (k : nat)
  (st0 st : list vec * list R * nat) :
  log_pdf_target m = Joint f ->
  (3 <= ensemble_size m)%nat ->
  stretch_init m = Ok st0 ->
  for_loop (stretch_step m t) st0 (seq (ensemble_size m - 1) k) = Ok st ->
  stretch_inv f k st.
Proof.
  intros Hf HM H0. revert st. induction k as [|k IH]; intros st H.
  - simpl in H. injection H as <-. now apply stretch_init_inv.
  - rewrite seq_S, for_loop_app in H.
    destruct (for_loop _ st0 (seq (ensemble_size m - 1) k)) as [st1|e];
      simpl in H; [|discriminate].
    destruct (stretch_step m t st1 (ensemble_size m - 1 + k)) as [st2|e] eqn:E;
      simpl in H; [|discriminate].
    injection H as <-.
    eapply stretch_step_inv; eauto. lia.
Qed.

Lemma run_stretch_bounds (f : vec -> Params -> R) (samples : list vec) (r : R) :
  log_pdf_target m = Joint f ->
  (3 <= ensemble_size m)%nat ->
  run_stretch m t = Ok (samples, r) ->
  0 <= r <= 1 /\ length samples = (nsamples m * jump m + nburn m)%nat.
Proof.
  intros Hf HM. unfold run_stretch, stretch_range. intro H.
  destruct (stretch_init m) as [st0|e] eqn:E0; simpl rbind in H; [|discriminate].
  destruct (for_loop (stretch_step m t) st0 _) as [[[smp lst] n]|e] eqn:E1;
    simpl rbind in H; [|discriminate].
  destruct (py_div _ _) as [ratio|e] eqn:E2; simpl rbind in H; [|discriminate].
  injection H as <- <-.
  destruct (stretch_loop_inv f _ st0 _ Hf HM E0 E1) as (Hlen & _ & _ & Hn).
  simpl in Hlen, Hn. split; [|assumption].
  destruct (Nat.le_gt_cases (ensemble_size m) (nsamples m * jump m)) as [Hge|Hlt].
  - apply (ratio_bounds _ _ 1) in E2; [simpl in E2; lra| |]; nia.
  - assert (n = 0)%nat by lia. subst n.
    unfold py_div in E2. destruct (_ =? 0)%Z; [discriminate|].
    injection E2 as <-. simpl. rewrite Rdiv_0_l. lra.
Qed.

Lemma stretch_output_length (samples output out : list vec) (M : nat)
  (starts : list nat) (j : nat) :
  stretch_output samples output M starts j = Ok out -> length out = length output.
Proof.
  revert output j; induction starts as [|i starts IH]; intros output j H;
    simpl in H.
  - now injection H as <-.
  - destruct (assign_rows output j M _) as [o1|e] eqn:E; simpl rbind in H;
      [|discriminate].
    apply IH in H. apply assign_rows_length in E. congruence.
Qed.

(** A run that returns, returns [nsamples] rows. *)
Lemma run_mcmc_sample_count (out : list vec) (r : R) :
  run_mcmc m t = Ok (out, r) -> length out = nsamples m.
Proof.
  unfold run_mcmc. destruct (algorithm_ m); intro H.
  - destruct (run_mh m t) as [[smp ratio]|e] eqn:E; simpl rbind in H;
      [|discriminate].
    destruct (jump m =? 0)%nat eqn:Ej; [discriminate|].
    injection H as <- <-. apply Nat.eqb_neq in Ej.
    apply run_mh_bounds in E. destruct E as [_ Hlen].
    simpl. apply strided_length; [lia|assumption].
  - destruct (run_mmh m t) as [[smp ratio]|e] eqn:E; simpl rbind in H;
      [|discriminate].
    destruct (jump m =? 0)%nat eqn:Ej; [discriminate|].
    injection H as <- <-. apply Nat.eqb_neq in Ej.
    apply run_mmh_bounds in E. destruct E as [_ Hlen].
    simpl. apply strided_length; [lia|assumption].
  - destruct (run_stretch m t) as [[smp ratio]|e] eqn:E; simpl rbind in H;
      [|discriminate].
    destruct (jump m * ensemble_size m =? 0)%nat; [discriminate|].
    destruct (stretch_output _ _ _ _ _) as [o|e] eqn:Eo; simpl rbind in H;
      [|discriminate].
    injection H as <- <-.
    apply stretch_output_length in Eo. rewrite Eo.
    unfold zeros. apply repeat_length.
Qed.

(** The ratio reported by MH and by the ensemble sampler is a proportion. *)
Lemma run_mcmc_ratio_mh_stretch (f : vec -> Params -> R) (out : list vec) (r : R) :
  algorithm_ m <> MMH ->
  log_pdf_target m = Joint f ->
  (algorithm_ m = Stretch -> (3 <= ensemble_size m)%nat) ->
  run_mcmc m t = Ok (out, r) -> 0 <= r <= 1.
Proof.
  intros Halg Hf HM. unfold run_mcmc.
  destruct (algorithm_ m); [|congruence|]; intro H.
  - destruct (run_mh m t) as [[smp ratio]|e] eqn:E; simpl rbind in H;
      [|discriminate].
    destruct (jump m =? 0)%nat; [discriminate|]. injection H as _ <-.
    now apply run_mh_bounds in E.
  - destruct (run_stretch m t) as [[smp ratio]|e] eqn:E; simpl rbind in H;
      [|discriminate].
    destruct (jump m * ensemble_size m =? 0)%nat; [discriminate|].
    destruct (stretch_output _ _ _ _ _) as [o|e]; simpl rbind in H;
      [|discriminate].
    injection H as _ <-.
    apply (run_stretch_bounds f) in E; tauto.
Qed.

(** The ratio reported by MMH is bounded by the dimension. *)
Lemma run_mcmc_ratio_mmh (out : list vec) (r : R) :
  algorithm_ m = MMH ->
  run_mcmc m t = Ok (out, r) -> 0 <= r <= INR (dimension m).
Proof.
  intros Halg. unfold run_mcmc. rewrite Halg. intro H.
  destruct (run_mmh m t) as [[smp ratio]|e] eqn:E; simpl rbind in H;
    [|discriminate].
  destruct (jump m =? 0)%nat; [discriminate|]. injection H as _ <-.
  now apply run_mmh_bounds in E.
Qed.

End Bounds.

(** ** A two-dimensional MMH run in which every proposal is accepted *)

(** An unnormalised flat target. *)
Definition flat_target : @target unit := Joint (fun _ _ => 0).

Definition mmh_two : @mcmc unit :=
  mkMcmc 2 [Normal; Normal] [1; 1] None flat_target tt false MMH 1 2
         (Point [0; 0]) 0.

(** Every standard variate is [0] and every uniform of the test is [1/2]. *)
Definition steady_tape : tape :=
  mkTape (fun _ => ([0; 0], / 2)) (fun _ _ => (0, / 2)) (fun _ => (O, 0, / 2)).

Lemma half_accepted : log_uniform_lt (/ 2) (0 - 0) = true.
Proof.
  apply log_uniform_lt_true; [lra|]. rewrite Rminus_diag, exp_0. lra.
Qed.

(** C1 fails on MMH: with two coordinates, a chain of two states
    ([nsamples = 2], [jump = 1], no burn-in) has one iteration, both of whose
    coordinate proposals are accepted; the reported ratio is 2 / 1 = 2. *)
Theorem C1_mmh_accept_ratio_exceeds_one :
  mcmc_new mmh_two steady_tape
    = Ok ([[0; 0]; [normal 0 1 0; normal 0 1 0]], 2 / 1) /\
  1 < 2 / 1.
Proof.
  split; [|lra].
  unfold mcmc_new, run_mcmc, run_mmh. cbn -[log_uniform_lt].
  rewrite half_accepted. cbn -[log_uniform_lt].
  rewrite half_accepted. reflexivity.
Qed.

(** A chain of a single state has no iteration and the ratio is [0 / 0]. *)
Definition mh_single : @mcmc unit :=
  mkMcmc 1 [Normal] [1] None flat_target tt false MH 1 1 (Point [0]) 0.

Example mh_single_state_raises :
  mcmc_new mh_single steady_tape = Raise ZeroDivisionError.
Proof. reflexivity. Qed.

(** ** The blocks copied by the ensemble sampler

    With [jump > 1] the copy loop takes one block of [ensemble_size] rows
    out of [jump]; when [nsamples] is not a multiple of the ensemble size the
    last rows of [output] keep their initial zeros, or the last block does
    not fit and the assignment raises. *)

Definition numbered (k : nat) : list vec := map (fun i => [INR i]) (seq 0 k).

Example stretch_output_filler :
  stretch_output (numbered 8) (zeros 4 1) 3 (range3 (2 * 3 - 3) 8 (2 * 3)) 0
  = Ok [[INR 3]; [INR 4]; [INR 5]; [0]].
Proof. reflexivity. Qed.

Example stretch_output_misfit :
  stretch_output (numbered 14) (zeros 7 1) 4 (range3 (2 * 4 - 4) 14 (2 * 4)) 0
  = Raise ValueError.
Proof. reflexivity. Qed.

(** ** The stretch move *)

(** What one step of the ensemble sampler does at iteration [i], in the words
    of the specification: the companion is one of the [M - 1] rows that
    follow the walker, the stretch factor and the candidate are as given, and
    the move is taken exactly by the draws [u] below
    [min(1, Z^(d-1) * exp(log_p(candidate) - log_p(walker)))]. *)
Definition stretch_move_spec {Params : Type} (m : @mcmc Params) (t : tape)
  (f : vec -> Params -> R) (samples : list vec) (lst : list R) (n i c : nat)
  (a U u : R) : Prop :=
  let M := ensemble_size m in
  exists s0 walker,
    length (complementary_ensemble samples M i) = (M - 1)%nat /\
    (forall j, (j < M - 1)%nat ->
       nth_error (complementary_ensemble samples M i) j
         = nth_error samples (i + 2 - M + j) /\
       (i + 1 - M < i + 2 - M + j <= i)%nat) /\
    nth_error samples (i + 1 - M) = Some walker /\
    nth_error (complementary_ensemble samples M i) c = Some s0 /\
    let zf := ((a - 1) * U + 1) ^ 2 / a in
    let candidate := vadd s0 (vscale zf (vsub walker s0)) in
    let log_p_c := f candidate (pdf_target_params m) in
    let log_p_w := f walker (pdf_target_params m) in
    let p_accept := Rmin 1 (zf ^ (dimension m - 1) * exp (log_p_c - log_p_w)) in
    stretch_step m t (samples, lst, n) i
    = Ok (if Rlt_dec u p_accept
          then (upd samples (S i) candidate, lst ++ [log_p_c], S n)
          else (upd samples (S i) walker, lst ++ [log_p_w], n)).

Lemma stretch_factor_pos (a U : R) :
  0 < a -> 0 <= U < 1 -> 0 < stretch_factor a U.
Proof.
  intros Ha [HU0 HU1]. unfold stretch_factor.
  apply Rdiv_lt_0_compat; [|assumption].
  assert (Hb : 0 < 1 + (a - 1) * U) by nra.
  simpl. nra.
Qed.

Lemma stretch_accept_bound (d : nat) (s lc lw : R) :
  (1 <= d)%nat -> 0 < s ->
  exp (stretch_log_p_accept d s lc lw) = s ^ (d - 1) * exp (lc - lw).
Proof.
  intros Hd Hs. unfold stretch_log_p_accept.
  replace (Z.of_nat d - 1)%Z with (Z.of_nat (d - 1)) by lia.
  rewrite <- pow_powerRZ.
  replace (ln (s ^ (d - 1)) + lc - lw) with (ln (s ^ (d - 1)) + (lc - lw)) by ring.
  rewrite exp_plus, exp_ln; [reflexivity|]. now apply pow_lt.
Qed.

Section StretchMove.

Context {Params : Type}.
Variable m : @mcmc Params.
Variable t : tape.

(** C4: in every step of the ensemble sampler, with [M] the number of seed
    points, the companion [s0] is one of the [M - 1] current walkers, none of
    which is the walker being updated; the stretch factor is
    [Z = ((a - 1) U + 1)^2 / a]; the candidate is [s0 + Z (walker - s0)]; and
    the move is accepted by the draws of the uniform on [[0, 1)] that lie below
    [min(1, Z^(d-1) exp(log_p(candidate) - log_p(walker)))]. *)
Theorem C4_stretch_move (f : vec -> Params -> R) (k : nat)
  (st0 : list vec * list R * nat) (samples : list vec) (lst : list R)
  (n c : nat) (a U u : R) (scale_rest : list R) :
  let M := ensemble_size m in
  let i := (M - 1 + k)%nat in
  log_pdf_target m = Joint f ->
  (3 <= M)%nat ->
  (1 <= dimension m)%nat ->
  pdf_proposal_scale m = a :: scale_rest ->
  0 < a ->
  stretch_init m = Ok st0 ->
  for_loop (stretch_step m t) st0 (seq (M - 1) k) = Ok (samples, lst, n) ->
  (S i < nsamples m * jump m)%nat ->
  stretch_draw t i = (c, U, u) ->
  (c < M - 1)%nat -> 0 <= U < 1 -> 0 <= u < 1 ->
  stretch_move_spec m t f samples lst n i c a U u.
Proof.
  intros M i Hf HM Hd Hscale Ha H0 Hloop Hi Hdraw Hc HU Hu.
  destruct (stretch_loop_inv m t f k st0 _ Hf HM H0 Hloop)
    as (Hlen & Hlst & Hcache & _).
  simpl in Hlen, Hlst, Hcache. fold M in Hlst.
  assert (Ei1 : (i + 1 - M = k)%nat) by (subst i; lia).
  assert (Ei2 : (i + 2 - M = S k)%nat) by (subst i; lia).
  assert (Ecomp : complementary_ensemble samples M i
                  = firstn (M - 1) (skipn (S k) samples)).
  { unfold complementary_ensemble, slice. rewrite Ei2. f_equal. subst i. lia. }
  assert (Hnth : forall j, (j < M - 1)%nat ->
            nth_error (complementary_ensemble samples M i) j
            = nth_error samples (S k + j)).
  { intros j Hj. rewrite Ecomp, nth_error_firstn.
    apply Nat.ltb_lt in Hj. rewrite Hj. apply nth_error_skipn. }
  destruct (nth_error_lt samples (S k + c)) as [s0 Hs0];
    [subst i; lia|].
  destruct (nth_error_lt samples k) as [walker Hw]; [subst i; lia|].
  destruct (nth_error_lt lst k) as [lp Hlp]; [lia|].
  destruct (Hcache k lp Hlp) as (x & Hx & Elp).
  rewrite Hw in Hx. injection Hx as <-.
  exists s0, walker. unfold stretch_move_spec. fold M.
  rewrite Ei1, Ei2.
  split.
  { rewrite Ecomp, length_firstn, length_skipn. subst i. lia. }
  split.
  { intros j Hj. split; [now apply Hnth|]. subst i. lia. }
  split; [assumption|].
  split.
  { rewrite Hnth by assumption. assumption. }
  cbv zeta. unfold stretch_step. fold M. fold i. rewrite Hdraw.
  rewrite Ei1.
  assert (Eg0 : get (complementary_ensemble samples M i) c = Ok s0).
  { apply get_some. rewrite Hnth by assumption. assumption. }
  rewrite Eg0. simpl rbind. rewrite Hscale. simpl rbind.
  apply get_some in Hw. rewrite Hw. simpl rbind.
  rewrite Hf. simpl rbind.
  apply get_some in Hlp. rewrite Hlp. simpl rbind.
  assert (Es : stretch_factor a U = ((a - 1) * U + 1) ^ 2 / a).
  { unfold stretch_factor. f_equal. ring. }
  rewrite Es. fold (stretch_candidate s0 walker (((a - 1) * U + 1) ^ 2 / a)).
  set (zf := ((a - 1) * U + 1) ^ 2 / a) in *.
  set (cand := stretch_candidate s0 walker zf).
  assert (Hzf : 0 < zf) by (rewrite <- Es; now apply stretch_factor_pos).
  assert (Eset : forall v, set samples (S i) v = Ok (upd samples (S i) v)).
  { intro v. unfold set.
    assert (Hlt : (S i < length samples)%nat) by lia.
    apply Nat.ltb_lt in Hlt. now rewrite Hlt. }
  pose proof (log_uniform_lt_min u
                (stretch_log_p_accept (dimension m) zf
                   (f cand (pdf_target_params m)) lp) Hu) as Hacc.
  rewrite stretch_accept_bound in Hacc by assumption.
  subst lp.
  destruct (Rlt_dec u _) as [Hlt|Hnlt].
  - apply Hacc in Hlt. rewrite Hlt, Eset. reflexivity.
  - destruct (log_uniform_lt u _) eqn:E.
    + exfalso. apply Hnlt. apply Hacc. reflexivity.
    + rewrite Eset. reflexivity.
Qed.

End StretchMove.

(** An ensemble of three walkers in the plane on the flat target. *)
Definition stretch_three : @mcmc unit :=
  mkMcmc 2 [Uniform; Uniform] [2; 2] None flat_target tt false Stretch 1 6
         (Ensemble [[0; 0]; [1; 0]; [0; 1]]) 0.

Definition stretch_three_start : list vec * list R * nat :=
  ([[0; 0]; [1; 0]; [0; 1]; [0; 0]; [0; 0]; [0; 0]], [0; 0; 0], O).

Lemma C4_stretch_move_witness :
  stretch_move_spec stretch_three steady_tape (fun _ _ => 0)
    (fst (fst stretch_three_start)) (snd (fst stretch_three_start)) 0 2 0
    2 0 (/ 2).
Proof.
  apply (C4_stretch_move stretch_three steady_tape (fun _ _ => 0) 0
           stretch_three_start _ _ 0%nat 0%nat 2 0 (/ 2) [2]).
  - reflexivity.
  - vm_compute. lia.
  - vm_compute. lia.
  - reflexivity.
  - lra.
  - reflexivity.
  - reflexivity.
  - vm_compute. lia.
  - reflexivity.
  - vm_compute. lia.
  - lra.
  - lra.
Defined.

(* --------------------------------------------------------------------- *)
(** ** The Metropolis-Hastings chain *)


(** A loop whose body returns on every state that satisfies an invariant
    it keeps, returns. *)
Lemma for_loop_total {S : Type} (body : S -> nat -> result S) (P : S -> Prop)
  (idx : list nat) (st : S) :
  (forall s i, In i idx -> P s -> exists s', body s i = Ok s' /\ P s') ->
  P st -> exists st', for_loop body st idx = Ok st' /\ P st'.
Proof.
  revert st; induction idx as [|i idx IH]; intros st Hbody HP; simpl.
  - eauto.
  - destruct (Hbody st i (or_introl eq_refl) HP) as (s1 & E1 & HP1).
    rewrite E1. simpl. apply IH; auto.
    intros s j Hj. apply Hbody. now right.
Qed.


Section Chain.

Context {Params : Type}.
Variable m : @mcmc Params.
Variable t : tape.





End Chain.

Section ChainLaw.

Context {Params : Type}.
Variable m : @mcmc Params.
Variable t : tape.


End ChainLaw.





(* --------------------------------------------------------------------- *)
(** ** The checks of [MCMC.init_mcmc] *)

(** [pdf_proposal_type]: a string or a list of strings; [pdf_proposal_scale]:
    a number or a list of numbers. *)
Inductive type_input :=
| TypeStr (s : string)
| TypeList (l : list string).

Inductive scale_input :=
| ScaleNumber (x : R)
| ScaleList (l : list R).

(** The name of the algorithm as the caller passes it: its characters, and
    whether the object is the interned string that the literals ['MH'],
    ['MMH'] and ['Stretch'] of the source denote.  [==] and [in] compare
    characters, [is] compares objects: a name written as a literal is
    interned, a name built at run time (joined from pieces, read from a
    file) is not. *)
Record name := mkName {
  chars : string;
  interned : bool
}.

(** [self.algorithm is literal] *)
Definition is_literal (a : option name) (literal : string) : bool :=
  match a with
  | Some s => interned s && String.eqb (chars s) literal
  | None => false
  end.

(** The name is the default or an interned string: every test
    [self.algorithm is x] then has the value of [self.algorithm == x]. *)
Definition identified (a : option name) : bool :=
  match a with
  | Some s => interned s
  | None => true
  end.

Section Init.

Context {Params : Type}.

(** The arguments of the constructor; [None] is Python's [None].  The counts
    are non-negative integers and the seed is an array. *)
Record mcmc_args := mkArgs {
  arg_dimension : option nat;
  arg_pdf_proposal_type : option type_input;
  arg_pdf_proposal_scale : option scale_input;
  arg_pdf_target : option (@pdf_input Params);
  arg_log_pdf_target : option (@target Params);
  arg_pdf_target_params : Params;
  arg_algorithm : option name;
  arg_jump : option nat;
  arg_nsamples : option nat;
  arg_seed : option seed_t;
  arg_nburn : option nat
}.

Variable distribution_log_pdf : list string -> vec -> Params -> R.
Variable distribution_log_pdf_axis : string -> R -> Params -> R.

(** [i not in ['Uniform', 'Normal']] raises [ValueError]. *)
Definition parse_proposal (s : string) : result proposal :=
  if String.eqb s "Uniform" then Ok Uniform
  else if String.eqb s "Normal" then Ok Normal
  else Raise ValueError.

(** [self.algorithm not in ['MH', 'MMH', 'Stretch']] raises
    [NotImplementedError]. *)
Definition parse_algorithm (s : string) : result algorithm :=
  if String.eqb s "MH" then Ok MH
  else if String.eqb s "MMH" then Ok MMH
  else if String.eqb s "Stretch" then Ok Stretch
  else Raise NotImplementedError.

(** [self.seed.__len__()], which is also [self.seed.shape[0]]. *)
Definition seed_len (s : seed_t) : nat :=
  match s with
  | Point x => length x
  | Ensemble xs => length xs
  end.

(** [pdf_target] as the chain calls it: a callable, a list of callables, or
    something that cannot be called. *)
Definition callable_target (p : option (@pdf_input Params)) : option target :=
  match p with
  | Some (PdfCallable f) => Some (Joint f)
  | Some (PdfCallables fs) => Some (PerAxis fs)
  | _ => None
  end.

Definition is_stretch (a : algorithm) : bool :=
  match a with Stretch => true | _ => false end.

(** [init_mcmc], check after check; the value is the object that
    [run_mcmc] receives. *)
Definition init_mcmc (a : mcmc_args) : result mcmc :=
  let dimension := match arg_dimension a with None => 1%nat | Some d => d end in
  match arg_nsamples a with
  | None => Raise NotImplementedError
  | Some nsamples =>
      let nburn := match arg_nburn a with None => O | Some b => b end in
      let jump := match arg_jump a with None => 1%nat | Some j => j end in
      if (jump =? 0)%nat then Raise ValueError
      else
        let seed :=
          match arg_seed a with
          | None => Point (repeat 0 dimension)
          | Some s => s
          end in
        if (if is_literal (arg_algorithm a) "Stretch"
            then (seed_len seed <? 3)%nat
            else negb (seed_len seed =? dimension)%nat)
        then Raise NotImplementedError
        else
          alg <- match arg_algorithm a with
                 | None => Ok MMH
                 | Some s => parse_algorithm (chars s)
                 end ;;
          let types0 :=
            match arg_pdf_proposal_type a with
            | None => ["Uniform"%string]
            | Some (TypeStr s) => [s]
            | Some (TypeList l) => l
            end in
          types1 <- mapM parse_proposal types0 ;;
          types <-
            (if is_literal (arg_algorithm a) "MH"
                && negb (length types1 =? 1)%nat then Raise ValueError
             else if negb (length types1 =? dimension)%nat then
               if (length types1 =? 1)%nat
               then Ok (concat (repeat types1 dimension))
               else Raise NotImplementedError
             else Ok types1) ;;
          let scale0 :=
            match arg_pdf_proposal_scale a with
            | None => [if is_stretch alg then 2 else 1]
            | Some (ScaleNumber x) => [x]
            | Some (ScaleList l) => l
            end in
          scale <-
            (if negb (length scale0 =? dimension)%nat then
               if (length scale0 =? 1)%nat
               then Ok (concat (repeat scale0 dimension))
               else Raise NotImplementedError
             else Ok scale0) ;;
          tgt <- init_target distribution_log_pdf distribution_log_pdf_axis
                   alg dimension (arg_log_pdf_target a) (arg_pdf_target a) ;;
          Ok (mkMcmc dimension types scale (callable_target (arg_pdf_target a))
                     (fst tgt) (arg_pdf_target_params a) (snd tgt) alg jump
                     nsamples seed nburn)
  end.

(** [MCMC.__init__] after [init_mcmc] on a name that is no interned
    literal: none of the tests [self.algorithm is ...] holds.
    [ensemble_size] is never assigned, nor is [pdf_target_type] unless
    [init_mcmc] has found a list of targets, and [run_mcmc], whose branches
    compare the name with [==], raises [AttributeError] where it reads them:
    Stretch at once, MMH on a joint target after the seed is stored, MH and
    MMH on marginal targets when the chain is complete and the test of the
    return statement fails. *)
Definition mcmc_new_unidentified (m : @mcmc Params) (t : tape)
  : result (list vec * R) :=
  match algorithm_ m with
  | MH => _ <- run_mh m t ;; Raise AttributeError
  | MMH =>
      if pdf_target_type_marginal m
      then _ <- run_mmh m t ;; Raise AttributeError
      else
        match seed m with
        | Ensemble _ => Raise ValueError
        | Point x0 =>
            _ <- set (zeros (nsamples m * jump m + nburn m) (dimension m)) 0 x0 ;;
            Raise AttributeError
        end
  | Stretch => Raise AttributeError
  end.

(** [MCMC.__init__]: the checks, then the chain. *)
Definition construct (a : mcmc_args) (t : tape) : result (list vec * R) :=
  m <- init_mcmc a ;;
  if identified (arg_algorithm a) then mcmc_new m t
  else mcmc_new_unidentified m t.

End Init.

(** *** What the checks establish *)

Lemma mapM_length {A B : Type} (g : A -> result B) (l : list A) (bs : list B) :
  mapM g l = Ok bs -> length bs = length l.
Proof.
  intro H. apply mapM_Forall2 in H. symmetry. eapply Forall2_length; eauto.
Qed.

Lemma concat_repeat_singleton {A : Type} (l : list A) (d : nat) :
  length l = 1%nat -> length (concat (repeat l d)) = d.
Proof.
  intro H. induction d as [|d IH]; simpl; [reflexivity|].
  rewrite length_app, IH, H. reflexivity.
Qed.

Lemma init_target_joint {Params : Type}
  (dl : list string -> vec -> Params -> R) (da : string -> R -> Params -> R)
  (alg : algorithm) (d : nat) (l0 : option target) (p0 : option pdf_input)
  (tgt : target * bool) :
  init_target dl da alg d l0 p0 = Ok tgt ->
  (alg <> MMH -> exists f, fst tgt = Joint f) /\
  (forall fs, fst tgt = PerAxis fs -> alg = MMH /\ length fs = d).
Proof.
  unfold init_target. intro H.
  destruct l0 as [[f|fs]|]; destruct p0 as [[name|names|g|gs]|];
    simpl in H; try discriminate;
    repeat match type of H with
           | (if ?c then _ else _) = _ => destruct c eqn:?; try discriminate
           end;
    destruct alg; try discriminate; injection H as <-; simpl;
    (split; [intros; try congruence; eauto|]);
    intros fs' Hfs; try discriminate;
    injection Hfs as <-; (split; [reflexivity|]);
    repeat match goal with
           | Hc : negb _ = false |- _ => apply negb_false_iff, Nat.eqb_eq in Hc
           | Hc : _ || _ = false |- _ => apply orb_false_elim in Hc; destruct Hc
           end;
    rewrite ?length_map; auto.
Qed.

(** The facts that a successful [init_mcmc] leaves behind. *)
Definition validated {Params : Type} (a : @mcmc_args Params) (m : @mcmc Params)
  : Prop :=
  jump m <> 0%nat /\
  length (pdf_proposal_type m) = dimension m /\
  length (pdf_proposal_scale m) = dimension m /\
  (is_literal (arg_algorithm a) "Stretch" = false ->
   ensemble_size m = dimension m) /\
  (is_literal (arg_algorithm a) "Stretch" = true ->
   algorithm_ m = Stretch /\ (3 <= ensemble_size m)%nat) /\
  (algorithm_ m <> MMH -> exists f, log_pdf_target m = Joint f) /\
  (forall fs, log_pdf_target m = PerAxis fs ->
     algorithm_ m = MMH /\ length fs = dimension m).

Lemma init_mcmc_validated {Params : Type}
  (dl : list string -> vec -> Params -> R) (da : string -> R -> Params -> R)
  (a : mcmc_args) (m : mcmc) :
  init_mcmc dl da a = Ok m -> validated a m.
Proof.
  unfold init_mcmc. intro H.
  destruct (arg_nsamples a) as [nsamples|]; [|discriminate].
  destruct (_ =? 0)%nat eqn:Ej; [discriminate|]. apply Nat.eqb_neq in Ej.
  match type of H with
  | (if ?c then _ else _) = _ => destruct c eqn:Eseed; [discriminate|]
  end.
  destruct (match arg_algorithm a with
            | None => Ok MMH
            | Some s => parse_algorithm (chars s)
            end)
    as [alg|e] eqn:Ealg; simpl rbind in H; [|discriminate].
  destruct (mapM parse_proposal _) as [types1|e] eqn:Et1; simpl rbind in H;
    [|discriminate].
  match type of H with
  | rbind ?e _ = _ => destruct e as [types|e'] eqn:Etypes; simpl rbind in H;
                      [|discriminate]
  end.
  match type of H with
  | rbind ?e _ = _ => destruct e as [scale|e'] eqn:Escale; simpl rbind in H;
                      [|discriminate]
  end.
  destruct (init_target _ _ _ _ _ _) as [tgt|e] eqn:Etgt; simpl rbind in H;
    [|discriminate].
  injection H as <-.
  destruct (init_target_joint _ _ _ _ _ _ _ Etgt) as [Hjoint Hlist].
  set (d := match arg_dimension a with Some d => d | None => 1%nat end) in *.
  unfold validated, ensemble_size. simpl.
  fold (seed_len (match arg_seed a with
                  | Some s => s | None => Point (repeat 0 d) end)).
  split; [exact Ej|]. split; [|split; [|split; [|split; [|split]]]].
  - destruct (is_literal (arg_algorithm a) "MH" && _); [discriminate|].
    destruct (negb (length types1 =? d)%nat) eqn:E1.
    + destruct (length types1 =? 1)%nat eqn:E2; [|discriminate].
      injection Etypes as <-. apply Nat.eqb_eq in E2.
      now apply concat_repeat_singleton.
    + injection Etypes as <-. now apply negb_false_iff, Nat.eqb_eq in E1.
  - match type of Escale with
    | (if negb (length ?s0 =? d)%nat then _ else _) = _ =>
        destruct (negb (length s0 =? d)%nat) eqn:E1;
        [ destruct (length s0 =? 1)%nat eqn:E2; [|discriminate];
          injection Escale as <-; apply Nat.eqb_eq in E2;
          now apply concat_repeat_singleton
        | injection Escale as <-; now apply negb_false_iff, Nat.eqb_eq in E1 ]
    end.
  - intro Hns. rewrite Hns in Eseed.
    now apply negb_false_iff, Nat.eqb_eq in Eseed.
  - intro Hs. rewrite Hs in Eseed. split.
    + destruct (arg_algorithm a) as [s|]; [|discriminate]. simpl in Hs.
      apply andb_true_iff in Hs. destruct Hs as [_ Hs].
      apply String.eqb_eq in Hs. rewrite Hs in Ealg. simpl in Ealg.
      now injection Ealg as <-.
    + apply Nat.ltb_ge in Eseed. exact Eseed.
  - exact Hjoint.
  - exact Hlist.
Qed.

(** X9: an object that passed [init_mcmc] has a non-zero [jump], one proposal
    type and one proposal scale per dimension, at least three seed points
    when the name of the algorithm is the interned literal ['Stretch'] and a
    seed of the length of the dimension otherwise (the check tests
    [self.algorithm is not 'Stretch']), a single callable log-density for MH
    and Stretch, and, when the log-density is a list, the algorithm MMH and
    one entry per dimension. *)
Theorem init_mcmc_establishes {Params : Type}
  (dl : list string -> vec -> Params -> R) (da : string -> R -> Params -> R)
  (a : mcmc_args) (m : mcmc) :
  init_mcmc dl da a = Ok m ->
  jump m <> 0%nat /\
  length (pdf_proposal_type m) = dimension m /\
  length (pdf_proposal_scale m) = dimension m /\
  (is_literal (arg_algorithm a) "Stretch" = false ->
   ensemble_size m = dimension m) /\
  (is_literal (arg_algorithm a) "Stretch" = true ->
   algorithm_ m = Stretch /\ (3 <= ensemble_size m)%nat) /\
  (algorithm_ m <> MMH -> exists f, log_pdf_target m = Joint f) /\
  (forall fs, log_pdf_target m = PerAxis fs ->
     algorithm_ m = MMH /\ length fs = dimension m).
Proof.
  exact (init_mcmc_validated dl da a m).
Qed.

(** MH on one axis with the defaults of the constructor, the name written
    as the literal ['MH']. *)
Definition mh_args : @mcmc_args unit :=
  mkArgs (Some 1%nat) None None None (Some flat_target) tt
         (Some (mkName "MH" true)) None (Some 3%nat) None None.

(** A Stretch ensemble of three walkers on two axes, the name written as the
    literal ['Stretch']. *)
Definition stretch_args : @mcmc_args unit :=
  mkArgs (Some 2%nat) None None None (Some flat_target) tt
         (Some (mkName "Stretch" true)) None (Some 3%nat)
         (Some (Ensemble [[0; 0]; [1; 0]; [0; 1]])) None.

Definition stretch_checked : @mcmc unit :=
  mkMcmc 2 [Uniform; Uniform] [2; 2] None flat_target tt false Stretch 1 3
         (Ensemble [[0; 0]; [1; 0]; [0; 1]]) 0.

Definition mh_default : @mcmc unit :=
  mkMcmc 1 [Uniform] [1] None flat_target tt false MH 1 3 (Point [0]) 0.

Lemma mh_args_checked :
  init_mcmc (fun _ _ _ => 0) (fun _ _ _ => 0) mh_args = Ok mh_default.
Proof. reflexivity. Qed.

Lemma init_mcmc_establishes_witness :
  jump stretch_checked <> 0%nat /\
  length (pdf_proposal_type stretch_checked) = dimension stretch_checked /\
  length (pdf_proposal_scale stretch_checked) = dimension stretch_checked /\
  (is_literal (arg_algorithm stretch_args) "Stretch" = false ->
   ensemble_size stretch_checked = dimension stretch_checked) /\
  (is_literal (arg_algorithm stretch_args) "Stretch" = true ->
   algorithm_ stretch_checked = Stretch /\
   (3 <= ensemble_size stretch_checked)%nat) /\
  (algorithm_ stretch_checked <> MMH ->
   exists f, log_pdf_target stretch_checked = Joint f) /\
  (forall fs, log_pdf_target stretch_checked = PerAxis fs ->
     algorithm_ stretch_checked = MMH /\ length fs = dimension stretch_checked).
Proof.
  apply (init_mcmc_establishes (fun _ _ _ => 0) (fun _ _ _ => 0) stretch_args
           stretch_checked).
  reflexivity.
Defined.

(** *** A checked MH object runs to its end *)

Section Completes.

Context {Params : Type}.
Variable m : @mcmc Params.
Variable t : tape.

Lemma mh_step_total (f : vec -> Params -> R) (st : list vec * R * nat) (i : nat) :
  log_pdf_target m = Joint f ->
  pdf_proposal_type m <> [] ->
  (S i < length (fst (fst st)))%nat ->
  exists st', mh_step m t st i = Ok st' /\
              length (fst (fst st')) = length (fst (fst st)).
Proof.
  intros Hf Hty Hi. destruct st as [[samples lpc] n]. simpl in Hi.
  unfold mh_step. destruct (mh_draw t i) as [z u].
  destruct (nth_error_lt samples i) as [x Hx]; [lia|].
  apply get_some in Hx. rewrite Hx. simpl rbind.
  assert (Hc : exists c, mh_candidate m x z = Ok c).
  { unfold mh_candidate. destruct (pdf_proposal_type m) as [|[|] ?];
      [congruence|eauto|eauto]. }
  destruct Hc as [c Hc]. rewrite Hc, Hf. simpl rbind.
  assert (Hset : forall v, set samples (S i) v = Ok (upd samples (S i) v)).
  { intro v. unfold set. apply Nat.ltb_lt in Hi. now rewrite Hi. }
  destruct (log_uniform_lt u _); rewrite Hset; simpl rbind;
    eexists; (split; [reflexivity|]); simpl; apply upd_length.
Qed.

Lemma run_mh_total (f : vec -> Params -> R) (x0 : vec) :
  log_pdf_target m = Joint f -> pdf_proposal_type m <> [] ->
  seed m = Point x0 ->
  (2 <= nsamples m * jump m + nburn m)%nat ->
  exists samples r, run_mh m t = Ok (samples, r).
Proof.
  intros Hf Hty Hseed HN. unfold run_mh. rewrite Hseed.
  set (N := (nsamples m * jump m + nburn m)%nat) in *.
  assert (Hset : set (zeros N (dimension m)) 0 x0
                 = Ok (upd (zeros N (dimension m)) 0 x0)).
  { unfold set, zeros. rewrite repeat_length.
    destruct (Nat.ltb_spec 0 N); [reflexivity|lia]. }
  rewrite Hset, Hf. simpl rbind.
  destruct (for_loop_total (mh_step m t)
              (fun st => length (fst (fst st)) = N) (seq 0 (n_iter m))
              (upd (zeros N (dimension m)) 0 x0, f x0 (pdf_target_params m), O))
    as ([[samples lpc] n] & Eloop & _).
  - intros st i Hi HP. apply in_seq in Hi. unfold n_iter in Hi. fold N in Hi.
    destruct (mh_step_total f st i Hf Hty) as (st' & E & Hl); [lia|].
    exists st'. split; [exact E|congruence].
  - simpl. rewrite upd_length. apply repeat_length.
  - rewrite Eloop. simpl rbind.
    unfold py_div, mh_denominator.
    destruct (Z.eqb_spec (Z.of_nat (nsamples m) * Z.of_nat (jump m) - 1
                          + Z.of_nat (nburn m)) 0) as [E0|E0].
    + exfalso. unfold N in HN. nia.
    + simpl. eauto.
Qed.

End Completes.

(** X10: an MH object that passed [init_mcmc], its name given as the
    literal ['MH'], with a one-dimensional array as seed, a positive
    dimension and a chain of at least two states
    ([nsamples * jump + nburn >= 2]), runs to its end whatever the generator
    draws: the constructor raises nothing and returns [nsamples] samples and
    an acceptance ratio between 0 and 1. *)
Theorem checked_mh_run_completes {Params : Type}
  (dl : list string -> vec -> Params -> R) (da : string -> R -> Params -> R)
  (a : mcmc_args) (m : mcmc) (t : tape) (x0 : vec) :
  init_mcmc dl da a = Ok m ->
  identified (arg_algorithm a) = true ->
  algorithm_ m = MH ->
  seed m = Point x0 ->
  (0 < dimension m)%nat ->
  (2 <= nsamples m * jump m + nburn m)%nat ->
  exists out r, construct dl da a t = Ok (out, r) /\
                length out = nsamples m /\ 0 <= r <= 1.
Proof.
  intros Hinit Hid Halg Hseed Hd HN.
  destruct (init_mcmc_validated dl da a m Hinit)
    as (Hjump & Hty & _ & _ & _ & Hjoint & _).
  destruct Hjoint as [f Hf]; [congruence|].
  assert (Hne : pdf_proposal_type m <> []).
  { intro E. rewrite E in Hty. simpl in Hty. lia. }
  destruct (run_mh_total m t f x0 Hf Hne Hseed HN) as (samples & r & Erun).
  assert (Hrun : run_mcmc m t
                 = Ok (strided samples (nburn m)
                               (nsamples m * jump m + nburn m) (jump m), r)).
  { unfold run_mcmc. rewrite Halg, Erun. simpl rbind.
    destruct (Nat.eqb_spec (jump m) 0); [contradiction|reflexivity]. }
  exists (strided samples (nburn m) (nsamples m * jump m + nburn m) (jump m)), r.
  split; [|split].
  - unfold construct. rewrite Hinit. simpl rbind. rewrite Hid.
    unfold mcmc_new, reset_target_type. rewrite Halg. exact Hrun.
  - exact (run_mcmc_sample_count m t _ _ Hrun).
  - eapply (run_mcmc_ratio_mh_stretch m t f); [| exact Hf | | exact Hrun];
      congruence.
Qed.

Lemma checked_mh_run_completes_witness :
  exists out r,
    construct (fun _ _ _ => 0) (fun _ _ _ => 0) mh_args steady_tape = Ok (out, r) /\
    length out = nsamples mh_default /\ 0 <= r <= 1.
Proof.
  apply (checked_mh_run_completes (fun _ _ _ => 0) (fun _ _ _ => 0) mh_args
           mh_default steady_tape [0]).
  - reflexivity.
  - reflexivity.
  - reflexivity.
  - reflexivity.
  - simpl. lia.
  - simpl. lia.
Defined.

(** *** Marginal targets through the constructor *)

Lemma run_mmh_list_raises {Params : Type} (m : @mcmc Params) (t : tape)
  (x0 : vec) (fs : list (R -> Params -> R)) :
  pdf_target_type_marginal m = false ->
  log_pdf_target m = PerAxis fs ->
  seed m = Point x0 ->
  (2 <= nsamples m * jump m + nburn m)%nat ->
  run_mmh m t = Raise TypeError.
Proof.
  intros Hmarg Hf Hseed HN. unfold run_mmh. rewrite Hseed, Hmarg.
  set (N := (nsamples m * jump m + nburn m)%nat) in *.
  assert (Hset : set (zeros N (dimension m)) 0 x0
                 = Ok (upd (zeros N (dimension m)) 0 x0)).
  { unfold set, zeros. rewrite repeat_length.
    destruct (Nat.ltb_spec 0 N); [reflexivity|lia]. }
  rewrite Hset. simpl rbind.
  assert (Hiter : n_iter m = S (N - 2)) by (unfold n_iter; fold N; lia).
  rewrite Hiter. simpl seq. simpl for_loop.
  unfold mmh_joint_iter at 1.
  assert (Hget : get (upd (zeros N (dimension m)) 0 x0) 0 = Ok x0).
  { apply get_some. apply nth_error_upd_same.
    unfold zeros. rewrite repeat_length. lia. }
  rewrite Hget. simpl rbind. rewrite Hf. reflexivity.
Qed.

(** X11: MMH cannot be run on a list of marginal log-densities through the
    constructor.  [init_mcmc] accepts the list and marks the target as
    marginal; when the name of the algorithm is the default or the literal
    ['MMH'], [__init__] then resets [pdf_target_type] to [None] and
    [run_mcmc] takes the branch that calls the list as one function: with a
    one-dimensional seed and a chain of at least two states the constructor
    raises [TypeError] at the first iteration. *)
Theorem mmh_marginal_targets_raise {Params : Type}
  (dl : list string -> vec -> Params -> R) (da : string -> R -> Params -> R)
  (a : mcmc_args) (m : mcmc) (t : tape) (x0 : vec)
  (fs : list (R -> Params -> R)) :
  init_mcmc dl da a = Ok m ->
  identified (arg_algorithm a) = true ->
  algorithm_ m = MMH ->
  log_pdf_target m = PerAxis fs ->
  seed m = Point x0 ->
  (2 <= nsamples m * jump m + nburn m)%nat ->
  construct dl da a t = Raise TypeError.
Proof.
  intros Hinit Hid Halg Hf Hseed HN.
  unfold construct. rewrite Hinit. simpl rbind. rewrite Hid.
  unfold mcmc_new, run_mcmc.
  assert (Ealg : algorithm_ (reset_target_type m) = MMH)
    by (unfold reset_target_type; rewrite Halg; reflexivity).
  rewrite Ealg.
  assert (Hr : run_mmh (reset_target_type m) t = Raise TypeError).
  { apply (run_mmh_list_raises _ t x0 fs);
      unfold reset_target_type; rewrite Halg; simpl; auto. }
  rewrite Hr. reflexivity.
Qed.

(** Two marginal log-densities given as a list. *)
Definition mmh_list_args : @mcmc_args unit :=
  mkArgs (Some 2%nat) None None None
         (Some (PerAxis [fun _ _ => 0; fun _ _ => 0])) tt None None
         (Some 2%nat) None None.

Definition mmh_list : @mcmc unit :=
  mkMcmc 2 [Uniform; Uniform] [1; 1] None
         (PerAxis [fun _ _ => 0; fun _ _ => 0]) tt true MMH 1 2
         (Point [0; 0]) 0.

Lemma mmh_marginal_targets_raise_witness :
  construct (fun _ _ _ => 0) (fun _ _ _ => 0) mmh_list_args steady_tape
  = Raise TypeError.
Proof.
  apply (mmh_marginal_targets_raise (fun _ _ _ => 0) (fun _ _ _ => 0)
           mmh_list_args mmh_list steady_tape [0; 0]
           [fun _ _ => 0; fun _ _ => 0]).
  - reflexivity.
  - reflexivity.
  - reflexivity.
  - reflexivity.
  - reflexivity.
  - simpl. lia.
Defined.

(** *** A name built at run time *)

(** X19: a name of the algorithm that has the characters of ['MH'], ['MMH']
    or ['Stretch'] but is not the interned literal never yields samples.
    The checks compare it with [in] and [==] and let it pass; the tests
    [self.algorithm is ...] of [__init__] and of the return statement fail,
    [ensemble_size] is never assigned, and the constructor raises.  For MH on
    a one-dimensional seed with a chain of at least two states, and for
    Stretch, the exception is [AttributeError]; for MH the whole chain is
    run before. *)
Theorem run_time_built_name_raises {Params : Type}
  (dl : list string -> vec -> Params -> R) (da : string -> R -> Params -> R)
  (a : mcmc_args) (m : mcmc) (t : tape) :
  init_mcmc dl da a = Ok m ->
  identified (arg_algorithm a) = false ->
  (exists e, construct dl da a t = Raise e) /\
  (forall x0, algorithm_ m = MH -> seed m = Point x0 ->
     (0 < dimension m)%nat -> (2 <= nsamples m * jump m + nburn m)%nat ->
     construct dl da a t = Raise AttributeError) /\
  (algorithm_ m = Stretch -> construct dl da a t = Raise AttributeError).
Proof.
  intros Hinit Hid.
  assert (E : construct dl da a t = mcmc_new_unidentified m t).
  { unfold construct. rewrite Hinit. simpl rbind. now rewrite Hid. }
  rewrite E. unfold mcmc_new_unidentified. split; [|split].
  - destruct (algorithm_ m).
    + destruct (run_mh m t) as [r|e]; simpl rbind; eauto.
    + destruct (pdf_target_type_marginal m).
      * destruct (run_mmh m t) as [r|e]; simpl rbind; eauto.
      * destruct (seed m) as [x0|xs]; [|eauto].
        destruct (set _ 0 x0) as [r|e]; simpl rbind; eauto.
    + eauto.
  - intros x0 Halg Hseed Hd HN. rewrite Halg.
    destruct (init_mcmc_validated dl da a m Hinit)
      as (_ & Hty & _ & _ & _ & Hjoint & _).
    destruct Hjoint as [f Hf]; [congruence|].
    assert (Hne : pdf_proposal_type m <> []).
    { intro E0. rewrite E0 in Hty. simpl in Hty. lia. }
    destruct (run_mh_total m t f x0 Hf Hne Hseed HN) as (samples & r & Erun).
    rewrite Erun. reflexivity.
  - intros Halg. rewrite Halg. reflexivity.
Qed.

(** The call of [mh_args] with the name joined from its letters. *)
Definition mh_joined_args : @mcmc_args unit :=
  mkArgs (Some 1%nat) None None None (Some flat_target) tt
         (Some (mkName "MH" false)) None (Some 3%nat) None None.

(** A Stretch call with the name joined from its letters; the default seed
    [np.zeros(2)] passes the check meant for MH and MMH. *)
Definition stretch_joined_args : @mcmc_args unit :=
  mkArgs (Some 2%nat) None None None (Some flat_target) tt
         (Some (mkName "Stretch" false)) None (Some 3%nat) None None.

Definition stretch_unchecked : @mcmc unit :=
  mkMcmc 2 [Uniform; Uniform] [2; 2] None flat_target tt false Stretch 1 3
         (Point [0; 0]) 0.

Lemma run_time_built_name_raises_witness :
  construct (fun _ _ _ => 0) (fun _ _ _ => 0) mh_joined_args steady_tape
  = Raise AttributeError /\
  construct (fun _ _ _ => 0) (fun _ _ _ => 0) stretch_joined_args steady_tape
  = Raise AttributeError.
Proof.
  split.
  - destruct (run_time_built_name_raises (fun _ _ _ => 0) (fun _ _ _ => 0)
                mh_joined_args mh_default steady_tape) as (_ & Hmh & _).
    + reflexivity.
    + reflexivity.
    + apply (Hmh [0]).
      * reflexivity.
      * reflexivity.
      * simpl. lia.
      * simpl. lia.
  - destruct (run_time_built_name_raises (fun _ _ _ => 0) (fun _ _ _ => 0)
                stretch_joined_args stretch_unchecked steady_tape)
      as (_ & _ & Hst).
    + reflexivity.
    + reflexivity.
    + apply Hst. reflexivity.
Defined.

(* --------------------------------------------------------------------- *)
(** ** The Modified Metropolis-Hastings sweep *)



Section Sweep.

Context {Params : Type}.
Variable m : @mcmc Params.
Variable t : tape.









End Sweep.



End MCMC.

(* ===================================================================== *)
(** * Importance sampling ([SampleMethods.py], class IS) *)
(* ===================================================================== *)

Module IS.

Import Reals Lra Py.
Local Open Scope R_scope.

Local Notation "x <- e ;; k" := (rbind e (fun x => k))
  (at level 61, e at next level, right associativity).

(** [np.sum] of a one-dimensional array. *)
Definition sumR (l : list R) : R := fold_right Rplus 0 l.

(** ** Calls with keyword arguments *)

(** An argument as [is None] and [isinstance] see it: [None], a string, a
    list of strings (the empty list too), or any other object. *)
Inductive value :=
| VNone
| VStr (s : string)
| VStrs (l : list string)
| VOther.

(** Python binds the keyword arguments of a call to the parameters of the
    callee by name; a keyword that is not the name of a parameter raises
    [TypeError] before the body runs. *)
Definition unexpected_keyword (parameters : list string)
  (kwargs : list (string * value)) : bool :=
  existsb (fun kv => negb (existsb (String.eqb (fst kv)) parameters)) kwargs.

(** The value of a parameter in the body: the keyword argument of that name,
    or the default [None]. *)
Fixpoint bound (name : string) (kwargs : list (string * value)) : value :=
  match kwargs with
  | [] => VNone
  | kv :: rest => if String.eqb (fst kv) name then snd kv else bound name rest
  end.

(** ** The class [Distribution] of [Distributions.py] *)

(** [def __init__(self, dist_name=None, copula=None, params=None,
    copula_params=None)] *)
Definition Distribution_parameters : list string :=
  ["dist_name"; "copula"; "params"; "copula_params"]%string.

Record distribution := mkDistribution {
  dist_name : value;
  copula : value
}.

(** [isinstance(v, str) or (isinstance(v, list) and isinstance(v[0], str))];
    [v[0]] raises [IndexError] on an empty list. *)
Definition is_names (v : value) : result bool :=
  match v with
  | VStr _ => Ok true
  | VStrs [] => Raise IndexError
  | VStrs (_ :: _) => Ok true
  | _ => Ok false
  end.

(** The call [Distribution(k1=v1, ...)] with keyword arguments. *)
Definition Distribution (kwargs : list (string * value)) : result distribution :=
  if unexpected_keyword Distribution_parameters kwargs then Raise TypeError
  else
    let dist_name := bound "dist_name" kwargs in
    let copula := bound "copula" kwargs in
    match dist_name with
    | VNone => Raise ValueError
    | _ =>
        names <- is_names dist_name ;;
        if negb names then Raise ValueError
        else
          match copula with
          | VNone => Ok (mkDistribution dist_name VNone)
          | VStr _ =>
              match dist_name with
              | VStr _ => Raise ValueError
              | _ => Ok (mkDistribution dist_name copula)
              end
          | _ => Raise ValueError
          end
    end.

Section ImportanceSampling.

(** The types of [pdf_target_params] and of [pdf_proposal_params]. *)
Context {Params ProposalParams : Type}.

(** The methods of a [Distribution] object that IS calls, which end in
    [scipy.stats]: the draw of [nsamples] points and the log-density of an
    array of points, with the parameters of the proposal or of the target. *)
Record library := mkLibrary {
  rvs : distribution -> ProposalParams -> nat -> result (list vec);
  log_pdf : distribution -> list vec -> ProposalParams -> result (list R);
  log_pdf_of_target : distribution -> list vec -> Params -> result (list R)
}.

Variable L : library.

(** ** [IS.init_is] *)

(** [10 ** (-320)] *)
Definition pdf_floor : R := / 10 ^ 320.

(** [max(a, 10 ** (-320))] on the array [a] that the density returns for the
    array of samples.  The builtin [max] tests [10 ** (-320) > a] and takes
    the truth value of the result: on an array of one element it keeps the
    larger number, on an array of more than one element the truth value
    raises [ValueError] (on an empty array it is false). *)
Definition builtin_max_floor (a : list R) : result (list R) :=
  match a with
  | [] => Ok []
  | [v] => Ok [if Rlt_dec v pdf_floor then pdf_floor else v]
  | _ => Raise ValueError
  end.

(** The helper [compute_log_pdf(x, params, pdf_func)] of [init_is], called
    on the array [x] of all samples. *)
Definition compute_log_pdf (x : list vec) (params : Params)
  (pdf_func : list vec -> Params -> result (list R)) : result (list R) :=
  a <- pdf_func x params ;;
  pdf_value <- builtin_max_floor a ;;
  Ok (map ln pdf_value).

(** What [pdf_target] and [log_pdf_target] may be: a value that cannot be
    called, or a callable with [len(signature(f).parameters)] and with what
    its call on the array of samples and the parameters does. *)
Inductive input :=
| Value (v : value)
| Callable (nparams : nat) (f : list vec -> Params -> result (list R)).

(** The arguments of the constructor. *)
Record is_args := mkArgs {
  arg_dimension : option nat;
  arg_nsamples : option nat;
  arg_pdf_proposal : value;
  arg_pdf_proposal_params : ProposalParams;
  arg_pdf_proposal_copula : value;
  arg_pdf_target : input;
  arg_log_pdf_target : input;
  arg_pdf_target_params : Params;
  arg_pdf_target_copula : value
}.

(** The checks of [init_is]; the value is [self.log_pdf_target], the
    log-density that the weighting step calls. *)
Definition init_is (a : is_args)
  : result (list vec -> Params -> result (list R)) :=
  match arg_dimension a, arg_nsamples a with
  | None, _ => Raise NotImplementedError
  | _, None => Raise NotImplementedError
  | Some _, Some _ =>
      target <-
        match arg_log_pdf_target a with
        | Callable k f => if (2 <? k)%nat then Raise ValueError else Ok f
        | Value VNone =>
            match arg_pdf_target a with
            | Value VNone => Raise ValueError
            | Value v =>
                names <- is_names v ;;
                if names then
                  p <- Distribution [("name"%string, v);
                                     ("copula"%string, arg_pdf_target_copula a)] ;;
                  Ok (fun x _ => log_pdf_of_target L p x (arg_pdf_target_params a))
                else Raise ValueError
            | Callable k f =>
                if negb (k =? 2)%nat then Raise ValueError
                else Ok (fun x params => compute_log_pdf x params f)
            end
        | Value _ => Raise ValueError
        end ;;
      match arg_pdf_proposal a with
      | VNone => Raise ValueError
      | v =>
          names <- is_names v ;;
          if names then Ok target else Raise ValueError
      end
  end.

(** ** The object and its two steps *)

Record is_object := mkIS {
  nsamples_ : nat;
  samples : list vec;
  unnormalized_log_weights : list R;
  weights : list R
}.

(** Step 1: sample from the proposal. *)
Definition sampling_step (a : is_args) (nsamples : nat) : result (list vec) :=
  proposal_pdf_ <- Distribution [("name"%string, arg_pdf_proposal a);
                                 ("copula"%string, arg_pdf_proposal_copula a)] ;;
  rvs L proposal_pdf_ (arg_pdf_proposal_params a) nsamples.

(** [a - b] on one-dimensional arrays: elementwise, an array of one element
    being stretched to the length of the other. *)
Definition subtract (a b : list R) : result (list R) :=
  if (length a =? length b)%nat
  then Ok (map (fun pq => fst pq - snd pq) (combine a b))
  else
    match a, b with
    | [u], _ => Ok (map (fun v => u - v) b)
    | _, [v] => Ok (map (fun u => u - v) a)
    | _, _ => Raise ValueError
    end.

(** [weights = np.exp(log_weights)] divided by [np.sum(weights, axis=0)]. *)
Definition normalise (log_weights : list R) : list R :=
  let weights := map exp log_weights in
  let sum_w := sumR weights in
  map (fun w => w / sum_w) weights.

(** Step 2: weight the samples. *)
Definition weighting_step (a : is_args)
  (log_pdf_target : list vec -> Params -> result (list R)) (x : list vec)
  : result (list R * list R) :=
  proposal_pdf_ <- Distribution [("name"%string, arg_pdf_proposal a);
                                 ("copula"%string, arg_pdf_proposal_copula a)] ;;
  log_qs <- log_pdf L proposal_pdf_ x (arg_pdf_proposal_params a) ;;
  log_ps <- log_pdf_target x (arg_pdf_target_params a) ;;
  log_weights <- subtract log_ps log_qs ;;
  Ok (log_weights, normalise log_weights).

(** [IS.__init__] *)
Definition new (a : is_args) : result is_object :=
  target <- init_is a ;;
  let n := match arg_nsamples a with Some n => n | None => O end in
  x <- sampling_step a n ;;
  lw <- weighting_step a target x ;;
  Ok (mkIS n x (fst lw) (snd lw)).

(** ** [IS.resample] *)

(** The rows [j] repeated [multinomial_run[j]] times, for [j] in
    [range(nsamples)]. *)
Fixpoint resample_idx (multinomial_run : list nat) (js : list nat)
  : result (list nat) :=
  match js with
  | [] => Ok []
  | j :: rest =>
      c <- get multinomial_run j ;;
      idx <- resample_idx multinomial_run rest ;;
      Ok ((if (0 <? c)%nat then repeat j c else []) ++ idx)
  end.

Fixpoint take_rows (a : list vec) (idx : list nat) : result (list vec) :=
  match idx with
  | [] => Ok []
  | i :: rest => r <- get a i ;; rs <- take_rows a rest ;; Ok (r :: rs)
  end.

(** [multinomial] stands for [np.random.multinomial(size, weights, size=1)[0]],
    the counts of one multinomial draw of [size] trials. *)
Definition resample (o : is_object) (method : string) (size : option nat)
  (multinomial : nat -> list R -> list nat) : result (list vec) :=
  let size := match size with None => nsamples_ o | Some s => s end in
  if String.eqb method "multinomial" then
    let multinomial_run := multinomial size (weights o) in
    idx <- resample_idx multinomial_run (seq 0 (nsamples_ o)) ;;
    take_rows (samples o) idx
  else Raise ValueError.

End ImportanceSampling.

(** ** The call of [Distribution] in the two steps *)

(** [name] is not a parameter of [Distribution.__init__]. *)
Lemma Distribution_name_raises (v c : value) :
  Distribution [("name"%string, v); ("copula"%string, c)] = Raise TypeError.
Proof. reflexivity. Qed.

(** With the parameter spelt as the constructor declares it, a name is
    accepted. *)
Lemma Distribution_dist_name_builds (s : string) :
  Distribution [("dist_name"%string, VStr s); ("copula"%string, VNone)]
  = Ok (mkDistribution (VStr s) VNone).
Proof. reflexivity. Qed.

Lemma sampling_step_raises {Params ProposalParams : Type}
  (L : @library Params ProposalParams) (a : is_args) (n : nat) :
  sampling_step L a n = Raise TypeError.
Proof. reflexivity. Qed.

Lemma weighting_step_raises {Params ProposalParams : Type}
  (L : @library Params ProposalParams) (a : is_args)
  (target : list vec -> Params -> result (list R)) (x : list vec) :
  weighting_step L a target x = Raise TypeError.
Proof. reflexivity. Qed.

(** No call of the constructor returns an object: the checks raise, or the
    sampling step does. *)
Lemma new_raises {Params ProposalParams : Type}
  (L : @library Params ProposalParams) (a : is_args) :
  exists e, new L a = Raise e /\
            (forall target, init_is L a = Ok target -> e = TypeError).
Proof.
  unfold new. destruct (init_is L a) as [target|e].
  - exists TypeError. split; [reflexivity|auto].
  - exists e. split; [reflexivity|discriminate].
Qed.

(** ** Sums of exponentials *)

Lemma sumR_exp_pos (l : list R) : l <> [] -> 0 < sumR (map exp l).
Proof.
  destruct l as [|a l]; [congruence|]. intros _. simpl.
  assert (H : 0 <= sumR (map exp l)).
  { induction l as [|b l IH]; simpl; [lra|].
    pose proof (exp_pos b). lra. }
  pose proof (exp_pos a). lra.
Qed.

Lemma sumR_scale (l : list R) (s : R) :
  sumR (map (fun w => w / s) l) = sumR l / s.
Proof.
  induction l as [|a l IH]; simpl.
  - unfold Rdiv. now rewrite Rmult_0_l.
  - rewrite IH. unfold Rdiv. ring.
Qed.

(** The arithmetic that follows the call of [Distribution] in the weighting
    step is the normalisation of the claim: non-negative weights that sum
    to 1. *)
Lemma normalise_sums_to_one (log_weights : list R) :
  log_weights <> [] ->
  Forall (fun w => 0 <= w) (normalise log_weights) /\
  sumR (normalise log_weights) = 1.
Proof.
  intro Hne. pose proof (sumR_exp_pos log_weights Hne) as Hpos.
  unfold normalise. split.
  - apply Forall_forall. intros w Hw.
    apply in_map_iff in Hw. destruct Hw as (e & <- & He).
    apply in_map_iff in He. destruct He as (lw & <- & _).
    pose proof (exp_pos lw).
    apply Rlt_le. now apply Rdiv_lt_0_compat.
  - rewrite sumR_scale. unfold Rdiv. apply Rinv_r. lra.
Qed.

(** ** Indices drawn by the resampling *)

Lemma resample_idx_ok (counts : list nat) (js : list nat) :
  (forall j, In j js -> (j < length counts)%nat) ->
  resample_idx counts js = Ok (flat_map (fun j => repeat j (nth j counts O)) js).
Proof.
  induction js as [|j js IH]; intro Hall; simpl; auto.
  destruct (nth_error_lt counts j) as [c Hc];
    [apply Hall; now left|].
  unfold get. rewrite Hc. simpl rbind.
  rewrite IH by (intros j' Hj'; apply Hall; now right). simpl rbind.
  rewrite (nth_error_nth _ _ O Hc).
  destruct c; reflexivity.
Qed.

Lemma take_rows_ok (a : list vec) (idx : list nat) :
  (forall i, In i idx -> (i < length a)%nat) ->
  take_rows a idx = Ok (map (fun i => nth i a []) idx).
Proof.
  induction idx as [|i idx IH]; intro Hall; simpl; auto.
  destruct (nth_error_lt a i) as [r Hr]; [apply Hall; now left|].
  unfold get. rewrite Hr. simpl rbind.
  rewrite IH by (intros i' Hi'; apply Hall; now right). simpl rbind.
  f_equal. f_equal. symmetry. now apply nth_error_nth.
Qed.

Lemma map_nth_seq {A : Type} (l : list A) (d : A) :
  map (fun j => nth j l d) (seq 0 (length l)) = l.
Proof.
  induction l as [|a l IH]; simpl; auto.
  f_equal. rewrite <- seq_shift, map_map. exact IH.
Qed.

Lemma map_flat_map_repeat {A : Type} (g : nat -> A) (c : nat -> nat) (js : list nat) :
  map g (flat_map (fun j => repeat j (c j)) js)
  = flat_map (fun j => repeat (g j) (c j)) js.
Proof.
  induction js as [|j js IH]; simpl; auto.
  now rewrite map_app, IH, map_repeat.
Qed.

(** [resample] itself, on any state of the attributes it reads with one
    sample and one count per index: it returns [size] rows, row [j] of the
    samples as many times as the multinomial draw counts it. *)
Lemma resample_on_state (o : is_object) (size : option nat)
  (multinomial : nat -> list R -> list nat) :
  let k := match size with None => nsamples_ o | Some s => s end in
  let counts := multinomial k (weights o) in
  length (samples o) = nsamples_ o ->
  length counts = nsamples_ o ->
  list_sum counts = k ->
  exists out,
    resample o "multinomial" size multinomial = Ok out /\
    length out = k /\
    Forall (fun row => In row (samples o)) out /\
    out = flat_map (fun j => repeat (nth j (samples o) []) (nth j counts O))
                   (seq 0 (nsamples_ o)).
Proof.
  intros k counts Hrows Hw Hsum.
  assert (Hidx : forall j, In j (seq 0 (nsamples_ o)) -> (j < length counts)%nat).
  { intros j Hj. apply in_seq in Hj. lia. }
  unfold resample. simpl. fold k. fold counts.
  rewrite (resample_idx_ok counts _ Hidx). simpl rbind.
  assert (Hin : forall i,
            In i (flat_map (fun j => repeat j (nth j counts O))
                           (seq 0 (nsamples_ o))) ->
            (i < length (samples o))%nat).
  { intros i Hi. apply in_flat_map in Hi. destruct Hi as (j & Hj & Hi).
    apply repeat_spec in Hi. subst i. apply in_seq in Hj. lia. }
  rewrite (take_rows_ok _ _ Hin).
  eexists; split; [reflexivity|].
  split; [|split].
  - rewrite length_map, length_flat_map.
    rewrite <- Hsum. f_equal.
    transitivity (map (fun j => nth j counts O) (seq 0 (length counts)));
      [|apply map_nth_seq].
    rewrite Hw. apply map_ext. intro j. apply repeat_length.
  - apply Forall_forall. intros row Hrow.
    apply in_map_iff in Hrow. destruct Hrow as (i & <- & Hi).
    apply nth_In. now apply Hin.
  - apply map_flat_map_repeat.
Qed.

(** ** The claims on importance sampling *)

(** A library whose draws are the points [0, 1, ...] and whose densities are
    flat. *)
Definition flat_library : @library unit unit :=
  mkLibrary (fun _ _ n => Ok (map (fun k => [INR k]) (seq 0 n)))
            (fun _ x _ => Ok (map (fun _ => 0) x))
            (fun _ x _ => Ok (map (fun _ => 0) x)).

(** [IS(dimension=1, nsamples=2, pdf_proposal='Normal',
    pdf_proposal_params=[0, 1], log_pdf_target=f)] with [f] a flat
    log-density of two parameters. *)
Definition two_draws : @is_args unit unit :=
  mkArgs (Some 1%nat) (Some 2%nat) (VStr "Normal") tt VNone (Value VNone)
         (Callable 2 (fun x _ => Ok (map (fun _ => 0) x))) tt VNone.

(** The same call with the target given as a density,
    [pdf_target=lambda x, params: np.zeros(len(x))]. *)
Definition zero_density : @is_args unit unit :=
  mkArgs (Some 1%nat) (Some 2%nat) (VStr "Normal") tt VNone
         (Callable 2 (fun x _ => Ok (map (fun _ => 0) x)))
         (Value VNone) tt VNone.

(** C6: no importance sampling run returns weights.  The weighting step
    starts with [Distribution(name=..., copula=...)], whose keyword [name] is
    not a parameter of the constructor ([dist_name] is): the call raises
    [TypeError] for every proposal, target and array of samples, as it does
    before that in the sampling step; on the arguments [two_draws], which
    pass all checks, the constructor raises [TypeError]. *)
Theorem C6_weighting_step_raises {Params ProposalParams : Type}
  (L : @library Params ProposalParams) (a : is_args)
  (target : list vec -> Params -> result (list R)) (x : list vec) :
  weighting_step L a target x = Raise TypeError /\
  (forall o, new L a <> Ok o) /\
  new flat_library two_draws = Raise TypeError.
Proof.
  split; [reflexivity|]. split; [|reflexivity].
  intros o H. destruct (new_raises L a) as (e & He & _). congruence.
Qed.

(** C10: no run of importance sampling completes, so that no object exists
    whose [resample] could be called: whenever the checks of [init_is] pass,
    the constructor raises [TypeError] in the sampling step, at
    [Distribution(name=..., copula=...)]; so on the arguments
    [two_draws]. *)
Theorem C10_no_run_completes {Params ProposalParams : Type}
  (L : @library Params ProposalParams) (a : is_args) :
  (forall target, init_is L a = Ok target -> new L a = Raise TypeError) /\
  (exists target, init_is flat_library two_draws = Ok target) /\
  new flat_library two_draws = Raise TypeError.
Proof.
  split; [|split].
  - intros target H. unfold new. rewrite H. reflexivity.
  - eexists. reflexivity.
  - reflexivity.
Qed.

(** C5: in IS a target given as a density callable is never evaluated
    through the floor.  [init_is] installs
    [partial(compute_log_pdf, pdf_func=pdf_target)], but the constructor
    raises [TypeError] in the sampling step before the target is called; and
    the helper, which the weighting step would call once on the whole array
    of samples, raises [ValueError] as soon as the density returns more than
    one value, since the builtin [max] takes the truth value of an array.
    Only on a single sample does it return [log(max(pdf, 1e-320))]. *)
Theorem C5_density_target_raises_in_is {Params ProposalParams : Type}
  (L : @library Params ProposalParams) (a : is_args) (d n : nat)
  (f : list vec -> Params -> result (list R)) :
  arg_dimension a = Some d -> arg_nsamples a = Some n ->
  arg_log_pdf_target a = Value VNone -> arg_pdf_target a = Callable 2 f ->
  is_names (arg_pdf_proposal a) = Ok true ->
  init_is L a = Ok (fun x params => compute_log_pdf x params f) /\
  new L a = Raise TypeError /\
  (forall x params v1 v2 vs,
     f x params = Ok (v1 :: v2 :: vs) ->
     compute_log_pdf x params f = Raise ValueError) /\
  (forall x params v,
     f x params = Ok [v] ->
     compute_log_pdf x params f = Ok [ln (Rmax v (/ 10 ^ 320))]).
Proof.
  intros Hd Hn Hlog Hpdf Hprop.
  assert (Hinit : init_is L a = Ok (fun x params => compute_log_pdf x params f)).
  { unfold init_is. rewrite Hd, Hn, Hlog, Hpdf. simpl.
    destruct (arg_pdf_proposal a) as [|s|[|s l]|]; try discriminate;
      reflexivity. }
  split; [exact Hinit|]. split.
  - unfold new. rewrite Hinit. reflexivity.
  - split.
    + intros x params v1 v2 vs Hf. unfold compute_log_pdf. rewrite Hf.
      reflexivity.
    + intros x params v Hf. unfold compute_log_pdf. rewrite Hf. simpl.
      assert (E : (if Rlt_dec v pdf_floor then pdf_floor else v)
                  = Rmax v (/ 10 ^ 320)).
      { unfold pdf_floor, Rmax. generalize (/ 10 ^ 320). intro fl.
        destruct (Rlt_dec v fl) as [Hlt|Hge];
          destruct (Rle_dec v fl) as [Hle|Hgt]; try reflexivity; lra. }
      now rewrite E.
Qed.

Lemma C5_density_target_raises_in_is_witness :
  init_is flat_library zero_density
  = Ok (fun x params =>
          compute_log_pdf x params (fun x _ => Ok (map (fun _ => 0) x))) /\
  new flat_library zero_density = Raise TypeError /\
  (forall x params v1 v2 vs,
     Ok (map (fun _ : vec => 0) x) = Ok (v1 :: v2 :: vs) ->
     compute_log_pdf x params (fun x (_ : unit) => Ok (map (fun _ => 0) x))
     = Raise ValueError) /\
  (forall x params v,
     Ok (map (fun _ : vec => 0) x) = Ok [v] ->
     compute_log_pdf x params (fun x (_ : unit) => Ok (map (fun _ => 0) x))
     = Ok [ln (Rmax v (/ 10 ^ 320))]).
Proof.
  apply (C5_density_target_raises_in_is flat_library zero_density 1 2
           (fun x _ => Ok (map (fun _ => 0) x))).
  - reflexivity.
  - reflexivity.
  - reflexivity.
  - reflexivity.
  - reflexivity.
Defined.

(** In MCMC, where the installed helper is called on one point of the chain
    at a time, the log-target is [log(max(pdf(x, params), 1e-320))]: the
    logarithm is taken of a positive number, is never below [log(1e-320)],
    and a density equal to zero gives [log(1e-320) = -320 log 10]. *)
Lemma mcmc_density_target_is_floored {Params : Type} (f : vec -> Params -> R) :
  let floored := fun (x : vec) (p : Params) => ln (Rmax (f x p) (/ 10 ^ 320)) in
  (forall dl dla alg d,
     MCMC.init_target dl dla alg d None (Some (MCMC.PdfCallable f))
     = Ok (MCMC.Joint floored, false)) /\
  (forall dl dla (fs : list (R -> Params -> R)),
     MCMC.init_target dl dla MCMC.MMH (length fs) None (Some (MCMC.PdfCallables fs))
     = Ok (MCMC.PerAxis
             (map (fun g x p => ln (Rmax (g x p) (/ 10 ^ 320))) fs), true)) /\
  (forall x p, 0 < Rmax (f x p) (/ 10 ^ 320)) /\
  (forall x p, - (INR 320 * ln 10) <= floored x p) /\
  (forall (x : vec) (p : Params),
     MCMC.compute_log_pdf x p (fun _ _ => 0) = - (INR 320 * ln 10)).
Proof.
  intro floored.
  assert (Hfl : 0 < / 10 ^ 320).
  { apply Rinv_0_lt_compat. apply pow_lt. lra. }
  assert (Hln : ln (/ 10 ^ 320) = - (INR 320 * ln 10)).
  { rewrite ln_Rinv by (apply pow_lt; lra). rewrite ln_pow by lra. reflexivity. }
  assert (Hmax : forall a, 0 < Rmax a (/ 10 ^ 320)).
  { intro a. pose proof (Rmax_r a (/ 10 ^ 320)). lra. }
  split; [intros dl dla alg d; destruct alg; reflexivity|].
  split.
  { intros dl dla fs. unfold MCMC.init_target. simpl.
    rewrite Nat.eqb_refl. reflexivity. }
  split; [intros x p; apply Hmax|].
  split.
  { intros x p. unfold floored. rewrite <- Hln.
    destruct (Rle_lt_or_eq_dec _ _ (Rmax_r (f x p) (/ 10 ^ 320))) as [Hlt|Heq].
    - apply Rlt_le. now apply ln_increasing.
    - rewrite <- Heq. apply Rle_refl. }
  intros x p.
  unfold MCMC.compute_log_pdf, MCMC.pdf_floor.
  rewrite Rmax_right by lra. exact Hln.
Qed.

End IS.

(* ===================================================================== *)
(** * Kriging surrogate ([Surrogates.py], class Krig) *)
(* ===================================================================== *)

Module Krig.

Import mathcomp.boot.boot mathcomp.order.order mathcomp.algebra.algebra.
Import GRing.Theory Num.Theory.
Import Py.
Local Open Scope ring_scope.

Local Notation "x <- e ;; k" := (rbind e (fun x => k))
  (at level 61, e at next level, right associativity).

Section Model.

(** The field of the floats. *)
Variable F : realFieldType.

(** [m] samples in dimension [n], [p] regression functions ([p <= m]), [q]
    responses. *)
Variables (m n p q : nat).

(** The value of the likelihood: a float or [np.inf]. *)
Inductive cost :=
| Finite (x : F)
| Inf.

(** The routines of numpy and scipy that the fit calls and that are not
    rational operations: [np.linalg.cholesky] ([None] when it raises
    [LinAlgError]), [np.linalg.qr], [np.log], [np.pi] and
    [scipy.optimize.fmin_l_bfgs_b], which returns its minimiser or lets the
    exception of the objective through. *)
Record numpy := mkNumpy {
  cholesky : forall {k : nat}, 'M[F]_k -> option 'M[F]_k;
  qr : 'M[F]_(m, p) -> 'M[F]_(m, p) * 'M[F]_p;
  log : F -> F;
  pi : F;
  fmin_l_bfgs_b :
    ('rV[F]_n -> result (cost * 'rV[F]_n)) -> 'rV[F]_n -> seq (F * F) ->
    result 'rV[F]_n
}.

Variable np : numpy.

(** [np.linalg.inv] and [np.linalg.solve] *)
Definition inv {k : nat} (a : 'M[F]_k) : result 'M[F]_k :=
  if a \in unitmx then Ok (invmx a) else Raise LinAlgError.

Definition solve {k j : nat} (a : 'M[F]_k) (b : 'M[F]_(k, j))
  : result 'M[F]_(k, j) :=
  if a \in unitmx then Ok (invmx a *m b) else Raise LinAlgError.

Definition try_cholesky {k : nat} (a : 'M[F]_k) : result 'M[F]_k :=
  match cholesky np a with
  | Some c => Ok c
  | None => Raise LinAlgError
  end.

(** The regression model [reg_model(s)]: the basis at the rows of [s]. *)
Variable reg_model : forall {k : nat}, 'M[F]_(k, n) -> 'M[F]_(k, p).

(** The correlation model [corr_model(x, s, params)]: entry [(j, i)]
    correlates row [j] of [s] with row [i] of [x]; with [flag=1] it also
    returns the derivatives [dr_[:, :, i]] in the hyperparameters. *)
Variable corr_model :
  forall {k : nat}, 'M[F]_(k, n) -> 'M[F]_(m, n) -> 'rV[F]_n -> 'M[F]_(m, k).
Variable corr_model_dtheta :
  'M[F]_(m, n) -> 'rV[F]_n -> 'I_n -> 'M[F]_m.

(** ** [log_likelihood] *)

Definition log_likelihood (s : 'M[F]_(m, n)) (f : 'M[F]_(m, p))
  (y : 'M[F]_(m, q)) (p0 : 'rV[F]_n) : result (cost * 'rV[F]_n) :=
  let r__ := corr_model s s p0 in
  let dr_ := corr_model_dtheta s p0 in
  match cholesky np r__ with
  | None => Ok (Inf, 0)
  | Some cc =>
      if \prod_i cc i i == 0 then Ok (Inf, 0)
      else
        c_in <- inv cc ;;
        let r_in := c_in^T *m c_in in
        let f_das := c_in *m f in
        let y_das := c_in *m y in
        let '(q_ll, g_ll) := qr np f_das in
        bt <- solve g_ll (q_ll^T *m y_das) ;;
        let tmp := y_das - f_das *m bt in
        let alpha := r_in *m tmp in
        let t4 := tmp^T *m alpha in
        let ll := (log np (\prod_i cc i i)
                   + m%:R * log np ((\sum_i \sum_j t4 i j) / m%:R)
                   + m%:R * log np (2 * pi np)) / 2 in
        (* the body of [for i in range(n)]: its factorisation and its
           assignment to [grad[i]] do not depend on [i] *)
        if (n == 0)%N then Ok (Finite ll, 0)
        else
          f__ <- try_cholesky (f^T *m (r_in *m f)) ;;
          f_in <- inv f__ ;;
          let fr_bar := f_in^T *m f_in in
          let fr := f *m (fr_bar *m f^T) in
          let t2 := 2 *: (tmp^T *m (r_in *m (fr *m (r_in *m
                            ((fr *m r_in - 1%:M) *m y_das))))) in
          let t3 := tmp^T *m (r_in *m tmp) in
          if (q != 1)%N then Raise ValueError
          else
            Ok (Finite ll,
                \row_i
                  (let t1 := \tr (r_in *m dr_ i) in
                   let r_bar := r_in *m (dr_ i *m r_in) in
                   let t4' := tmp^T *m (r_bar *m tmp) in
                   2^-1 * (t1 - (m%:R / \tr t3) * (\tr t2 - \tr t4'))))
  end.

(** ** [Krig.run_krig] *)

(** "Update the initial values of hyperparameters to ensure that covariance
    matrix is positive definite": [None] when the loop is still running after
    [fuel] inflations. *)
Fixpoint inflate (fuel : nat) (s : 'M[F]_(m, n)) (params : 'rV[F]_n)
  : option 'rV[F]_n :=
  if \det (corr_model s s params) < 10%:R ^- 12 then
    match fuel with
    | O => None
    | S fuel' => inflate fuel' s ((3%:R / 2%:R) *: params)
    end
  else Some params.

Record krig := mkKrig {
  samples : 'M[F]_(m, n);
  values : 'M[F]_(m, q);
  corr_model_params : 'rV[F]_n;
  beta : 'M[F]_(p, q);
  gamma : 'M[F]_(m, q);
  sig : 'rV[F]_q;
  F_dash : 'M[F]_(m, p);
  C_inv : 'M[F]_m;
  G : 'M[F]_p
}.

Definition run_krig (fuel : nat) (s_ : 'M[F]_(m, n)) (y_ : 'M[F]_(m, q))
  (params0 : 'rV[F]_n) (bounds : seq (F * F)) : option (result krig) :=
  let f_ := reg_model s_ in
  match inflate fuel s_ params0 with
  | None => None
  | Some params1 =>
      Some (
        params <- fmin_l_bfgs_b np (log_likelihood s_ f_ y_) params1 bounds ;;
        let r_ := corr_model s_ s_ params in
        c <- try_cholesky r_ ;;
        c_inv <- inv c ;;
        let f_dash := c_inv *m f_ in
        let y_dash := c_inv *m y_ in
        let '(q_, g_) := qr np f_dash in
        if \rank g_ != minn m p then Raise NotImplementedError
        else
          beta <- solve g_ (q_^T *m y_dash) ;;
          let gamma := (c_inv^T *m c_inv) *m (y_ - f_ *m beta) in
          let sigma :=
            \row_l (m%:R^-1 * \sum_i ((y_dash - f_dash *m beta) i l) ^+ 2) in
          Ok (mkKrig s_ y_ params beta gamma sigma f_dash c_inv g_))
  end.

(** ** [Krig.interpolate] (with [dy=False]) *)

Definition interpolate {k : nat} (mdl : krig) (x : 'M[F]_(k, n)) : 'M[F]_(k, q) :=
  let fx := reg_model x in
  let rx := corr_model x (samples mdl) (corr_model_params mdl) in
  fx *m beta mdl + rx^T *m gamma mdl.

(** ** The inflation loop *)

(** The hyperparameters after [k] inflations. *)
Definition inflated (k : nat) (params : 'rV[F]_n) : 'rV[F]_n :=
  (3%:R / 2%:R) ^+ k *: params.

(** The test of the [while] loop. *)
Definition degenerate (s : 'M[F]_(m, n)) (params : 'rV[F]_n) : bool :=
  \det (corr_model s s params) < 10%:R ^- 12.

Lemma inflated_step (k : nat) (params : 'rV[F]_n) :
  inflated k ((3%:R / 2%:R) *: params) = inflated k.+1 params.
Proof. by rewrite /inflated scalerA -exprSr. Qed.

Lemma inflate_some (fuel : nat) (s : 'M[F]_(m, n)) (params0 params : 'rV[F]_n) :
  inflate fuel s params0 = Some params ->
  exists k : nat,
    [/\ (k <= fuel)%N, params = inflated k params0,
        degenerate s params = false &
        forall j : nat, (j < k)%N -> degenerate s (inflated j params0)].
Proof.
  elim: fuel params0 => [|fuel IH] params0 /=; rewrite -/(degenerate s params0).
  - case Hd: (degenerate s params0) => // -[<-].
    by exists 0%N; split; rewrite /inflated ?expr0 ?scale1r.
  - case Hd: (degenerate s params0).
    + move/IH => [k [Hk -> Hstop Hbelow]].
      exists k.+1; split => //; first by rewrite inflated_step.
      case=> [|j]; first by rewrite /inflated expr0 scale1r.
      by rewrite ltnS -inflated_step; apply: Hbelow.
    + case=> <-.
      by exists 0%N; split; rewrite /inflated ?expr0 ?scale1r.
Qed.

Lemma inflate_complete (fuel k : nat) (s : 'M[F]_(m, n)) (params0 : 'rV[F]_n) :
  (k <= fuel)%N ->
  degenerate s (inflated k params0) = false ->
  (forall j : nat, (j < k)%N -> degenerate s (inflated j params0)) ->
  inflate fuel s params0 = Some (inflated k params0).
Proof.
  elim: fuel k params0 => [|fuel IH] k params0 /=; rewrite -/(degenerate s params0).
  - rewrite leqn0 => /eqP -> Hstop _.
    by move: Hstop; rewrite /inflated expr0 scale1r => ->.
  - case: k => [|k] Hk Hstop Hbelow.
    + by move: Hstop; rewrite /inflated expr0 scale1r => ->.
    + have := Hbelow 0%N isT; rewrite {1}/inflated expr0 scale1r => ->.
      rewrite -inflated_step; apply: IH => //.
      * by rewrite inflated_step.
      * by move=> j Hj; rewrite inflated_step; apply: Hbelow.
Qed.

(** ** The claims on the surrogate *)

(** C9: before the optimisation the hyperparameters are multiplied by 1.5 as
    long as the determinant of the correlation matrix is below 1e-12 (the
    loop returns the first inflation whose determinant is not below it, after
    inflations that all were); and the likelihood returns an infinite cost
    with a zero gradient, instead of raising, when the Cholesky factorisation
    of the correlation matrix fails and when the product of the diagonal of
    the factor is zero. *)
Theorem C9_degenerate_correlation (s : 'M[F]_(m, n)) (f : 'M[F]_(m, p))
  (y : 'M[F]_(m, q)) :
  (forall (fuel : nat) (params0 params : 'rV[F]_n),
     inflate fuel s params0 = Some params <->
     exists k : nat,
       [/\ (k <= fuel)%N, params = inflated k params0,
           degenerate s params = false &
           forall j : nat, (j < k)%N -> degenerate s (inflated j params0)]) /\
  (forall p0 : 'rV[F]_n,
     cholesky np (corr_model s s p0) = None ->
     log_likelihood s f y p0 = Ok (Inf, 0)) /\
  (forall (p0 : 'rV[F]_n) (cc : 'M[F]_m),
     cholesky np (corr_model s s p0) = Some cc ->
     \prod_i cc i i = 0 ->
     log_likelihood s f y p0 = Ok (Inf, 0)).
Proof.
  split; [|split].
  - move=> fuel params0 params; split; first exact: inflate_some.
    by case=> k [Hk -> Hstop Hbelow]; apply: inflate_complete.
  - by move=> p0 Hc; rewrite /log_likelihood Hc.
  - by move=> p0 cc Hc Hd; rewrite /log_likelihood Hc Hd eqxx.
Qed.

(** C7: a model fitted on the samples [S] and the values [Y], the Cholesky
    factor [c] of the correlation matrix satisfying [c c^T = R], returns [Y]
    when it is evaluated at [S]. *)
Theorem C7_interpolation_exact (fuel : nat) (s_ : 'M[F]_(m, n))
  (y_ : 'M[F]_(m, q)) (params0 : 'rV[F]_n) (bounds : seq (F * F)) (mdl : krig) :
  (forall (k : nat) (a c : 'M[F]_k), cholesky np a = Some c -> c *m c^T = a) ->
  run_krig fuel s_ y_ params0 bounds = Some (Ok mdl) ->
  interpolate mdl s_ = y_.
Proof.
  move=> Hchol; rewrite /run_krig.
  case: (inflate fuel s_ params0) => [params1|] // [].
  case: (fmin_l_bfgs_b np _ params1 bounds) => [params|e] //=.
  rewrite /try_cholesky.
  case Hc: (cholesky np _) => [c|] //=.
  rewrite /inv; case: ifP => // Hu /=.
  case: (qr np _) => q_ g_.
  case: ifP => // _.
  rewrite /solve; case: ifP => // _ /= [<-].
  rewrite /interpolate /=.
  rewrite -(Hchol _ _ _ Hc) trmx_mul trmxK.
  rewrite !mulmxA -[c *m c^T *m _]mulmxA -trmx_mul (mulVmx Hu) trmx1 mulmx1.
  by rewrite (mulmxV Hu) mul1mx addrC subrK.
Qed.

End Model.

Arguments mkNumpy {F m n p} cholesky qr log pi fmin_l_bfgs_b.
Arguments cholesky {F m n p} np {k} a : rename.
Arguments mkKrig {F m n p q}.
Arguments run_krig {F m n p q}.
Arguments interpolate {F m n p q} reg_model corr_model {k} mdl x.
Arguments try_cholesky {F m n p} np {k} a.
Arguments inv {F k} a.
Arguments solve {F k j} a b.

(** ** A fit on one site *)

Section OneSite.

Variable F : realFieldType.











End OneSite.


(* --------------------------------------------------------------------- *)
(** ** The correlation kernels of [Krig.corr] *)

Section Kernels.

Import Order.Theory.

Variable F : realFieldType.
Variables (m n : nat).

(** [model == 'Linear'], [flag = 0]: entry [(j, i)] is the product over the
    axes of [max(1 - params * |x_i - s_j|, 0)]. *)
Definition linear_corr {k : nat} (x : 'M[F]_(k, n)) (s : 'M[F]_(m, n))
  (params : 'rV[F]_n) : 'M[F]_(m, k) :=
  \matrix_(j, i) \prod_(l < n) Num.max (1 - params 0 l * `|x i l - s j l|) 0.

(** [zeta_matrix] of the Spherical and Cubic models once
    [indices[indices == 1] = 0] has run: [indices] is the array
    [zeta_matrix] itself, so the entries of [min(params * |x_i - s_j|, 1)]
    that are equal to 1 have been set to 0. *)
Definition zeta (theta d : F) : F :=
  let z := Num.min (theta * `|d|) 1 in
  if z == 1 then 0 else z.

(** [model == 'Spherical'], [flag = 0]: the product over the axes of
    [1 - 1.5 zeta + 0.5 zeta ** 3]. *)
Definition spherical_corr {k : nat} (x : 'M[F]_(k, n)) (s : 'M[F]_(m, n))
  (params : 'rV[F]_n) : 'M[F]_(m, k) :=
  \matrix_(j, i) \prod_(l < n)
    (1 - (3%:R / 2%:R) * zeta (params 0 l) (x i l - s j l)
     + (1 / 2%:R) * zeta (params 0 l) (x i l - s j l) ^+ 3).

(** [model == 'Cubic'], [flag = 0]: the product over the axes of
    [1 - 3 zeta ** 2 + 2 zeta ** 3]. *)
Definition cubic_corr {k : nat} (x : 'M[F]_(k, n)) (s : 'M[F]_(m, n))
  (params : 'rV[F]_n) : 'M[F]_(m, k) :=
  \matrix_(j, i) \prod_(l < n)
    (1 - 3%:R * zeta (params 0 l) (x i l - s j l) ^+ 2
     + 2%:R * zeta (params 0 l) (x i l - s j l) ^+ 3).

Lemma zeta_far (theta d : F) : 1 <= theta * `|d| -> zeta theta d = 0.
Proof.
  move=> H; rewrite /zeta /=.
  have -> : Num.min (theta * `|d|) 1 = 1 by apply/min_idPr.
  by rewrite eqxx.
Qed.

Lemma zeta_same (theta : F) : zeta theta 0 = 0.
Proof.
  rewrite /zeta /= normr0 mulr0.
  have -> : Num.min (0 : F) 1 = 0 by apply/min_idPl; exact: ler01.
  by rewrite eq_sym oner_eq0.
Qed.

(** Beyond the cutoff of one axis the Linear kernel vanishes. *)
Lemma linear_corr_far (k : nat) (x : 'M[F]_(k, n)) (s : 'M[F]_(m, n))
  (params : 'rV[F]_n) (j : 'I_m) (i : 'I_k) (l : 'I_n) :
  1 <= params 0 l * `|x i l - s j l| -> linear_corr x s params j i = 0.
Proof.
  move=> Hfar; rewrite mxE; apply/eqP; rewrite prodf_seq_eq0.
  apply/hasP; exists l; first by rewrite mem_index_enum.
  rewrite /=; apply/eqP/max_idPr.
  by rewrite subr_le0.
Qed.

(** X14: the Linear kernel.  The correlation of a sample with itself is 1
    and the correlation matrix of the samples is symmetric; every entry is
    non-negative, and at most 1 when the hyperparameters are non-negative;
    and the correlation of two points is 0 as soon as they are farther apart
    than [1 / params] along one axis. *)
Theorem linear_corr_properties (k : nat) (x : 'M[F]_(k, n)) (s : 'M[F]_(m, n))
  (params : 'rV[F]_n) :
  (forall j, linear_corr s s params j j = 1) /\
  (linear_corr s s params)^T = linear_corr s s params /\
  (forall j i, 0 <= linear_corr x s params j i) /\
  ((forall l, 0 <= params 0 l) -> forall j i, linear_corr x s params j i <= 1) /\
  (forall j i l, 1 <= params 0 l * `|x i l - s j l| ->
     linear_corr x s params j i = 0).
Proof.
  split; [|split; [|split; [|split]]].
  - move=> j; rewrite mxE; apply: big1 => l _.
    rewrite subrr normr0 mulr0 subr0.
    by apply/max_idPl; exact: ler01.
  - apply/matrixP => j i; rewrite !mxE.
    by apply: eq_bigr => l _; rewrite distrC.
  - move=> j i; rewrite mxE; apply: prodr_ge0 => l _.
    by rewrite le_max lexx orbT.
  - move=> Hpos j i; rewrite mxE; apply: prodr_ile1 => l _.
    rewrite le_max lexx orbT /= ge_max ler01 andbT.
    by rewrite gerBl mulr_ge0.
  - by move=> j i l; exact: linear_corr_far.
Qed.

(** X15: the Spherical and the Cubic kernel give correlation 1, not 0, to
    two points that are farther apart than [1 / params] along every axis:
    the clipped distances equal to 1 are overwritten with 0 through the alias
    [indices = zeta_matrix] before the polynomial is evaluated. *)
Theorem far_points_are_fully_correlated (k : nat) (x : 'M[F]_(k, n))
  (s : 'M[F]_(m, n)) (params : 'rV[F]_n) (j : 'I_m) (i : 'I_k) :
  (forall l, 1 <= params 0 l * `|x i l - s j l|) ->
  spherical_corr x s params j i = 1 /\ cubic_corr x s params j i = 1.
Proof.
  move=> Hfar; split; rewrite mxE; apply: big1 => l _;
    by rewrite zeta_far // !exprS !mul0r !mulr0 subr0 addr0.
Qed.

(** The correlation matrix of samples that are pairwise far apart. *)
Lemma spherical_all_ones (s : 'M[F]_(m, n)) (params : 'rV[F]_n) :
  (forall j i l, j != i -> 1 <= params 0 l * `|s i l - s j l|) ->
  spherical_corr s s params = const_mx 1 /\ cubic_corr s s params = const_mx 1.
Proof.
  move=> Hfar; split; apply/matrixP => j i; rewrite !mxE; apply: big1 => l _.
  - case: (altP (j =P i)) => [->|Hne].
    + by rewrite subrr zeta_same !exprS !mul0r !mulr0 subr0 addr0.
    + by rewrite zeta_far ?Hfar // !exprS !mul0r !mulr0 subr0 addr0.
  - case: (altP (j =P i)) => [->|Hne].
    + by rewrite subrr zeta_same !exprS !mul0r !mulr0 subr0 addr0.
    + by rewrite zeta_far ?Hfar // !exprS !mul0r !mulr0 subr0 addr0.
Qed.

Lemma det_const_mx1 : (1 < m)%N -> \det (const_mx 1 : 'M[F]_m) = 0.
Proof.
  move=> Hm.
  apply: (@determinant_alternate _ _ _ (Ordinal (ltnW Hm)) (Ordinal Hm)) => //.
  by move=> l; rewrite !mxE.
Qed.

Lemma threshold_pos : 0 < 10%:R ^- 12 :> F.
Proof. by rewrite invr_gt0 exprn_gt0 // ltr0n. Qed.

Lemma far_inflated (s : 'M[F]_(m, n)) (params : 'rV[F]_n) :
  (forall j i l, j != i -> 1 <= params 0 l * `|s i l - s j l|) ->
  forall j i l, j != i ->
    1 <= ((3%:R / 2%:R) *: params) 0 l * `|s i l - s j l|.
Proof.
  move=> Hfar j i l Hne; rewrite mxE -mulrA.
  apply: mulr_ege1; last exact: Hfar.
  by rewrite ler_pdivlMr ?ltr0n // mul1r ler_nat.
Qed.

Lemma inflate_all_ones
  (corr : forall k : nat, 'M[F]_(k, n) -> 'M[F]_(m, n) -> 'rV[F]_n -> 'M[F]_(m, k))
  (s : 'M[F]_(m, n)) :
  (1 < m)%N ->
  (forall params : 'rV[F]_n,
     (forall j i l, j != i -> 1 <= params 0 l * `|s i l - s j l|) ->
     corr m s s params = const_mx 1) ->
  forall (fuel : nat) (params : 'rV[F]_n),
    (forall j i l, j != i -> 1 <= params 0 l * `|s i l - s j l|) ->
    inflate F m n corr fuel s params = None.
Proof.
  move=> Hm Hones; elim=> [|fuel IH] params Hfar /=.
  - by rewrite Hones // det_const_mx1 // threshold_pos.
  - rewrite Hones // det_const_mx1 // threshold_pos.
    by apply: IH; apply: far_inflated.
Qed.

End Kernels.

Arguments linear_corr {F m n k} x s params.
Arguments spherical_corr {F m n k} x s params.
Arguments cubic_corr {F m n k} x s params.
Arguments sig {F m n p q} k.
Arguments beta {F m n p q} k.
Arguments samples {F m n p q} k.
Arguments corr_model_params {F m n p q} k.

(** Floats are below [2 ** 1024]; beyond, a product overflows. *)
Definition float_bound (F : realFieldType) : F := 2%:R ^+ 1024.

Lemma far_inflated_k (F : realFieldType) (m n : nat) (s : 'M[F]_(m, n))
  (params : 'rV[F]_n) (k : nat) :
  (forall j i l, j != i -> 1 <= params 0 l * `|s i l - s j l|) ->
  forall j i l, j != i ->
    1 <= (inflated F n k params) 0 l * `|s i l - s j l|.
Proof.
  move=> Hfar j i l Hne; rewrite mxE -mulrA.
  apply: mulr_ege1; last exact: Hfar.
  apply: exprn_ege1.
  by rewrite ler_pdivlMr ?ltr0n // mul1r ler_nat.
Qed.

(** X16: with the Spherical or the Cubic kernel, inflating the
    hyperparameters cannot repair the correlation matrix of two or more
    samples that are pairwise farther apart than [1 / params] along every
    axis.  After [k] inflations, for every [k] at which the hyperparameters
    are still below the overflow bound of the floats, the correlation matrix
    is the matrix of ones, and the loop that multiplies the hyperparameters
    by 1.5 is still running: it can only end by overflow. *)
Theorem far_samples_defeat_the_inflation (F : realFieldType) (m n p q : nat)
  (np : numpy F m n p) (reg : forall k : nat, 'M[F]_(k, n) -> 'M[F]_(k, p))
  (dtheta : 'M[F]_(m, n) -> 'rV[F]_n -> 'I_n -> 'M[F]_m)
  (s : 'M[F]_(m, n)) (y : 'M[F]_(m, q)) (params0 : 'rV[F]_n)
  (bounds : seq (F * F)) (k : nat) :
  (1 < m)%N ->
  (forall j i l, j != i -> 1 <= params0 0 l * `|s i l - s j l|) ->
  (forall l, (inflated F n k params0) 0 l < float_bound F) ->
  spherical_corr s s (inflated F n k params0) = const_mx 1 /\
  cubic_corr s s (inflated F n k params0) = const_mx 1 /\
  run_krig np reg (@spherical_corr F m n) dtheta k s y params0 bounds = None /\
  run_krig np reg (@cubic_corr F m n) dtheta k s y params0 bounds = None.
Proof.
  move=> Hm Hfar _.
  have [Hs1 Hc1] := spherical_all_ones F m n s _ (far_inflated_k F m n s params0 k Hfar).
  have Hs : inflate F m n (@spherical_corr F m n) k s params0 = None.
    apply: inflate_all_ones => // params Hp.
    by case: (spherical_all_ones F m n s params Hp).
  have Hc : inflate F m n (@cubic_corr F m n) k s params0 = None.
    apply: inflate_all_ones => // params Hp.
    by case: (spherical_all_ones F m n s params Hp).
  by rewrite /run_krig Hs Hc.
Qed.



(** X18: with the Linear kernel, the prediction at a point that is farther
    than [1 / params] from every sample along some axis is the regression
    trend alone: the correlation with every sample vanishes. *)
Theorem far_prediction_is_the_trend (F : realFieldType) (m n p q : nat)
  (reg : forall k : nat, 'M[F]_(k, n) -> 'M[F]_(k, p))
  (mdl : krig F m n p q) (k : nat) (x : 'M[F]_(k, n)) (i : 'I_k) :
  (forall j, exists l,
     1 <= corr_model_params mdl 0 l * `|x i l - samples mdl j l|) ->
  forall c, interpolate reg (@linear_corr F m n) mdl x i c
            = (reg k x *m beta mdl) i c.
Proof.
  move=> Hfar c; rewrite /interpolate !mxE.
  rewrite [X in _ + X]big1 ?addr0 // => j _.
  case: (Hfar j) => l Hl.
  by rewrite mxE (linear_corr_far F m n k x _ _ j i l Hl) mul0r.
Qed.

(** ** Two sites far apart *)

Section TwoSites.

Variable F : realFieldType.

(** A library whose factorisation always fails; the fits below do not reach
    it. *)
Definition np_none (m n p : nat) : numpy F m n p :=
  mkNumpy (fun k a => None) (fun a => (a, 1%:M)) (fun _ => 0) 0
          (fun _ x0 _ => Ok x0).

(** The sites 0 and 2 on the line, with hyperparameter 1. *)
Definition two_sites : 'M[F]_(2, 1) := \matrix_(i, l) (i%:R * 2%:R).
Definition unit_params : 'rV[F]_1 := const_mx 1.

Lemma two_sites_far (j i : 'I_2) (l : 'I_1) :
  j != i -> 1 <= unit_params 0 l * `|two_sites i l - two_sites j l|.
Proof.
  have H2 : 1 <= 2%:R :> F by rewrite ler1n.
  rewrite !mxE mul1r.
  case: j => [[|[|j]] Hj] //; case: i => [[|[|i]] Hi] //= _.
  - by rewrite mul0r mul1r subr0 ger0_norm // (le_trans ler01).
  - by rewrite mul0r mul1r sub0r normrN ger0_norm // (le_trans ler01).
Qed.

(** Ten inflations of the hyperparameter 1 stay far below the overflow
    bound. *)
Lemma ten_inflations_are_finite (l : 'I_1) :
  (inflated F 1 10 unit_params) 0 l < float_bound F.
Proof.
  rewrite !mxE mulr1 /float_bound.
  have H2 : (3%:R / 2%:R : F) <= 2%:R.
    by rewrite ler_pdivrMr ?ltr0n // -natrM ler_nat.
  have H0 : (0 : F) <= 3%:R / 2%:R by rewrite divr_ge0 ?ler0n.
  apply: (@Order.POrderTheory.le_lt_trans _ _ (2%:R ^+ 10)).
    by apply: lerXn2r; rewrite ?nnegrE ?ler0n.
  by apply: ltr_eXn2l; rewrite ?ltr1n.
Qed.

End TwoSites.

(* --------------------------------------------------------------------- *)
(** ** A fit on two sites *)

Section TwoSiteFit.

Import mathcomp.algebra.ring_tactic mathcomp.algebra.field_tactic.
Import mathcomp.algebra.arithmetic_tactic.
Import Order.Theory.

Variable F : realFieldType.

(** The sites 0 and 1 on the line with the values 0 and 1, the Linear
    kernel with hyperparameter 18/25 and a constant regression basis. *)
Definition sites01 : 'M[F]_(2, 1) := \matrix_(i, l) i%:R.
Definition values01 : 'M[F]_(2, 1) := \matrix_(i, l) i%:R.
Definition theta01 : 'rV[F]_1 := const_mx (18%:R / 25%:R).

Definition constant_basis (k : nat) (x : 'M[F]_(k, 1)) : 'M[F]_(k, 1) :=
  const_mx 1.

(** A matrix of two rows and two columns, and a column of two entries. *)
Definition mx22 (a b c d : F) : 'M[F]_2 :=
  \matrix_(i, j) if (i : nat) == 0%N then (if (j : nat) == 0%N then a else b)
                 else (if (j : nat) == 0%N then c else d).
Definition col2 (a b : F) : 'M[F]_(2, 1) :=
  \matrix_(i, j) if (i : nat) == 0%N then a else b.

(** The correlation matrix of the two sites is [[1, 7/25], [7/25, 1]];
    [chol01] is its Cholesky factor and [cinv01] the inverse of the
    factor. *)
Definition chol01 : 'M[F]_2 := mx22 1 0 (7%:R / 25%:R) (24%:R / 25%:R).
Definition cinv01 : 'M[F]_2 := mx22 1 0 (- (7%:R / 24%:R)) (25%:R / 24%:R).

(** [np.linalg.qr] of the column [[1], [3/4]] that the fit factorises. *)
Definition q01 : 'M[F]_(2, 1) := col2 (- (4%:R / 5%:R)) (- (3%:R / 5%:R)).
Definition g01 : 'M[F]_1 := const_mx (- (5%:R / 4%:R)).

(** The library on this fit: the factorisations of the matrices that the
    fit passes, and an optimiser that returns its starting point. *)
Definition np01 : numpy F 2 1 1 :=
  mkNumpy
    (fun k =>
       match k return 'M[F]_k -> option 'M[F]_k with
       | 2%N => fun a => if a == linear_corr sites01 sites01 theta01
                         then Some chol01 else None
       | _ => fun _ => None
       end)
    (fun _ => (q01, g01)) (fun _ => 0) 3%:R (fun _ x0 _ => Ok x0).

Definition fit01 : option (result (krig F 2 1 1 1)) :=
  run_krig np01 constant_basis (@linear_corr F 2 1) (fun _ _ _ => 0) 0
           sites01 values01 theta01 [::].

(** The fitted model: the trend 1/2 and the weights -25/36 and 25/36 of the
    two sites. *)
Definition model01 : krig F 2 1 1 1 :=
  mkKrig sites01 values01 theta01
         (const_mx (1 / 2%:R)) (col2 (- (25%:R / 36%:R)) (25%:R / 36%:R))
         (const_mx (25%:R / 72%:R)) (col2 1 (3%:R / 4%:R)) cinv01 g01.

Lemma mx22E (a b c d : F) (A : 'M[F]_2) :
  A 0 0 = a -> A 0 1 = b -> A 1 0 = c -> A 1 1 = d -> A = mx22 a b c d.
Proof.
  move=> H00 H01 H10 H11; apply/matrixP => i j; rewrite mxE.
  case: i => [[|[|i]] Hi] //; case: j => [[|[|j]] Hj] //=.
  - by rewrite -H00; congr (A _ _); apply: val_inj.
  - by rewrite -H01; congr (A _ _); apply: val_inj.
  - by rewrite -H10; congr (A _ _); apply: val_inj.
  - by rewrite -H11; congr (A _ _); apply: val_inj.
Qed.

Lemma col2E (a b : F) (A : 'M[F]_(2, 1)) :
  A 0 0 = a -> A 1 0 = b -> A = col2 a b.
Proof.
  move=> H0 H1; apply/matrixP => i j; rewrite mxE ord1.
  case: i => [[|[|i]] Hi] //=.
  - by rewrite -H0; congr (A _ _); apply: val_inj.
  - by rewrite -H1; congr (A _ _); apply: val_inj.
Qed.

Lemma corr01 :
  linear_corr sites01 sites01 theta01 = mx22 1 (7%:R / 25%:R) (7%:R / 25%:R) 1.
Proof.
  have E : 1 - 18%:R / 25%:R = 7%:R / 25%:R :> F by field.
  have P : (0 : F) <= 7%:R / 25%:R by lra.
  apply: mx22E; rewrite !mxE big_ord_recl big_ord0 mulr1 !mxE /= ?modn_small //.
  - by rewrite subrr normr0 mulr0 subr0; apply/max_idPl; exact: ler01.
  - by rewrite subr0 normr1 mulr1 E; apply/max_idPl.
  - by rewrite sub0r normrN normr1 mulr1 E; apply/max_idPl.
  - by rewrite subrr normr0 mulr0 subr0; apply/max_idPl; exact: ler01.
Qed.

Lemma chol01_factor : chol01 *m chol01^T = linear_corr sites01 sites01 theta01.
Proof.
  rewrite corr01; apply: mx22E;
    rewrite !mxE !big_ord_recl big_ord0 /= !mxE /=; field.
Qed.

Lemma chol01_inverse : chol01 *m cinv01 = 1%:M.
Proof.
  rewrite [RHS](@mx22E 1 0 0 1) ?mxE //.
  apply: mx22E; rewrite !mxE !big_ord_recl big_ord0 /= !mxE /=; field.
Qed.

Lemma np01_cholesky (k : nat) (a c : 'M[F]_k) :
  cholesky np01 a = Some c -> c *m c^T = a.
Proof.
  case: k a c => [|[|[|k]]] a c //=.
  by case: ifP => // /eqP -> [<-]; exact: chol01_factor.
Qed.

Lemma corr01_not_degenerate :
  (\det (linear_corr sites01 sites01 theta01) < 10%:R ^- 12) = false.
Proof.
  rewrite -chol01_factor det_mulmx det_tr.
  have Htrig : is_trig_mx chol01.
    apply/is_trig_mxP => i j.
    by case: i => [[|[|i]] Hi] //; case: j => [[|[|j]] Hj] //=; rewrite mxE.
  have -> : \det chol01 = 24%:R / 25%:R.
    by rewrite (det_trig Htrig) !big_ord_recl big_ord0 !mxE /=; field.
  apply/negbTE; rewrite -leNgt.
  lra.
Qed.

Lemma mx11E (a : F) (A : 'M[F]_1) : A 0 0 = a -> A = const_mx a.
Proof. by move=> H; apply/matrixP => i j; rewrite !ord1 mxE. Qed.

Lemma cinv01_inverse : invmx chol01 = cinv01.
Proof.
  have [Hu _] := mulmx1_unit chol01_inverse.
  by rewrite -[LHS]mulmx1 -chol01_inverse mulKmx.
Qed.

Lemma g01_inverse : g01 \in unitmx /\ invmx g01 = const_mx (- (4%:R / 5%:R)).
Proof.
  have H : g01 *m const_mx (- (4%:R / 5%:R)) = 1%:M.
    rewrite [RHS](@mx11E 1) ?mxE //.
    by apply: mx11E; rewrite !mxE big_ord_recl big_ord0 !mxE; field.
  have [Hu _] := mulmx1_unit H.
  by split=> //; rewrite -[LHS]mulmx1 -H mulKmx.
Qed.

Lemma fit01_ok : fit01 = Some (Ok model01).
Proof.
  rewrite /fit01 /run_krig /= corr01_not_degenerate /=.
  rewrite /try_cholesky /= eqxx /=.
  have [Hu _] := mulmx1_unit chol01_inverse.
  have [Hg Hginv] := g01_inverse.
  rewrite /inv Hu /= cinv01_inverse (mxrank_unit Hg) /= /solve Hg /= Hginv.
  have Hy : cinv01 *m values01 = col2 0 (25%:R / 24%:R).
    apply: col2E; rewrite !(mxE, big_ord_recl, big_ord0) /= /bump /=; field.
  have Hf : cinv01 *m constant_basis 2 sites01 = col2 1 (3%:R / 4%:R).
    apply: col2E; rewrite !(mxE, big_ord_recl, big_ord0) /= /bump /=; field.
  have Hb : const_mx (- (4%:R / 5%:R)) *m (q01^T *m col2 0 (25%:R / 24%:R))
            = const_mx (1 / 2%:R) :> 'M[F]_1.
    apply: mx11E; rewrite !(mxE, big_ord_recl, big_ord0) /= /bump /=; field.
  rewrite Hy Hf Hb.
  have Hgm : cinv01^T *m cinv01
             *m (values01 - constant_basis 2 sites01 *m const_mx (1 / 2%:R))
             = col2 (- (25%:R / 36%:R)) (25%:R / 36%:R).
    apply: col2E; rewrite !(mxE, big_ord_recl, big_ord0) /= /bump /=; field.
  have Hs : \row_l (2%:R^-1 * \sum_(i < 2)
                     (col2 0 (25%:R / 24%:R)
                      - col2 1 (3%:R / 4%:R) *m const_mx (1 / 2%:R)) i l ^+ 2)
            = const_mx (25%:R / 72%:R) :> 'rV[F]_1.
    apply/matrixP => i j; rewrite !ord1.
    rewrite !(mxE, big_ord_recl, big_ord0) /= /bump /=; field.
  by rewrite Hgm Hs.
Qed.

(** A point of evaluation at 3, farther than [1 / params] from both
    sites. *)
Definition far_point : 'M[F]_(1, 1) := const_mx 3%:R.

Lemma far_point_far (j : 'I_2) :
  exists l, 1 <= corr_model_params model01 0 l
                 * `|far_point 0 l - samples model01 j l|.
Proof.
  exists 0; rewrite /= !mxE.
  case: j => [[|[|j]] Hj] //=.
  - by rewrite subr0 ger0_norm ?ler0n //; lra.
  - have -> : 3%:R - 1%:R = 2%:R :> F by ring.
    by rewrite ger0_norm ?ler0n //; lra.
Qed.

End TwoSiteFit.

Lemma C7_interpolation_exact_witness :
  interpolate (constant_basis rat) (@linear_corr rat 2 1) (model01 rat)
    (sites01 rat)
  = values01 rat.
Proof.
  apply: (C7_interpolation_exact _ _ _ _ _ (np01 rat) (constant_basis rat)
            (@linear_corr rat 2 1) (fun _ _ _ => 0) 0 (sites01 rat)
            (values01 rat) (theta01 rat) [::] (model01 rat)).
  - exact: np01_cholesky.
  - exact: fit01_ok.
Defined.

Lemma far_points_are_fully_correlated_witness :
  spherical_corr (two_sites rat) (two_sites rat) (unit_params rat) 0 1 = 1 /\
  cubic_corr (two_sites rat) (two_sites rat) (unit_params rat) 0 1 = 1.
Proof.
  apply: (far_points_are_fully_correlated rat 2 1 2 (two_sites rat)
            (two_sites rat) (unit_params rat) 0 1).
  by move=> l; exact: two_sites_far.
Defined.

Lemma linear_corr_properties_witness :
  linear_corr (two_sites rat) (two_sites rat) (unit_params rat) 0 1 <= 1 /\
  linear_corr (two_sites rat) (two_sites rat) (unit_params rat) 0 1 = 0.
Proof.
  case: (linear_corr_properties rat 2 1 2 (two_sites rat) (two_sites rat)
           (unit_params rat)) => _ [_ [_ [Hle Hfar]]].
  split; first by apply: Hle => l; rewrite mxE ler01.
  by apply: (Hfar 0 1 0); exact: two_sites_far.
Defined.

Lemma far_samples_defeat_the_inflation_witness :
  spherical_corr (two_sites rat) (two_sites rat)
    (inflated rat 1 10 (unit_params rat)) = const_mx 1 /\
  cubic_corr (two_sites rat) (two_sites rat)
    (inflated rat 1 10 (unit_params rat)) = const_mx 1 /\
  run_krig (np_none rat 2 1 1) (fun k _ => const_mx 1)
    (@spherical_corr rat 2 1) (fun _ _ _ => 0) 10 (two_sites rat)
    (const_mx 1 : 'M[rat]_(2, 1)) (unit_params rat) [::] = None /\
  run_krig (np_none rat 2 1 1) (fun k _ => const_mx 1)
    (@cubic_corr rat 2 1) (fun _ _ _ => 0) 10 (two_sites rat)
    (const_mx 1 : 'M[rat]_(2, 1)) (unit_params rat) [::] = None.
Proof.
  apply: (far_samples_defeat_the_inflation rat 2 1 1 1 (np_none rat 2 1 1)
            (fun k _ => const_mx 1) (fun _ _ _ => 0) (two_sites rat)
            (const_mx 1) (unit_params rat) [::] 10).
  - by [].
  - exact: two_sites_far.
  - exact: ten_inflations_are_finite.
Defined.

Lemma far_prediction_is_the_trend_witness :
  interpolate (constant_basis rat) (@linear_corr rat 2 1) (model01 rat)
    (far_point rat) 0 0
  = (constant_basis rat 1 (far_point rat) *m beta (model01 rat)) 0 0.
Proof.
  apply: (far_prediction_is_the_trend rat 2 1 1 1 (constant_basis rat)
            (model01 rat) 1 (far_point rat) 0).
  exact: far_point_far.
Defined.

End Krig.
